(** * The simulation engine of [game_of_life.py] (class [Model])

    A shallow embedding of the grid engine: the cell grid is a list of
    rows of integers, every method of [Model] is a function on a record
    of the instance attributes, and a Python exception ([IndexError],
    [ZeroDivisionError]) is the [None] of the option monad.  The drawing
    tool and the event handlers of class [Controller] follow, as functions
    on the attributes that decide what the controller asks of the model. *)

From stdpp Require Import base option list list_numbers strings.
From Stdlib Require Import ZArith Lia.

Local Open Scope Z_scope.

(** ** Python lists and integers *)

Module Py.

(** The position a subscript [i] denotes in a list of length [len l]:
    a negative subscript counts from the end, anything else outside
    the list raises [IndexError]. *)
Definition index {A} (l : list A) (i : Z) : option nat :=
  let n := Z.of_nat (length l) in
  if bool_decide (0 ≤ i < n) then Some (Z.to_nat i)
  else if bool_decide (- n ≤ i < 0) then Some (Z.to_nat (n + i))
  else None.

(** [l[i]] *)
Definition getitem {A} (l : list A) (i : Z) : option A :=
  k ← index l i; l !! k.

(** [l[i] = x] *)
Definition setitem {A} (l : list A) (i : Z) (x : A) : option (list A) :=
  k ← index l i; Some (<[k:=x]> l).

(** [l[:n]] *)
Definition slice_to {A} (l : list A) (n : Z) : list A :=
  if bool_decide (0 ≤ n) then take (Z.to_nat n) l
  else take (Z.to_nat (Z.of_nat (length l) + n)) l.

(** [[x] * n] *)
Definition times {A} (x : A) (n : Z) : list A := replicate (Z.to_nat n) x.

(** [range(n)], [range(a, b)] and [range(a, b, -1)] *)
Definition range (n : Z) : list Z := seqZ 0 n.
Definition range2 (a b : Z) : list Z := seqZ a (b - a).
Definition range_down (a b : Z) : list Z := (λ i, a - i) <$> seqZ 0 (a - b).

(** [a % b] on integers: the result has the sign of [b]; [b = 0]
    raises [ZeroDivisionError]. *)
Definition mod_ (a b : Z) : option Z :=
  if bool_decide (b = 0) then None else Some (a `mod` b).

(** [for x in xs: body], threading the mutated state [s]; an exception
    in the body leaves the loop. *)
Fixpoint for_in {A S} (xs : list A) (body : A → S → option S) (s : S)
  : option S :=
  match xs with
  | [] => Some s
  | x :: xs' => s' ← body x s; for_in xs' body s'
  end.

End Py.

(** ** The model *)

Abbreviation grid := (list (list Z)).

(** [g[row][col]] *)
Definition get2 (g : grid) (row col : Z) : option Z :=
  r ← Py.getitem g row; Py.getitem r col.

(** [g[row][col] = v]: the row object is fetched and updated in place. *)
Definition set2 (g : grid) (row col v : Z) : option grid :=
  r ← Py.getitem g row; r' ← Py.setitem r col v; Py.setitem g row r'.

Record Model := mkModel {
  num_rows : Z;
  num_cols : Z;
  live_state : Z;
  wrap : bool;
  trace : bool;
  cell_states : grid;
  population : Z;
  total_cells : Z
}.

Definition with_cells (m : Model) (cs : grid) (pop : Z) : Model :=
  mkModel (num_rows m) (num_cols m) (live_state m) (wrap m) (trace m)
          cs pop (total_cells m).

(** [[[0] * num_cols for _ in range(num_rows)]] *)
Definition dead_grid (rows cols : Z) : grid :=
  (λ _, Py.times 0 cols) <$> Py.range rows.

(** [Model.__init__] *)
Definition init (rows cols live : Z) (wrap trace : bool) : Model :=
  mkModel rows cols live wrap trace (dead_grid rows cols) 0 (rows * cols).

(** The two nested loops [for row in range(rows): for col in range(cols)]. *)
Definition for_cells {S} (rows cols : Z) (body : Z → Z → S → option S)
  : S → option S :=
  Py.for_in (Py.range rows) (λ row, Py.for_in (Py.range cols) (body row)).

(** [Model.randomize]; [bits k] is the result of the [k]-th call of
    [getrandbits(1)] made by this invocation. *)
Definition randomize_cell (live : Z) (bits : nat → bool) (row col : Z)
    (s : grid * Z * nat) : option (grid * Z * nat) :=
  let '(cs, pop, k) := s in
  if bits k
  then cs' ← set2 cs row col live; Some (cs', pop + 1, S k)
  else cs' ← set2 cs row col 0; Some (cs', pop, S k).

Definition randomize (bits : nat → bool) (m : Model) : option Model :=
  '(cs, pop, _) ← for_cells (num_rows m) (num_cols m)
                    (randomize_cell (live_state m) bits)
                    (cell_states m, 0, 0%nat);
  Some (with_cells m cs pop).

(** [Model.clear] *)
Definition clear (m : Model) : option Model :=
  cs ← for_cells (num_rows m) (num_cols m)
         (λ row col cs, set2 cs row col 0) (cell_states m);
  Some (with_cells m cs 0).

(** One turn of the inner loop of [Model._count_live_neighbors]. *)
Definition in_bounds (x n : Z) : bool := bool_decide (0 ≤ x < n).

Definition count_neighbor (m : Model) (row col d_row d_col : Z)
    (live_neighbors : Z) : option Z :=
  if bool_decide (d_row = 0) && bool_decide (d_col = 0)
  then Some live_neighbors
  else
    let neighbor_row := row + d_row in
    let neighbor_col := col + d_col in
    if negb (in_bounds neighbor_row (num_rows m)) && negb (wrap m)
    then Some live_neighbors
    else
      neighbor_row ← (if in_bounds neighbor_row (num_rows m)
                      then Some neighbor_row
                      else Py.mod_ neighbor_row (num_rows m));
      if negb (in_bounds neighbor_col (num_cols m)) && negb (wrap m)
      then Some live_neighbors
      else
        neighbor_col ← (if in_bounds neighbor_col (num_cols m)
                        then Some neighbor_col
                        else Py.mod_ neighbor_col (num_cols m));
        v ← get2 (cell_states m) neighbor_row neighbor_col;
        Some (if bool_decide (v = live_state m)
              then live_neighbors + 1 else live_neighbors).

(** [Model._count_live_neighbors] *)
Definition count_live_neighbors (m : Model) (row col : Z) : option Z :=
  Py.for_in [-1; 0; 1]
    (λ d_row, Py.for_in [-1; 0; 1] (count_neighbor m row col d_row)) 0.

(** The test of the Game of Life rule in [Model.step]. *)
Definition alive_next (live cell_state live_neighbors : Z) : bool :=
  bool_decide (cell_state = live)
    && bool_decide (2 ≤ live_neighbors) && bool_decide (live_neighbors ≤ 3)
  || bool_decide (cell_state < live) && bool_decide (live_neighbors = 3).

(** The body of the loops of [Model.step]: reads [self.cell_states],
    writes the local buffer [cell_states] and the local [population]. *)
Definition step_cell (m : Model) (row col : Z) (s : grid * Z)
  : option (grid * Z) :=
  let '(cs, pop) := s in
  cell_state ← get2 (cell_states m) row col;
  live_neighbors ← count_live_neighbors m row col;
  if alive_next (live_state m) cell_state live_neighbors
  then cs' ← set2 cs row col (live_state m); Some (cs', pop + 1)
  else if trace m && negb (bool_decide (cell_state = 0))
  then cs' ← set2 cs row col (Z.max (cell_state - 1) 1); Some (cs', pop)
  else Some (cs, pop).

(** [Model.step] *)
Definition step (m : Model) : option Model :=
  '(cs, pop) ← for_cells (num_rows m) (num_cols m) (step_cell m)
                 (dead_grid (num_rows m) (num_cols m), 0);
  Some (with_cells m cs pop).

(** [Model.toggle_wrap] *)
Definition toggle_wrap (m : Model) : Model :=
  mkModel (num_rows m) (num_cols m) (live_state m) (negb (wrap m)) (trace m)
          (cell_states m) (population m) (total_cells m).

(** [Model.toggle_trace] *)
Definition fade_out (live : Z) (row col : Z) (cs : grid) : option grid :=
  v ← get2 cs row col;
  if bool_decide (v < live) then set2 cs row col 0 else Some cs.

Definition toggle_trace (m : Model) : option Model :=
  let trace' := negb (trace m) in
  cs ← (if negb trace'
        then for_cells (num_rows m) (num_cols m) (fade_out (live_state m))
               (cell_states m)
        else Some (cell_states m));
  Some (mkModel (num_rows m) (num_cols m) (live_state m) (wrap m) trace'
                cs (population m) (total_cells m)).

(** [Model.adjust_grid_size] *)
Definition drop_scan (live : Z) (row col : Z) (s : grid * Z)
  : option (grid * Z) :=
  let '(cs, pop) := s in
  v ← get2 cs row col;
  Some (cs, if bool_decide (v = live) then pop - 1 else pop).

Definition adjust_rows (live old_num_rows old_num_cols new_num_rows : Z)
    (s : grid * Z) : option (grid * Z) :=
  if bool_decide (new_num_rows > old_num_rows) then
    Py.for_in (Py.range2 old_num_rows new_num_rows)
      (λ _ '(cs, pop), Some (cs ++ [Py.times 0 old_num_cols], pop)) s
  else if bool_decide (new_num_rows < old_num_rows) then
    '(cs, pop) ← Py.for_in (Py.range_down (old_num_rows - 1) (new_num_rows - 1))
                   (λ row, Py.for_in (Py.range old_num_cols)
                             (drop_scan live row)) s;
    Some (Py.slice_to cs new_num_rows, pop)
  else Some s.

Definition extend_row (extra : Z) (row : Z) (s : grid * Z)
  : option (grid * Z) :=
  let '(cs, pop) := s in
  r ← Py.getitem cs row;
  cs' ← Py.setitem cs row (r ++ Py.times 0 extra);
  Some (cs', pop).

Definition shrink_row (live old_num_cols new_num_cols : Z) (row : Z)
    (s : grid * Z) : option (grid * Z) :=
  '(cs, pop) ← Py.for_in (Py.range_down (old_num_cols - 1) (new_num_cols - 1))
                 (drop_scan live row) s;
  r ← Py.getitem cs row;
  cs' ← Py.setitem cs row (Py.slice_to r new_num_cols);
  Some (cs', pop).

Definition adjust_cols (live old_num_cols new_num_rows new_num_cols : Z)
    (s : grid * Z) : option (grid * Z) :=
  if bool_decide (new_num_cols > old_num_cols) then
    Py.for_in (Py.range new_num_rows)
      (extend_row (new_num_cols - old_num_cols)) s
  else if bool_decide (new_num_cols < old_num_cols) then
    Py.for_in (Py.range new_num_rows)
      (shrink_row live old_num_cols new_num_cols) s
  else Some s.

Definition adjust_grid_size (new_num_rows new_num_cols : Z) (m : Model)
  : option Model :=
  let old_num_rows := num_rows m in
  let old_num_cols := num_cols m in
  s ← adjust_rows (live_state m) old_num_rows old_num_cols new_num_rows
        (cell_states m, population m);
  '(cs, pop) ← adjust_cols (live_state m) old_num_cols new_num_rows
                 new_num_cols s;
  Some (mkModel new_num_rows new_num_cols (live_state m) (wrap m) (trace m)
                cs pop (new_num_rows * new_num_cols)).

(** [Model.set_cells_state] *)
Definition set_cell (state : bool) (cell : Z * Z) (m : Model)
  : option Model :=
  let '(row, col) := cell in
  v ← get2 (cell_states m) row col;
  if state && negb (bool_decide (v = live_state m)) then
    cs ← set2 (cell_states m) row col (live_state m);
    Some (with_cells m cs (population m + 1))
  else if negb state && negb (bool_decide (v = 0)) then
    let pop := if bool_decide (v = live_state m)
               then population m - 1 else population m in
    cs ← set2 (cell_states m) row col 0;
    Some (with_cells m cs pop)
  else Some m.

Definition set_cells_state (cells : list (Z * Z)) (state : bool) (m : Model)
  : option Model :=
  Py.for_in cells (set_cell state) m.

(** [Model.get_cell_states] *)
Definition get_cell_states (m : Model) : grid := cell_states m.

(** ** Reading a grid and counting its live cells *)

(** The cell at position [(i, j)] of the nested list, if there is one. *)
Definition cell (g : grid) (i j : nat) : option Z := row ← g !! i; row !! j.

(** The widths of the rows: what decides whether a subscript is valid. *)
Definition dims (g : grid) : list nat := length <$> g.

(** The number of cells of a row, and of a grid, that hold [live]. *)
Definition live_in_row (live : Z) (row : list Z) : Z :=
  Z.of_nat (length (filter (λ v, v = live) row)).

Definition live_cells (live : Z) (g : grid) : Z :=
  Z.of_nat (length (filter (λ v, v = live) (concat g))).

(** [1] for a value that is [live], [0] for any other. *)
Definition is_live (live v : Z) : Z := Z.b2z (bool_decide (v = live)).

(** What the cell at [(row, col)] adds to the number of live cells. *)
Definition live_at (live : Z) (g : grid) (row col : Z) : Z :=
  from_option (is_live live) 0 (get2 g row col).

Definition sumZ {A} (f : A → Z) (l : list A) : Z :=
  foldr (λ x acc, f x + acc) 0 l.

(** ** Consistent states *)

(** Every cell value lies in [[0, live_state]]. *)
Definition cells_in_range (m : Model) : Prop :=
  Forall (Forall (λ v, 0 ≤ v ≤ live_state m)) (cell_states m).

(** [population] is the number of cells that hold [live_state]. *)
Definition population_ok (m : Model) : Prop :=
  population m = live_cells (live_state m) (cell_states m).

(** A cell the nested list holds beyond the first [num_rows] rows or the
    first [num_cols] columns is dead.  A model constructed with a negative
    dimension and resized afterwards holds such cells. *)
Definition hidden_dead (rows cols : Z) (g : grid) : Prop :=
  ∀ i j v, cell g i j = Some v →
           rows ≤ Z.of_nat i ∨ cols ≤ Z.of_nat j → v = 0.

(** The nested list is [num_rows] rows of [num_cols] cells. *)
Definition shape_ok (m : Model) : Prop :=
  0 ≤ num_rows m ∧ 0 ≤ num_cols m
  ∧ dims (cell_states m)
    = replicate (Z.to_nat (num_rows m)) (Z.to_nat (num_cols m)).

Record consistent (m : Model) : Prop := mkConsistent {
  live_gt_1 : 1 < live_state m;
  in_range : cells_in_range m;
  pop_ok : population_ok m;
  hidden : hidden_dead (num_rows m) (num_cols m) (cell_states m)
}.

(** ** Loops that write one cell per turn

    The loops of [randomize], [clear], [step] and [toggle_trace] visit the
    cells in row-major order and touch, at most, the cell they visit. *)

(** The cell [(r, c)] comes before [(r', c')] in that order. *)
Definition before (r' c' r c : Z) : Prop := r < r' ∨ (r = r' ∧ c < c').

(** A loop body that keeps the widths of the rows of the grid [gr s] and
    every cell but the one it visits. *)
Definition local_write {St} (gr : St → grid) (rows cols : Z)
    (body : Z → Z → St → option St) : Prop :=
  ∀ r c s s', 0 ≤ r < rows → 0 ≤ c < cols → body r c s = Some s' →
    dims (gr s') = dims (gr s)
    ∧ ∀ r' c', 0 ≤ r' → 0 ≤ c' → ¬ (r' = r ∧ c' = c) →
               get2 (gr s') r' c' = get2 (gr s) r' c'.

(** The loop invariant when the loops are about to visit [(r', c')]: the
    cells not visited yet are those of the initial state [s0], and each
    visited cell is as the turn that visited it left it. *)
Definition visited {St} (gr : St → grid) (rows cols : Z)
    (body : Z → Z → St → option St) (s0 : St) (r' c' : Z) (s : St) : Prop :=
  dims (gr s) = dims (gr s0)
  ∧ (∀ r c, 0 ≤ r → 0 ≤ c → ¬ (r < rows ∧ c < cols ∧ before r' c' r c) →
            get2 (gr s) r c = get2 (gr s0) r c)
  ∧ (∀ r c, 0 ≤ r < rows → 0 ≤ c < cols → before r' c' r c →
            ∃ s1 s2, body r c s1 = Some s2
                     ∧ dims (gr s1) = dims (gr s0)
                     ∧ get2 (gr s1) r c = get2 (gr s0) r c
                     ∧ get2 (gr s) r c = get2 (gr s2) r c).

(** ** What the operations compute *)

(** The value [step] gives a cell that holds [u] and has [n] live
    neighbors: the three branches of its loop body. *)
Definition next_state (m : Model) (u n : Z) : Z :=
  if alive_next (live_state m) u n then live_state m
  else if trace m && negb (bool_decide (u = 0)) then Z.max (u - 1) 1
  else 0.

(** What [toggle_trace] does to a cell value when it disables the trace. *)
Definition collapse (live u : Z) : Z := if bool_decide (u < live) then 0 else u.

(** A coordinate pair inside the current dimensions. *)
Definition in_grid (m : Model) (cell : Z * Z) : Prop :=
  0 ≤ cell.1 < num_rows m ∧ 0 ≤ cell.2 < num_cols m.

(** The value [set_cells_state] leaves in the cells it is given. *)
Definition target (state : bool) (m : Model) : Z :=
  if state then live_state m else 0.

(** The grid after the column loop of [adjust_grid_size] has replaced
    each of the first [k] rows by [f] of it. *)
Definition mapped (f : list Z → list Z) (k : nat) (cs : grid) : grid :=
  (f <$> take k cs) ++ drop k cs.

(** The live cells of a row among the columns [new_cols .. old_cols - 1]. *)
Definition dropped_in_row (live old_cols new_cols : Z) (row : list Z) : Z :=
  sumZ (λ c, from_option (is_live live) 0 (row !! Z.to_nat c))
       (seqZ new_cols (old_cols - new_cols)).

(** The grid and the counter between the two phases of a resize. *)
Definition good (live rows cols : Z) (s : list (list Z) * Z) : Prop :=
  Forall (Forall (λ v, 0 ≤ v ≤ live)) s.1
  ∧ s.2 = live_cells live s.1
  ∧ hidden_dead rows cols s.1.

(** The cells a resize discards: the columns from [new_cols] of the rows
    that stay, and the rows from [new_rows]. *)
Definition dropped_cells (new_rows new_cols : Z) (g : grid) : grid :=
  (drop (Z.to_nat new_cols) <$> take (Z.to_nat new_rows) g)
  ++ drop (Z.to_nat new_rows) g.

(** ** The neighbor counter of section 4.2 of the specification

    A second description of the counter, in the words of the
    specification, to compare [count_live_neighbors] with. *)

(** The eight offsets of the Moore neighborhood. *)
Definition moore_offsets : list (Z * Z) :=
  [(-1, -1); (-1, 0); (-1, 1); (0, -1); (0, 1); (1, -1); (1, 0); (1, 1)].

(** One axis: a coordinate in [[0, n)] is kept; one outside is skipped
    ([None]) without wrap and reduced modulo [n] with wrap. *)
Definition resolve (wrap : bool) (n x : Z) : option Z :=
  if bool_decide (0 ≤ x < n) then Some x
  else if wrap then Some (x `mod` n) else None.

(** The same, as a relation between the coordinate and its resolution. *)
Definition resolved (w : bool) (n x y : Z) : Prop :=
  (0 ≤ x < n ∧ y = x) ∨ (¬ 0 ≤ x < n ∧ w = true ∧ y = x `mod` n).

(** The neighbor at offset [d] counts: both axes resolve, each on its
    own, and the resolved cell holds [live_state]. *)
Definition neighbor_counts (m : Model) (row col : Z) (d : Z * Z) : bool :=
  match resolve (wrap m) (num_rows m) (row + d.1),
        resolve (wrap m) (num_cols m) (col + d.2) with
  | Some nr, Some nc =>
      bool_decide (get2 (cell_states m) nr nc = Some (live_state m))
  | _, _ => false
  end.

(** The number of offsets whose neighbor counts. *)
Definition live_neighbor_count (m : Model) (row col : Z) : Z :=
  sumZ (λ d, Z.b2z (neighbor_counts m row col d)) moore_offsets.

(** ** Sequences of operations *)

Inductive op : Type :=
  | Step
  | Randomize (bits : nat → bool)
  | Clear
  | SetCellsState (cells : list (Z * Z)) (state : bool)
  | ToggleWrap
  | ToggleTrace
  | AdjustGridSize (new_num_rows new_num_cols : Z).

Definition exec (o : op) (m : Model) : option Model :=
  match o with
  | Step => step m
  | Randomize bits => randomize bits m
  | Clear => clear m
  | SetCellsState cells state => set_cells_state cells state m
  | ToggleWrap => Some (toggle_wrap m)
  | ToggleTrace => toggle_trace m
  | AdjustGridSize new_num_rows new_num_cols =>
      adjust_grid_size new_num_rows new_num_cols m
  end.

(** What the callers owe: coordinates inside the grid, and dimensions
    that are not negative. *)
Definition permitted (m : Model) (o : op) : Prop :=
  match o with
  | SetCellsState cells _ => Forall (in_grid m) cells
  | AdjustGridSize new_num_rows new_num_cols =>
      0 ≤ new_num_rows ∧ 0 ≤ new_num_cols
  | _ => True
  end.

(** The states a run of permitted operations goes through, each
    operation having returned. *)
Inductive reachable (m0 : Model) : Model → Prop :=
  | reach_init : reachable m0 m0
  | reach_op m o m' :
      reachable m0 m → permitted m o → exec o m = Some m' → reachable m0 m'.

(** [k] calls of [step] in a row. *)
Fixpoint steps (k : nat) (m : Model) : option Model :=
  match k with
  | O => Some m
  | S k' => m' ← step m; steps k' m'
  end.

(** ** The grids of the examples of section 8 of the specification *)

(** The blinker: a 3 by 3 wrapped grid whose row [row] is alive. *)
Definition blinker_row (live : Z) (row r : Z) : list Z :=
  if bool_decide (r = row) then [live; live; live] else [0; 0; 0].

Definition blinker (live : Z) (row : Z) (trace : bool) : Model :=
  mkModel 3 3 live true trace
          [blinker_row live row 0; blinker_row live row 1;
           blinker_row live row 2] 3 9.

(** The 3 by 3 grid whose nine cells hold [v]. *)
Definition full_grid (v : Z) : grid := [[v; v; v]; [v; v; v]; [v; v; v]].

(** Live cells at [(0, 0)] and [(4, 4)] of a 5 by 5 grid, every other
    cell dead. *)
Definition corner_pair (live : Z) (w t : bool) : Model :=
  mkModel 5 5 live w t
          [[live; 0; 0; 0; 0]; [0; 0; 0; 0; 0]; [0; 0; 0; 0; 0];
           [0; 0; 0; 0; 0]; [0; 0; 0; 0; live]] 2 25.

(** A lone live cell with trace on and [live_state = 4]. *)
Definition lone_cell : Model :=
  mkModel 3 3 4 false true [[0; 0; 0]; [0; 4; 0]; [0; 0; 0]] 1 9.

(** The 4 by 4 grid with only [(3, 3)] alive. *)
Definition corner_cell (live : Z) (w t : bool) : Model :=
  mkModel 4 4 live w t
          [[0; 0; 0; 0]; [0; 0; 0; 0]; [0; 0; 0; 0]; [0; 0; 0; live]] 1 16.

(** ** Further descriptions of the states *)

(** No cell holds a trace value: each one is dead or alive. *)
Definition no_fading (m : Model) : Prop :=
  Forall (Forall (λ v, v = 0 ∨ v = live_state m)) (cell_states m).

(** The number of heads among the first [k] results of [getrandbits(1)]. *)
Definition heads (bits : nat → bool) (k : nat) : Z :=
  sumZ (λ i, Z.b2z (bits i)) (seq 0 k).

(** Two models of the same dimensions have the same cells alive. *)
Definition same_live (m1 m2 : Model) : Prop :=
  ∀ row col, 0 ≤ row < num_rows m1 → 0 ≤ col < num_cols m1 →
    get2 (cell_states m1) row col = Some (live_state m1)
    ↔ get2 (cell_states m2) row col = Some (live_state m2).

(** How many of [x - 1], [x] and [x + 1] lie in [[0, n)], for [x] in
    [[0, n)]. *)
Definition span (n x : Z) : Z := Z.min (x + 1) (n - 1) - Z.max (x - 1) 0 + 1.

(** The cell [(row, col)] belongs to the rectangle of the rows [r1 .. r2]
    and the columns [c1 .. c2]. *)
Definition in_rect (r1 r2 c1 c2 row col : Z) : bool :=
  bool_decide (r1 ≤ row ≤ r2) && bool_decide (c1 ≤ col ≤ c2).

(** The live cells of the model are those of the rectangle, and every
    other cell of the grid is dead. *)
Definition rect_alive (m : Model) (r1 r2 c1 c2 : Z) : Prop :=
  ∀ row col, 0 ≤ row < num_rows m → 0 ≤ col < num_cols m →
    get2 (cell_states m) row col
    = Some (if in_rect r1 r2 c1 c2 row col then live_state m else 0).

(** ** Further example grids *)

(** Two rows of three cells, one of them fading. *)
Definition sample : Model :=
  mkModel 2 3 4 false true [[4; 4; 0]; [4; 3; 4]] 4 6.

(** A block in the upper left corner of a 3 by 3 grid without wrap, and a
    blinker in the middle of one. *)
Definition corner_block : Model :=
  mkModel 3 3 4 false true [[4; 4; 0]; [4; 4; 0]; [0; 0; 0]] 4 9.

Definition middle_blinker : Model :=
  mkModel 3 3 4 false false [[0; 0; 0]; [4; 4; 4]; [0; 0; 0]] 3 9.

(** ** The drawing tool of the controller *)

(** One turn of the loop of [Controller._get_affected_pixels]; [rows],
    [cols] and [w] are the attributes [num_rows], [num_cols] and [wrap] of
    the controller. *)
Definition affected_pixel (rows cols : Z) (w : bool) (row col : Z)
    (d : Z * Z) (affected_pixels : list (Z * Z)) : option (list (Z * Z)) :=
  let '(d_row, d_col) := d in
  let new_row := row + d_row in
  let new_col := col + d_col in
  if in_bounds new_row rows && in_bounds new_col cols
  then Some (affected_pixels ++ [(new_row, new_col)])
  else if w then
    r ← Py.mod_ new_row rows;
    c ← Py.mod_ new_col cols;
    Some (affected_pixels ++ [(r, c)])
  else Some affected_pixels.

(** [Controller._get_affected_pixels] *)
Definition get_affected_pixels (rows cols : Z) (w : bool) (row col : Z)
    (figure : list (Z * Z)) : option (list (Z * Z)) :=
  Py.for_in figure (affected_pixel rows cols w row col) [].

(** Where the pixel at offset [d] of a figure goes, in the terms of the
    neighbor counter: each axis resolved on its own. *)
Definition placed (rows cols : Z) (w : bool) (row col : Z) (d : Z * Z)
  : option (Z * Z) :=
  r ← resolve w rows (row + d.1); c ← resolve w cols (col + d.2); Some (r, c).

(** ** The controller

    The attributes of [Controller] that decide what it asks of the model,
    and its event handlers as functions on them.  The calls into the view
    and the widgets, which repaint and write none of these attributes, are
    left out, as are the colors, the grid lines and the frame rate. *)

(** [a // b] on integers: the quotient rounded down; [b = 0] raises
    [ZeroDivisionError]. *)
Definition floordiv (a b : Z) : option Z :=
  if bool_decide (b = 0) then None else Some (a / b).

(** [l.index(x)]: the first position that holds [x]; [ValueError] when
    there is none. *)
Fixpoint list_index (l : list string) (x : string) : option Z :=
  match l with
  | [] => None
  | y :: l' => if decide (y = x) then Some 0 else Z.succ <$> list_index l' x
  end.

(** [d[key]] for a dict given as the list of its items, in insertion
    order; [KeyError] when the key is missing. *)
Fixpoint dict_getitem {A} (d : list (string * A)) (key : string) : option A :=
  match d with
  | [] => None
  | (k, v) :: d' => if decide (k = key) then Some v else dict_getitem d' key
  end.

(** [list(d)]: the keys, in insertion order. *)
Definition dict_keys {A} (d : list (string * A)) : list string := d.*1.

Module Controller.

Record t := mk {
  running : bool;
  wrap : bool;
  canvas_width : Z;
  canvas_height : Z;
  cell_size : Z;
  trace : bool;
  shapes : list (string * list (Z * Z));
  shape : string;
  num_rows : Z;
  num_cols : Z;
  previous_cell : option (Z * Z);
  highlighted_cells : list (Z * Z);
  generation : Z;
  model : Model
}.

Definition with_model (c : t) (gen : Z) (m : Model) : t :=
  mk (running c) (wrap c) (canvas_width c) (canvas_height c) (cell_size c)
     (trace c) (shapes c) (shape c) (num_rows c) (num_cols c)
     (previous_cell c) (highlighted_cells c) gen m.

Definition with_hover (c : t) (previous : option (Z * Z))
    (cells : list (Z * Z)) : t :=
  mk (running c) (wrap c) (canvas_width c) (canvas_height c) (cell_size c)
     (trace c) (shapes c) (shape c) (num_rows c) (num_cols c)
     previous cells (generation c) (model c).

Definition with_shape (c : t) (s : string) : t :=
  mk (running c) (wrap c) (canvas_width c) (canvas_height c) (cell_size c)
     (trace c) (shapes c) s (num_rows c) (num_cols c)
     (previous_cell c) (highlighted_cells c) (generation c) (model c).

Definition with_grid (c : t) (width height size rows cols : Z) (m : Model)
  : t :=
  mk (running c) (wrap c) width height size
     (trace c) (shapes c) (shape c) rows cols
     (previous_cell c) (highlighted_cells c) (generation c) m.

(** The figures of the drawing tool. *)
Definition default_shapes : list (string * list (Z * Z)) :=
  [("Cell", [(0, 0)]);
   ("Glider", [(2, 0); (2, 1); (2, 2); (1, 2); (0, 1)]);
   ("Glider gun",
    [(4, 0); (5, 0); (4, 1); (5, 1);
     (4, 10); (5, 10); (6, 10); (3, 11); (7, 11); (2, 12); (8, 12);
     (2, 13); (8, 13); (5, 14); (3, 15); (7, 15); (4, 16); (5, 16);
     (6, 16); (5, 17);
     (2, 20); (3, 20); (4, 20); (2, 21); (3, 21); (4, 21); (1, 22);
     (5, 22); (0, 24); (1, 24); (5, 24); (6, 24);
     (2, 34); (3, 34); (2, 35); (3, 35)]);
   ("Heart",
    [(0, 2); (0, 3); (1, 4); (0, 5); (0, 6); (1, 7); (2, 8); (3, 8);
     (4, 8); (5, 7); (6, 6); (7, 5); (8, 4); (7, 3); (6, 2); (5, 1);
     (4, 0); (3, 0); (2, 0); (1, 1)])].

(** [Controller.__init__]: the default settings; the call of [self.step()]
    that ends it finds [running] false and leaves the model alone. *)
Definition init : t :=
  mk false true 500 500 10 true default_shapes "Cell" (500 / 10) (500 / 10)
     None [] 0 (init (500 / 10) (500 / 10) 16 true true).


(** [Controller.step], up to the frame rate and the timer that calls it
    again. *)
Definition step (single_step : bool) (c : t) : option t :=
  if running c || single_step then
    m ← step (model c);
    Some (with_model c (generation c + 1) m)
  else Some c.

(** [Controller.clear] *)
Definition clear (c : t) : option t :=
  m ← clear (model c); Some (with_model c 0 m).

(** [Controller.randomize] *)
Definition randomize (bits : nat → bool) (c : t) : option t :=
  m ← randomize bits (model c); Some (with_model c 0 m).

(** The cell under the pointer and the cells the current figure covers
    there: the opening that [toggle_wrap], [_cycle_through_shapes] and
    the mouse handlers share.  [None] inside [Some] is a pointer outside
    the grid. *)
Definition pointed (c : t) (x y : Z)
  : option (option (Z * Z * list (Z * Z))) :=
  row ← floordiv y (cell_size c);
  col ← floordiv x (cell_size c);
  if in_bounds row (num_rows c) && in_bounds col (num_cols c) then
    figure ← dict_getitem (shapes c) (shape c);
    affected_cells ← get_affected_pixels (num_rows c) (num_cols c) (wrap c)
                       row col figure;
    Some (Some (row, col, affected_cells))
  else Some None.

(** [Controller.toggle_wrap]; [event] holds the pointer's [x] and [y] when
    the key binding calls it, and is [None] for the check button. *)
Definition toggle_wrap (event : option (Z * Z)) (c : t) : option t :=
  let c1 :=
    mk (running c) (negb (wrap c)) (canvas_width c) (canvas_height c)
       (cell_size c) (trace c) (shapes c) (shape c) (num_rows c) (num_cols c)
       (previous_cell c) (highlighted_cells c) (generation c)
       (toggle_wrap (model c)) in
  match event with
  | Some (x, y) =>
      p ← pointed c1 x y;
      match p with
      | Some (_, affected_cells) =>
          Some (with_hover c1 (previous_cell c1) affected_cells)
      | None => Some c1
      end
  | None => Some c1
  end.

(** [Controller.toggle_trace] *)
Definition toggle_trace (c : t) : option t :=
  m ← toggle_trace (model c);
  Some (mk (running c) (wrap c) (canvas_width c) (canvas_height c)
           (cell_size c) (negb (trace c)) (shapes c) (shape c)
           (num_rows c) (num_cols c) (previous_cell c) (highlighted_cells c)
           (generation c) m).


(** [Controller.adjust_grid_size]; [height] and [width] are those of the
    [<Configure>] event. *)
Definition adjust_grid_size (height width : Z) (c : t) : option t :=
  rows ← floordiv height (cell_size c);
  cols ← floordiv width (cell_size c);
  m ← adjust_grid_size rows cols (model c);
  Some (with_grid c width height (cell_size c) rows cols m).


(** The shape [_cycle_through_shapes] moves to. *)
Definition next_shape (delta : Z) (c : t) : option string :=
  let d := if bool_decide (delta > 0) then 1 else -1 in
  let keys := dict_keys (shapes c) in
  i ← list_index keys (shape c);
  j ← Py.mod_ (i + d) (Z.of_nat (length (shapes c)));
  Py.getitem keys j.





End Controller.

(** What the window system sends the controller. *)
Inductive event : Type :=
  | ToggleRunning
  | Timer
  | SingleStep
  | ClearGrid
  | RandomizeGrid (bits : nat → bool)
  | WrapToggled (pointer : option (Z * Z))
  | TraceToggled
  | CellSize (new_cell_size : Z)
  | Configure (height width : Z)
  | ShapeSelected (s : string)
  | MouseWheel (delta x y : Z)
  | Button (x y num : Z)
  | Motion (x y state : Z)
  | Leave.








(** ** Facts about the Python primitives *)

Section py_facts.
Context {A : Type}.
Implicit Types (l : list A) (i : Z) (k : nat).

Lemma index_lt l i k : Py.index l i = Some k → (k < length l)%nat.
Proof.
  unfold Py.index. repeat case_bool_decide; intros; simplify_eq; lia.
Qed.

Lemma index_nonneg l i :
  0 ≤ i →
  Py.index l i = if decide (Z.to_nat i < length l)%nat
                 then Some (Z.to_nat i) else None.
Proof.
  intros. unfold Py.index.
  repeat case_bool_decide; case_decide; try done; lia.
Qed.

Lemma getitem_nonneg l i : 0 ≤ i → Py.getitem l i = l !! Z.to_nat i.
Proof.
  intros. unfold Py.getitem. rewrite index_nonneg by done.
  case_decide; simpl; [done|]. symmetry. apply lookup_ge_None. lia.
Qed.

Lemma getitem_Some l i x :
  Py.getitem l i = Some x → ∃ k, Py.index l i = Some k ∧ l !! k = Some x.
Proof.
  unfold Py.getitem. destruct (Py.index l i) as [k|]; simpl; [|done]. eauto.
Qed.

Lemma setitem_Some l i x l' :
  Py.setitem l i x = Some l' →
  ∃ k, Py.index l i = Some k ∧ (k < length l)%nat ∧ l' = <[k:=x]> l.
Proof.
  unfold Py.setitem. destruct (Py.index l i) as [k|] eqn:E; simpl; [|done].
  intros; simplify_eq. eauto using index_lt.
Qed.

Lemma setitem_nonneg l i x :
  0 ≤ i → (Z.to_nat i < length l)%nat →
  Py.setitem l i x = Some (<[Z.to_nat i:=x]> l).
Proof.
  intros. unfold Py.setitem. rewrite index_nonneg by done.
  by case_decide.
Qed.

Lemma slice_to_nonneg l n : 0 ≤ n → Py.slice_to l n = take (Z.to_nat n) l.
Proof. intros. unfold Py.slice_to. by case_bool_decide. Qed.

Lemma length_times (x : A) n : length (Py.times x n) = Z.to_nat n.
Proof. apply length_replicate. Qed.
End py_facts.

Lemma index_length {A B} (l : list A) (l' : list B) i :
  length l = length l' → Py.index l i = Py.index l' i.
Proof. unfold Py.index. by intros ->. Qed.

Section for_in_facts.
Context {A St : Type}.
Implicit Types (xs : list A) (body : A → St → option St).

Lemma for_in_app xs ys body s :
  Py.for_in (xs ++ ys) body s = s' ← Py.for_in xs body s; Py.for_in ys body s'.
Proof.
  revert s. induction xs as [|x xs IH]; intros s; simpl; [done|].
  destruct (body x s); simpl; auto.
Qed.

Lemma for_in_fmap {B} (f : B → A) (ys : list B) body s :
  Py.for_in (f <$> ys) body s = Py.for_in ys (λ y, body (f y)) s.
Proof.
  revert s. induction ys as [|y ys IH]; intros s; simpl; [done|].
  destruct (body (f y) s); simpl; auto.
Qed.

Lemma for_in_ext xs body body' s :
  (∀ x s, x ∈ xs → body x s = body' x s) →
  Py.for_in xs body s = Py.for_in xs body' s.
Proof.
  revert s. induction xs as [|x xs IH]; intros s Hb; simpl; [done|].
  rewrite <-Hb by left. destruct (body x s); simpl; [|done].
  apply IH. intros; apply Hb. by right.
Qed.
End for_in_facts.

(** The loop rule for [for k in range(a, a + n)]: an invariant indexed by
    the next value of the loop variable. *)
Section loop_rules.
Context {St : Type}.
Implicit Types (body : Z → St → option St) (I : Z → St → Prop).

Lemma for_seqZ_rule I a n body s s' :
  I a s →
  (∀ k s1 s2, a ≤ k < a + n → I k s1 → body k s1 = Some s2 → I (k + 1) s2) →
  Py.for_in (seqZ a n) body s = Some s' →
  I (a + Z.max 0 n) s'.
Proof.
  destruct (decide (n ≤ 0)) as [|Hn].
  { rewrite seqZ_nil by done. simpl. intros ? _ [= <-].
    by replace (a + Z.max 0 n) with a by lia. }
  rewrite <-(Z2Nat.id n) by lia. generalize (Z.to_nat n) as len. clear Hn.
  intros len. revert a s. induction len as [|len IH]; intros a s H0 Hstep.
  { simpl. intros [= <-]. by replace (a + Z.max 0 (Z.of_nat 0)) with a by lia. }
  rewrite seqZ_cons by lia. simpl.
  destruct (body a s) as [s1|] eqn:Hb; simpl; [|done].
  replace (Z.pred (Z.of_nat (S len))) with (Z.of_nat len) by lia. intros Hrest.
  replace (a + Z.max 0 (Z.of_nat (S len))) with (Z.succ a + Z.max 0 (Z.of_nat len)) by lia.
  apply (IH _ s1); [| |done].
  - replace (Z.succ a) with (a + 1) by lia. eapply (Hstep a s); [lia|done..].
  - intros k s2 s3 ?. apply Hstep. lia.
Qed.

Lemma for_seqZ_total I a n body s :
  I a s →
  (∀ k s1, a ≤ k < a + n → I k s1 → ∃ s2, body k s1 = Some s2 ∧ I (k + 1) s2) →
  ∃ s', Py.for_in (seqZ a n) body s = Some s' ∧ I (a + Z.max 0 n) s'.
Proof.
  destruct (decide (n ≤ 0)) as [|Hn].
  { rewrite seqZ_nil by done. simpl. intros ? _. exists s.
    by replace (a + Z.max 0 n) with a by lia. }
  rewrite <-(Z2Nat.id n) by lia. generalize (Z.to_nat n) as len. clear Hn.
  intros len. revert a s. induction len as [|len IH]; intros a s H0 Hstep.
  { simpl. exists s. by replace (a + Z.max 0 (Z.of_nat 0)) with a by lia. }
  rewrite seqZ_cons by lia. simpl.
  destruct (Hstep a s) as (s1 & -> & H1); [lia|done|]. simpl.
  replace (Z.pred (Z.of_nat (S len))) with (Z.of_nat len) by lia.
  replace (a + Z.max 0 (Z.of_nat (S len))) with (Z.succ a + Z.max 0 (Z.of_nat len)) by lia.
  apply IH.
  - by replace (Z.succ a) with (a + 1) by lia.
  - intros k s2 ?. apply Hstep. lia.
Qed.

Lemma for_range_rule I n body s s' :
  I 0 s →
  (∀ k s1 s2, 0 ≤ k < n → I k s1 → body k s1 = Some s2 → I (k + 1) s2) →
  Py.for_in (Py.range n) body s = Some s' →
  I (Z.max 0 n) s'.
Proof. intros. by eapply (for_seqZ_rule I 0 n). Qed.

Lemma for_range_total I n body s :
  I 0 s →
  (∀ k s1, 0 ≤ k < n → I k s1 → ∃ s2, body k s1 = Some s2 ∧ I (k + 1) s2) →
  ∃ s', Py.for_in (Py.range n) body s = Some s' ∧ I (Z.max 0 n) s'.
Proof. intros. by eapply (for_seqZ_total I 0 n). Qed.
End loop_rules.

(** ** Grids: reading, writing and counting *)

Section sumZ.
Context {A : Type}.
Implicit Types (f : A → Z) (l : list A).

Lemma sumZ_app f l1 l2 : sumZ f (l1 ++ l2) = sumZ f l1 + sumZ f l2.
Proof. induction l1 as [|x l1 IH]; simpl; lia. Qed.

Lemma sumZ_ext f g l : (∀ x, x ∈ l → f x = g x) → sumZ f l = sumZ g l.
Proof.
  induction l as [|x l IH]; intros H; simpl; [done|].
  rewrite H by left. rewrite IH; [done|]. intros; apply H. by right.
Qed.

Lemma sumZ_zero f l : (∀ x, x ∈ l → f x = 0) → sumZ f l = 0.
Proof.
  induction l as [|x l IH]; intros H; simpl; [done|].
  rewrite H by left. rewrite IH; [done|]. intros; apply H. by right.
Qed.

Lemma sumZ_fmap {B} (h : B → A) f (l : list B) :
  sumZ f (h <$> l) = sumZ (f ∘ h) l.
Proof.
  induction l as [|x l IH]; [done|].
  change (f (h x) + sumZ f (h <$> l) = f (h x) + sumZ (f ∘ h) l).
  by rewrite IH.
Qed.

Lemma sumZ_nonneg f l : (∀ x, x ∈ l → 0 ≤ f x) → 0 ≤ sumZ f l.
Proof.
  induction l as [|x l IH]; intros H; simpl; [done|].
  assert (0 ≤ f x) by (apply H; left).
  assert (0 ≤ sumZ f l) by (apply IH; intros; apply H; by right). lia.
Qed.
End sumZ.

Lemma range_snoc n : 0 ≤ n → Py.range (n + 1) = Py.range n ++ [n].
Proof.
  intros. unfold Py.range. rewrite seqZ_app by lia.
  by rewrite (seqZ_cons _ 1), (seqZ_nil _ (Z.pred 1)) by lia.
Qed.

Lemma elem_of_range k n : k ∈ Py.range n ↔ 0 ≤ k < n.
Proof. unfold Py.range. rewrite elem_of_seqZ. lia. Qed.

Lemma range_max n : Py.range (Z.max 0 n) = Py.range n.
Proof.
  unfold Py.range. destruct (decide (0 ≤ n)).
  - by rewrite Z.max_r by done.
  - rewrite Z.max_l by lia. by rewrite !seqZ_nil by lia.
Qed.

Lemma range_cons n : 0 < n → Py.range n = 0 :: (Z.succ <$> Py.range (n - 1)).
Proof.
  intros. unfold Py.range. rewrite seqZ_cons by lia.
  f_equal. rewrite (list_fmap_ext Z.succ (Z.add 1)) by (intros; lia).
  rewrite fmap_add_seqZ. f_equal; lia.
Qed.

Section live_facts.
Implicit Types (g : grid) (row : list Z) (live v : Z).

Lemma live_in_row_sum live row :
  live_in_row live row = sumZ (is_live live) row.
Proof.
  unfold live_in_row, is_live.
  induction row as [|v row IH]; simpl; [done|].
  rewrite filter_cons. case_bool_decide; case_decide; try done; simpl; lia.
Qed.

Lemma live_cells_sum live g :
  live_cells live g = sumZ (live_in_row live) g.
Proof.
  unfold live_cells, live_in_row.
  induction g as [|row g IH]; simpl; [done|].
  rewrite filter_app, length_app. lia.
Qed.

Lemma live_cells_app live g1 g2 :
  live_cells live (g1 ++ g2) = live_cells live g1 + live_cells live g2.
Proof. rewrite !live_cells_sum. apply sumZ_app. Qed.

Lemma live_in_row_app live r1 r2 :
  live_in_row live (r1 ++ r2) = live_in_row live r1 + live_in_row live r2.
Proof. rewrite !live_in_row_sum. apply sumZ_app. Qed.

Lemma live_cells_cons live row g :
  live_cells live (row :: g) = live_in_row live row + live_cells live g.
Proof. by rewrite !live_cells_sum. Qed.

Lemma live_in_row_cons live v row :
  live_in_row live (v :: row) = is_live live v + live_in_row live row.
Proof. by rewrite !live_in_row_sum. Qed.

Lemma live_in_row_nonneg live row : 0 ≤ live_in_row live row.
Proof. unfold live_in_row. lia. Qed.

Lemma live_in_row_none live row :
  Forall (λ v, v ≠ live) row → live_in_row live row = 0.
Proof.
  intros H. rewrite live_in_row_sum. apply sumZ_zero.
  intros v Hv. rewrite Forall_forall in H. unfold is_live.
  rewrite bool_decide_false; [done|]. by apply H.
Qed.

Lemma live_cells_none live g :
  Forall (Forall (λ v, v ≠ live)) g → live_cells live g = 0.
Proof.
  intros H. rewrite live_cells_sum. apply sumZ_zero.
  intros row Hrow. rewrite Forall_forall in H.
  apply live_in_row_none. by apply H.
Qed.

(** Replacing one cell of a row, and one row of a grid. *)
Lemma live_in_row_insert live row j u v :
  row !! j = Some u →
  live_in_row live (<[j:=v]> row)
  = live_in_row live row - is_live live u + is_live live v.
Proof.
  intros Hj. assert (j < length row)%nat by by eapply lookup_lt_Some.
  rewrite insert_take_drop by done.
  rewrite <-(take_drop_middle row j u) at 3 by done.
  rewrite !live_in_row_app, !live_in_row_cons. lia.
Qed.

Lemma live_cells_insert live g i row row' :
  g !! i = Some row →
  live_cells live (<[i:=row']> g)
  = live_cells live g - live_in_row live row + live_in_row live row'.
Proof.
  intros Hi. assert (i < length g)%nat by by eapply lookup_lt_Some.
  rewrite insert_take_drop by done.
  rewrite <-(take_drop_middle g i row) at 3 by done.
  rewrite !live_cells_app, !live_cells_cons. lia.
Qed.
End live_facts.

Section grid_facts.
Implicit Types (g : grid) (row : list Z) (r c v u : Z) (i j : nat).

Lemma get2_Some g r c u :
  get2 g r c = Some u ↔
  ∃ i j row, Py.index g r = Some i ∧ g !! i = Some row
             ∧ Py.index row c = Some j ∧ row !! j = Some u.
Proof.
  unfold get2, Py.getitem. split.
  - destruct (Py.index g r) as [i|]; simpl; [|done].
    destruct (g !! i) as [row|] eqn:?; simpl; [|done].
    destruct (Py.index row c) as [j|] eqn:?; simpl; [|done].
    intros. by exists i, j, row.
  - intros (i & j & row & -> & Hi & Hj & Hu). simpl. rewrite Hi. simpl.
    by rewrite Hj.
Qed.

Lemma set2_Some g r c v g' :
  set2 g r c v = Some g' ↔
  ∃ i j row u, Py.index g r = Some i ∧ g !! i = Some row
               ∧ Py.index row c = Some j ∧ row !! j = Some u
               ∧ g' = <[i:=<[j:=v]> row]> g.
Proof.
  unfold set2, Py.getitem, Py.setitem. split.
  - destruct (Py.index g r) as [i|] eqn:Hr; simpl; [|done].
    destruct (g !! i) as [row|] eqn:Hi; simpl; [|done].
    destruct (Py.index row c) as [j|] eqn:Hc; simpl; [|done].
    intros [= <-].
    destruct (lookup_lt_is_Some_2 row j) as [u Hu];
      [by eapply index_lt|].
    by exists i, j, row, u.
  - intros (i & j & row & u & -> & Hi & Hj & Hu & ->). simpl. rewrite Hi.
    simpl. by rewrite Hj.
Qed.

Lemma set2_is_Some g r c v : is_Some (set2 g r c v) ↔ is_Some (get2 g r c).
Proof.
  split.
  - intros [g' (i & j & row & u & ? & ? & ? & ? & _)%set2_Some]. exists u.
    apply get2_Some. by exists i, j, row.
  - intros [u (i & j & row & ? & ? & ? & ?)%get2_Some].
    exists (<[i:=<[j:=v]> row]> g). apply set2_Some. by exists i, j, row, u.
Qed.

Lemma get2_nonneg g r c :
  0 ≤ r → 0 ≤ c → get2 g r c = cell g (Z.to_nat r) (Z.to_nat c).
Proof.
  intros. unfold get2, cell. rewrite getitem_nonneg by done.
  destruct (g !! Z.to_nat r); simpl; [|done]. by apply getitem_nonneg.
Qed.

Lemma get2_of_nat g i j : get2 g (Z.of_nat i) (Z.of_nat j) = cell g i j.
Proof. rewrite get2_nonneg by lia. by rewrite !Nat2Z.id. Qed.

Lemma set2_dims g r c v g' : set2 g r c v = Some g' → dims g' = dims g.
Proof.
  intros (i & j & row & u & _ & Hi & _ & _ & ->)%set2_Some. unfold dims.
  rewrite list_fmap_insert, length_insert.
  apply list_insert_id. by rewrite list_lookup_fmap, Hi.
Qed.

Lemma dims_length g g' : dims g = dims g' → length g = length g'.
Proof.
  unfold dims. intros Hd.
  by rewrite <-(length_fmap length g), Hd, length_fmap.
Qed.

Lemma dims_lookup g g' i row :
  dims g = dims g' → g !! i = Some row →
  ∃ row', g' !! i = Some row' ∧ length row' = length row.
Proof.
  unfold dims. intros Hd Hi.
  assert ((length <$> g') !! i = Some (length row)) as Hi'
    by by rewrite <-Hd, list_lookup_fmap, Hi.
  rewrite list_lookup_fmap in Hi'.
  destruct (g' !! i) as [row'|]; simplify_eq/=. eauto.
Qed.

Lemma get2_is_Some_dims g g' r c :
  dims g = dims g' → is_Some (get2 g r c) → is_Some (get2 g' r c).
Proof.
  intros Hd [u (i & j & row & Hr & Hi & Hc & Hu)%get2_Some].
  destruct (dims_lookup g g' i row Hd Hi) as (row' & Hi' & Hlen).
  destruct (lookup_lt_is_Some_2 row' j) as [u' Hu'].
  { rewrite Hlen. by eapply lookup_lt_Some. }
  exists u'. apply get2_Some. exists i, j, row'. split_and!; try done.
  - rewrite <-Hr. apply index_length. symmetry. by apply dims_length.
  - rewrite <-Hc. by apply index_length.
Qed.

(** Reading after a write, at subscripts that are not negative. *)
Lemma cell_set2 g r c v g' i j :
  set2 g r c v = Some g' → 0 ≤ r → 0 ≤ c →
  cell g' i j = if decide (i = Z.to_nat r ∧ j = Z.to_nat c)
                then Some v else cell g i j.
Proof.
  intros (i0 & j0 & row & u & Hr & Hi & Hc & Hu & ->)%set2_Some ??.
  rewrite index_nonneg in Hr by done. rewrite index_nonneg in Hc by done.
  repeat case_decide; simplify_eq/=; unfold cell.
  - destruct_and!; subst.
    rewrite list_lookup_insert_eq by done. simpl.
    by rewrite list_lookup_insert_eq.
  - destruct (decide (i = Z.to_nat r)) as [->|].
    + rewrite list_lookup_insert_eq by done. rewrite Hi. simpl.
      rewrite list_lookup_insert_ne; [done|naive_solver].
    + by rewrite list_lookup_insert_ne.
Qed.

Lemma get2_set2 g r c v g' r' c' :
  set2 g r c v = Some g' → 0 ≤ r → 0 ≤ c → 0 ≤ r' → 0 ≤ c' →
  get2 g' r' c' = if decide (r' = r ∧ c' = c) then Some v else get2 g r' c'.
Proof.
  intros Hset ????. rewrite !get2_nonneg by done.
  rewrite (cell_set2 _ _ _ _ _ _ _ Hset) by done.
  repeat case_decide; try done; destruct_and?; exfalso; naive_solver lia.
Qed.

Lemma live_cells_set2 live g r c v g' :
  set2 g r c v = Some g' →
  ∃ u, get2 g r c = Some u
       ∧ live_cells live g'
         = live_cells live g - is_live live u + is_live live v.
Proof.
  intros (i & j & row & u & Hr & Hi & Hc & Hu & ->)%set2_Some.
  exists u. split; [apply get2_Some; naive_solver|].
  rewrite (live_cells_insert _ _ _ row) by done.
  rewrite (live_in_row_insert _ _ _ u) by done. lia.
Qed.

Lemma Forall_cells (P : Z → Prop) g :
  Forall (Forall P) g ↔ ∀ i j v, cell g i j = Some v → P v.
Proof.
  unfold cell. rewrite Forall_lookup. split.
  - intros H i j v Hv. destruct (g !! i) as [row|] eqn:Hi; simplify_eq/=.
    specialize (H i row Hi). rewrite Forall_lookup in H. eauto.
  - intros H i row Hi. apply Forall_lookup. intros j v Hj.
    apply (H i j). by rewrite Hi.
Qed.

Lemma Forall_cells_impl (P Q : Z → Prop) g :
  Forall (Forall P) g → (∀ v, P v → Q v) → Forall (Forall Q) g.
Proof.
  intros Hg HPQ. eapply Forall_impl; [done|]. simpl.
  intros row Hrow. by eapply Forall_impl.
Qed.

Lemma set2_Forall (P : Z → Prop) g r c v g' :
  set2 g r c v = Some g' → Forall (Forall P) g → P v →
  Forall (Forall P) g'.
Proof.
  intros (i & j & row & u & Hr & Hi & Hc & Hu & ->)%set2_Some Hg Hv.
  apply Forall_insert; [done|]. apply Forall_insert; [|done].
  rewrite Forall_lookup in Hg. eauto.
Qed.
End grid_facts.

(** Counting by subscript: the live cells of a grid are those found by
    reading the first [rows] rows and [cols] columns, provided no cell
    outside that rectangle is live. *)
Lemma sum_by_index {A} (f : A → Z) (l : list A) (n : Z) :
  (∀ j x, l !! j = Some x → n ≤ Z.of_nat j → f x = 0) →
  sumZ f l = sumZ (λ k, from_option f 0 (l !! Z.to_nat k)) (Py.range n).
Proof.
  revert n. induction l as [|x l IH]; intros n Hout.
  { symmetry. by apply sumZ_zero. }
  destruct (decide (n ≤ 0)) as [|Hn].
  - unfold Py.range. rewrite seqZ_nil by done. apply sumZ_zero.
    intros y [j Hj]%list_elem_of_lookup. apply (Hout j); [done|lia].
  - rewrite range_cons by lia. simpl. f_equal.
    rewrite sumZ_fmap, (IH (n - 1)).
    + apply sumZ_ext. intros k [??]%elem_of_range. simpl.
      by replace (Z.to_nat (Z.succ k)) with (S (Z.to_nat k)) by lia.
    + intros j y Hj ?. apply (Hout (S j)); [done|lia].
Qed.

Lemma live_in_row_index live (row : list Z) cols :
  (∀ j v, row !! j = Some v → cols ≤ Z.of_nat j → v ≠ live) →
  live_in_row live row
  = sumZ (λ c, from_option (is_live live) 0 (row !! Z.to_nat c)) (Py.range cols).
Proof.
  intros Hout. rewrite live_in_row_sum. apply sum_by_index.
  intros j v Hj ?. unfold is_live. rewrite bool_decide_false; [done|]. eauto.
Qed.

Lemma live_cells_index live (g : grid) rows cols :
  (∀ i j v, cell g i j = Some v →
            rows ≤ Z.of_nat i ∨ cols ≤ Z.of_nat j → v ≠ live) →
  live_cells live g
  = sumZ (λ r, sumZ (live_at live g r) (Py.range cols)) (Py.range rows).
Proof.
  intros Hout. rewrite live_cells_sum, (sum_by_index _ _ rows).
  - apply sumZ_ext. intros r [??]%elem_of_range.
    destruct (g !! Z.to_nat r) as [row|] eqn:Hr; simpl.
    + rewrite (live_in_row_index _ _ cols).
      * apply sumZ_ext. intros c [??]%elem_of_range. unfold live_at.
        rewrite get2_nonneg by done. unfold cell. by rewrite Hr.
      * intros j v Hj ?. apply (Hout (Z.to_nat r) j); [|by right].
        unfold cell. by rewrite Hr.
    + symmetry. apply sumZ_zero. intros c [??]%elem_of_range.
      unfold live_at. rewrite get2_nonneg by done. unfold cell.
      by rewrite Hr.
  - intros i row Hi ?. apply live_in_row_none, Forall_lookup.
    intros j v Hj. apply (Hout i j); [|by left]. unfold cell. by rewrite Hi.
Qed.

(** The loop rules for the two nested loops over the cells: the invariant
    is indexed by the cell the loops are about to visit. *)
Section cell_loops.
Context {St : Type}.
Implicit Types (body : Z → Z → St → option St) (I : Z → Z → St → Prop).

Lemma for_cells_rule I rows cols body s s' :
  I 0 0 s →
  (∀ r c s1 s2, 0 ≤ r < rows → 0 ≤ c < cols →
                I r c s1 → body r c s1 = Some s2 → I r (c + 1) s2) →
  (∀ r s1, 0 ≤ r < rows → I r (Z.max 0 cols) s1 → I (r + 1) 0 s1) →
  for_cells rows cols body s = Some s' →
  I (Z.max 0 rows) 0 s'.
Proof.
  intros H0 Hcell Hrow. unfold for_cells.
  apply (for_range_rule (λ r, I r 0)); [done|].
  intros r s1 s2 ? Hr Hinner. apply Hrow; [done|].
  revert Hinner. apply (for_range_rule (I r)); [done|].
  intros c s3 s4 ?. by apply Hcell.
Qed.

Lemma for_cells_total I rows cols body s :
  I 0 0 s →
  (∀ r c s1, 0 ≤ r < rows → 0 ≤ c < cols → I r c s1 →
             ∃ s2, body r c s1 = Some s2 ∧ I r (c + 1) s2) →
  (∀ r s1, 0 ≤ r < rows → I r (Z.max 0 cols) s1 → I (r + 1) 0 s1) →
  ∃ s', for_cells rows cols body s = Some s' ∧ I (Z.max 0 rows) 0 s'.
Proof.
  intros H0 Hcell Hrow. unfold for_cells.
  apply (for_range_total (λ r, I r 0)); [done|].
  intros r s1 ? Hr.
  destruct (for_range_total (I r) cols (body r) s1) as (s2 & ? & ?);
    [done|by intros; apply Hcell|]. eauto.
Qed.
End cell_loops.

(** ** The loops that write one cell per turn *)

Section local_writes.
Context {St : Type} (gr : St → grid).
Implicit Types (body : Z → Z → St → option St) (s : St).

Lemma visited_start rows cols body s0 : visited gr rows cols body s0 0 0 s0.
Proof.
  split_and!; [done|done|]. intros r c ?? Hb. unfold before in Hb. lia.
Qed.

Lemma visited_cell rows cols body s0 r c s1 s2 :
  local_write gr rows cols body →
  0 ≤ r < rows → 0 ≤ c < cols →
  visited gr rows cols body s0 r c s1 → body r c s1 = Some s2 →
  visited gr rows cols body s0 r (c + 1) s2.
Proof.
  intros Hloc ?? (Hd & Hframe & Hdone) Hb.
  destruct (Hloc r c s1 s2) as [Hd' Hother]; [done..|].
  split_and!.
  - congruence.
  - intros r1 c1 ?? Hnot. rewrite Hother; [|done..|].
    + apply Hframe; [done..|]. unfold before in *. lia.
    + unfold before in *. lia.
  - intros r1 c1 ?? Hbef.
    destruct (decide (r1 = r ∧ c1 = c)) as [[-> ->]|Hne].
    + exists s1, s2. split_and!; [done..| |done].
      apply Hframe; [lia..|]. unfold before. lia.
    + destruct (Hdone r1 c1) as (s3 & s4 & ? & ? & ? & Hfin); [done..| |].
      { unfold before in *. lia. }
      exists s3, s4. split_and!; [done..|].
      rewrite Hother; [done|lia..|done].
Qed.

Lemma visited_row rows cols body s0 r s :
  visited gr rows cols body s0 r (Z.max 0 cols) s →
  visited gr rows cols body s0 (r + 1) 0 s.
Proof.
  intros (Hd & Hframe & Hdone). split_and!; [done|..].
  - intros r1 c1 ?? Hnot. apply Hframe; [done..|]. unfold before in *. lia.
  - intros r1 c1 ?? Hbef. apply Hdone; [done..|]. unfold before in *. lia.
Qed.

Lemma for_cells_visited rows cols body s0 s' :
  local_write gr rows cols body →
  for_cells rows cols body s0 = Some s' →
  visited gr rows cols body s0 (Z.max 0 rows) 0 s'.
Proof.
  intros Hloc. apply (for_cells_rule (visited gr rows cols body s0)).
  - apply visited_start.
  - intros. by eapply visited_cell.
  - intros. by apply visited_row.
Qed.

(** What a finished pair of loops leaves behind. *)
Lemma for_cells_dims rows cols body s0 s' :
  local_write gr rows cols body →
  for_cells rows cols body s0 = Some s' → dims (gr s') = dims (gr s0).
Proof. intros Hloc Hrun. by destruct (for_cells_visited _ _ _ _ _ Hloc Hrun). Qed.

Lemma for_cells_frame rows cols body s0 s' r c :
  local_write gr rows cols body →
  for_cells rows cols body s0 = Some s' →
  0 ≤ r → 0 ≤ c → ¬ (r < rows ∧ c < cols) →
  get2 (gr s') r c = get2 (gr s0) r c.
Proof.
  intros Hloc Hrun ???.
  destruct (for_cells_visited _ _ _ _ _ Hloc Hrun) as (_ & Hframe & _).
  apply Hframe; [done..|]. lia.
Qed.

Lemma for_cells_cell rows cols body s0 s' r c :
  local_write gr rows cols body →
  for_cells rows cols body s0 = Some s' →
  0 ≤ r < rows → 0 ≤ c < cols →
  ∃ s1 s2, body r c s1 = Some s2
           ∧ dims (gr s1) = dims (gr s0)
           ∧ get2 (gr s1) r c = get2 (gr s0) r c
           ∧ get2 (gr s') r c = get2 (gr s2) r c.
Proof.
  intros Hloc Hrun ??.
  destruct (for_cells_visited _ _ _ _ _ Hloc Hrun) as (_ & _ & Hdone).
  apply Hdone; [done..|]. unfold before. lia.
Qed.

(** The loops do not raise when each turn succeeds on every grid of the
    dimensions of the initial one. *)
Lemma for_cells_is_Some rows cols body s0 :
  local_write gr rows cols body →
  (∀ r c s, 0 ≤ r < rows → 0 ≤ c < cols → dims (gr s) = dims (gr s0) →
            is_Some (body r c s)) →
  is_Some (for_cells rows cols body s0).
Proof.
  intros Hloc Hok.
  destruct (for_cells_total (λ _ _ s, dims (gr s) = dims (gr s0))
              rows cols body s0) as (s' & -> & _); [done| |done|done].
  intros r c s1 ?? Hd. destruct (Hok r c s1) as [s2 Hs2]; [done..|].
  exists s2. split; [done|].
  destruct (Hloc r c s1 s2) as [-> _]; done.
Qed.

(** A counter that each turn advances by the liveness of the visited
    cell ends as the number of live cells met. *)
Lemma for_cells_count live (pop : St → Z) rows cols body s0 s' :
  local_write gr rows cols body →
  (∀ r c s1 s2, 0 ≤ r < rows → 0 ≤ c < cols →
                get2 (gr s1) r c = get2 (gr s0) r c →
                body r c s1 = Some s2 →
                pop s2 = pop s1 + live_at live (gr s2) r c) →
  for_cells rows cols body s0 = Some s' →
  pop s'
  = pop s0 + sumZ (λ r, sumZ (live_at live (gr s') r) (Py.range cols))
                  (Py.range rows).
Proof.
  intros Hloc Hpop Hrun.
  rewrite <-(range_max rows), <-(Z.add_0_r (sumZ _ (Py.range (Z.max 0 rows)))).
  change 0 with (sumZ (live_at live (gr s') (Z.max 0 rows)) (Py.range 0)) at 2.
  rewrite Z.add_assoc.
  cut (visited gr rows cols body s0 (Z.max 0 rows) 0 s' ∧ 0 ≤ Z.max 0 rows ∧ 0 ≤ 0 ∧
    pop s' = pop s0
            + sumZ (λ r, sumZ (live_at live (gr s') r) (Py.range cols))
                   (Py.range (Z.max 0 rows))
            + sumZ (live_at live (gr s') (Z.max 0 rows)) (Py.range 0));
    [by intros (_ & _ & _ & ?)|].
  revert Hrun.
  apply (for_cells_rule (λ r c s, visited gr rows cols body s0 r c s ∧
    0 ≤ r ∧ 0 ≤ c ∧
    pop s = pop s0
            + sumZ (λ r, sumZ (live_at live (gr s) r) (Py.range cols))
                   (Py.range r)
            + sumZ (live_at live (gr s) r) (Py.range c))).
  - split; [apply visited_start|]. simpl. lia.
  - intros r c s1 s2 ?? (Hvis & _ & _ & Hs1) Hb.
    destruct (Hloc r c s1 s2) as [_ Hother]; [done..|].
    split; [by eapply visited_cell|].
    split_and!; [lia..|].
    assert (sumZ (λ r0, sumZ (live_at live (gr s2) r0) (Py.range cols))
                 (Py.range r)
            = sumZ (λ r0, sumZ (live_at live (gr s1) r0) (Py.range cols))
                   (Py.range r)) as ->.
    { apply sumZ_ext. intros r1 [??]%elem_of_range. apply sumZ_ext.
      intros c1 [??]%elem_of_range. unfold live_at.
      rewrite Hother; [done|lia..]. }
    rewrite range_snoc, sumZ_app by lia.
    assert (sumZ (live_at live (gr s2) r) (Py.range c)
            = sumZ (live_at live (gr s1) r) (Py.range c)) as ->.
    { apply sumZ_ext. intros c1 [??]%elem_of_range. unfold live_at.
      rewrite Hother; [done|lia..]. }
    rewrite (Hpop r c s1 s2), Hs1; [simpl; lia|done..| |done].
    destruct Hvis as (_ & Hframe & _). apply Hframe; [lia..|].
    unfold before. lia.
  - intros r s1 ? (Hvis & _ & _ & Hs1). split; [by apply visited_row|].
    split_and!; [lia..|].
    rewrite Hs1, range_snoc, sumZ_app, range_max by lia. simpl. lia.
Qed.
End local_writes.

(** ** The operations keep the state consistent *)

Lemma set2_local (g : grid) r c v g' :
  set2 g r c v = Some g' → 0 ≤ r → 0 ≤ c →
  dims g' = dims g
  ∧ ∀ r' c', 0 ≤ r' → 0 ≤ c' → ¬ (r' = r ∧ c' = c) →
             get2 g' r' c' = get2 g r' c'.
Proof.
  intros Hset ??. split; [by eapply set2_dims|].
  intros r' c' ?? Hne. rewrite (get2_set2 _ _ _ _ _ _ _ Hset) by done.
  by case_decide.
Qed.

Lemma set2_get2 (g : grid) r c v g' :
  set2 g r c v = Some g' → 0 ≤ r → 0 ≤ c → get2 g' r c = Some v.
Proof.
  intros Hset ??. rewrite (get2_set2 _ _ _ _ _ _ _ Hset) by done.
  by case_decide; [|naive_solver].
Qed.

Lemma hidden_dead_get2 rows cols (g : grid) :
  hidden_dead rows cols g ↔
  ∀ r c v, 0 ≤ r → 0 ≤ c → get2 g r c = Some v → rows ≤ r ∨ cols ≤ c → v = 0.
Proof.
  unfold hidden_dead. split.
  - intros H r c v ?? Hv ?. rewrite get2_nonneg in Hv by done.
    apply (H _ _ _ Hv). rewrite !Z2Nat.id by done. done.
  - intros H i j v Hv ?. rewrite <-get2_of_nat in Hv.
    apply (H (Z.of_nat i) (Z.of_nat j)); [lia|lia|done|done].
Qed.

Lemma Forall_get2 (P : Z → Prop) (g : grid) :
  Forall (Forall P) g ↔ ∀ r c v, 0 ≤ r → 0 ≤ c → get2 g r c = Some v → P v.
Proof.
  rewrite Forall_cells. split.
  - intros H r c v ?? Hv. rewrite get2_nonneg in Hv by done. eauto.
  - intros H i j v Hv. rewrite <-get2_of_nat in Hv.
    apply (H (Z.of_nat i) (Z.of_nat j)); [lia|lia|done].
Qed.

(** In a grid of [rows] rows of [cols] cells the valid subscripts that
    are not negative are those of the rectangle. *)
Lemma shape_get2 (g : grid) (rows cols : nat) r c :
  dims g = replicate rows cols → 0 ≤ r → 0 ≤ c →
  is_Some (get2 g r c) ↔ r < Z.of_nat rows ∧ c < Z.of_nat cols.
Proof.
  intros Hd ??. rewrite get2_nonneg by done. unfold cell, dims in *.
  assert (∀ i, length <$> g !! i = replicate rows cols !! i) as Hi
    by (intros i; by rewrite <-Hd, list_lookup_fmap).
  specialize (Hi (Z.to_nat r)). split.
  - intros [v Hv]. destruct (g !! Z.to_nat r) as [row|]; simplify_eq/=.
    symmetry in Hi. apply lookup_replicate in Hi as [<- ?].
    apply lookup_lt_Some in Hv. lia.
  - intros [??]. rewrite lookup_replicate_2 in Hi by lia.
    destruct (g !! Z.to_nat r) as [row|]; simplify_eq/=.
    apply lookup_lt_is_Some_2. lia.
Qed.

Lemma dead_grid_eq rows cols :
  dead_grid rows cols
  = replicate (Z.to_nat rows) (replicate (Z.to_nat cols) 0).
Proof.
  unfold dead_grid, Py.range, Py.times.
  rewrite (const_fmap _ _ (replicate (Z.to_nat cols) 0)) by done.
  by rewrite length_seqZ.
Qed.

Lemma dims_dead_grid rows cols :
  dims (dead_grid rows cols) = replicate (Z.to_nat rows) (Z.to_nat cols).
Proof.
  rewrite dead_grid_eq. unfold dims. rewrite fmap_replicate.
  by rewrite length_replicate.
Qed.

Lemma cell_dead_grid rows cols i j v :
  cell (dead_grid rows cols) i j = Some v → v = 0.
Proof.
  rewrite dead_grid_eq. unfold cell. intros Hv.
  destruct (replicate _ _ !! i) as [row|] eqn:Hi; simplify_eq/=.
  apply lookup_replicate in Hi as [-> _].
  by apply lookup_replicate in Hv as [-> _].
Qed.

Lemma shape_ok_with_cells m cs pop :
  shape_ok m → dims cs = dims (cell_states m) → shape_ok (with_cells m cs pop).
Proof. unfold shape_ok. simpl. intros (? & ? & <-) ->. done. Qed.

Lemma shape_ok_get2 m r c :
  shape_ok m → 0 ≤ r < num_rows m → 0 ≤ c < num_cols m →
  is_Some (get2 (cell_states m) r c).
Proof.
  intros (? & ? & Hd) ??. eapply shape_get2; [done|lia..].
Qed.

Lemma shape_ok_visible m r c v :
  shape_ok m → 0 ≤ r → 0 ≤ c → get2 (cell_states m) r c = Some v →
  r < num_rows m ∧ c < num_cols m.
Proof.
  intros (? & ? & Hd) ?? Hv.
  destruct (shape_get2 _ _ _ r c Hd) as [Hin _]; [done..|].
  destruct Hin; [by eexists|lia].
Qed.

Lemma shape_ok_hidden m :
  shape_ok m → hidden_dead (num_rows m) (num_cols m) (cell_states m).
Proof.
  intros Hs. apply hidden_dead_get2. intros r c v ?? Hv ?.
  destruct (shape_ok_visible m r c v); [done..|lia].
Qed.

(** *** [clear] *)

Lemma clear_local rows cols :
  local_write id rows cols (λ row col cs, set2 cs row col 0).
Proof. intros r c s s' ?? Hb. apply (set2_local _ _ _ _ _ Hb); lia. Qed.

Lemma clear_Some m m' :
  clear m = Some m' →
  ∃ cs, m' = with_cells m cs 0
        ∧ dims cs = dims (cell_states m)
        ∧ (∀ r c, 0 ≤ r < num_rows m → 0 ≤ c < num_cols m →
                  get2 cs r c = Some 0)
        ∧ (∀ r c, 0 ≤ r → 0 ≤ c → ¬ (r < num_rows m ∧ c < num_cols m) →
                  get2 cs r c = get2 (cell_states m) r c).
Proof.
  unfold clear. intros Hrun.
  destruct (for_cells _ _ _ _) as [cs|] eqn:Hloop; simplify_eq/=.
  exists cs. split_and!; [done|..].
  - apply (for_cells_dims id _ _ _ _ _ (clear_local _ _) Hloop).
  - intros r c ??.
    destruct (for_cells_cell id _ _ _ _ _ r c (clear_local _ _) Hloop)
      as (s1 & s2 & Hb & _ & _ & Hfin); [done..|].
    unfold id in Hfin. rewrite Hfin. apply (set2_get2 _ _ _ _ _ Hb); lia.
  - intros r c ???.
    by apply (for_cells_frame id _ _ _ _ _ r c (clear_local _ _) Hloop).
Qed.

Lemma clear_all_dead m m' :
  hidden_dead (num_rows m) (num_cols m) (cell_states m) →
  clear m = Some m' → Forall (Forall (λ v, v = 0)) (cell_states m').
Proof.
  intros Hhid (cs & -> & _ & Hvis & Hframe)%clear_Some. simpl.
  apply Forall_get2. intros r c v ?? Hv.
  destruct (decide (r < num_rows m ∧ c < num_cols m)) as [[??]|Hout].
  - rewrite Hvis in Hv by lia. by simplify_eq.
  - rewrite Hframe in Hv by done.
    rewrite hidden_dead_get2 in Hhid. apply (Hhid r c v); [done..|lia].
Qed.

Lemma clear_consistent m m' :
  consistent m → clear m = Some m' → consistent m'.
Proof.
  intros [Hlive _ _ Hhid] Hrun.
  pose proof (clear_all_dead _ _ Hhid Hrun) as Hdead.
  apply clear_Some in Hrun as (cs & -> & _). simpl in *.
  split; simpl.
  - done.
  - unfold cells_in_range. simpl.
    eapply Forall_cells_impl; [done|]. simpl. lia.
  - unfold population_ok. simpl. symmetry. apply live_cells_none.
    eapply Forall_cells_impl; [done|]. simpl. lia.
  - intros i j v Hv _. rewrite Forall_cells in Hdead. eauto.
Qed.

Lemma clear_total m :
  shape_ok m → ∃ m', clear m = Some m' ∧ shape_ok m'.
Proof.
  intros Hs.
  destruct (for_cells_is_Some id (num_rows m) (num_cols m)
              (λ row col cs, set2 cs row col 0) (cell_states m))
    as [cs Hcs].
  - apply clear_local.
  - intros r c s ?? Hd. apply set2_is_Some.
    eapply get2_is_Some_dims; [done|]. by apply shape_ok_get2.
  - exists (with_cells m cs 0). unfold clear. rewrite Hcs. split; [done|].
    apply shape_ok_with_cells; [done|].
    apply (for_cells_dims id _ _ _ _ _ (clear_local _ _) Hcs).
Qed.

(** *** [randomize] *)

Lemma live_at_get2 live (g : grid) r c v :
  get2 g r c = Some v → live_at live g r c = is_live live v.
Proof. unfold live_at. by intros ->. Qed.

Lemma is_live_same live : is_live live live = 1.
Proof. unfold is_live. by rewrite bool_decide_true. Qed.

Lemma is_live_other live v : v ≠ live → is_live live v = 0.
Proof. intros. unfold is_live. by rewrite bool_decide_false. Qed.

Lemma randomize_local live bits rows cols :
  local_write (λ s : grid * Z * nat, s.1.1) rows cols (randomize_cell live bits).
Proof.
  intros r c [[cs pop] k] s' ?? Hb. unfold randomize_cell in Hb.
  destruct (bits k);
    [destruct (set2 cs r c live) as [cs'|] eqn:Hset
    |destruct (set2 cs r c 0) as [cs'|] eqn:Hset];
    simplify_eq/=; apply (set2_local _ _ _ _ _ Hset); lia.
Qed.

Lemma randomize_Some bits m m' :
  live_state m ≠ 0 →
  randomize bits m = Some m' →
  ∃ cs, m' = with_cells m cs
               (sumZ (λ r, sumZ (live_at (live_state m) cs r)
                               (Py.range (num_cols m)))
                     (Py.range (num_rows m)))
        ∧ dims cs = dims (cell_states m)
        ∧ (∀ r c, 0 ≤ r < num_rows m → 0 ≤ c < num_cols m →
                  get2 cs r c = Some (live_state m) ∨ get2 cs r c = Some 0)
        ∧ (∀ r c, 0 ≤ r → 0 ≤ c → ¬ (r < num_rows m ∧ c < num_cols m) →
                  get2 cs r c = get2 (cell_states m) r c).
Proof.
  unfold randomize. intros Hlive Hrun.
  destruct (for_cells _ _ _ _) as [[[cs pop] k]|] eqn:Hloop; simplify_eq/=.
  pose proof (randomize_local (live_state m) bits (num_rows m) (num_cols m))
    as Hloc.
  exists cs. split_and!.
  - f_equal.
    pose proof (for_cells_count _ (live_state m) (λ s, s.1.2) _ _ _
                  (cell_states m, 0, 0%nat) (cs, pop, k) Hloc) as Hcount.
    simpl in Hcount. rewrite Hcount; [|clear Hcount|exact Hloop].
    + simpl. lia.
    + intros r c [[cs1 pop1] k1] s2 ?? _ Hb. unfold randomize_cell in Hb.
      destruct (bits k1);
        [destruct (set2 cs1 r c _) as [cs'|] eqn:Hset
        |destruct (set2 cs1 r c 0) as [cs'|] eqn:Hset]; simplify_eq/=;
        rewrite (live_at_get2 _ _ _ _ _ (set2_get2 _ _ _ _ _ Hset
                   ltac:(lia) ltac:(lia))).
      * by rewrite is_live_same.
      * rewrite is_live_other by done. lia.
  - apply (for_cells_dims _ _ _ _ _ _ Hloc Hloop).
  - intros r c ??.
    destruct (for_cells_cell _ _ _ _ _ _ r c Hloc Hloop)
      as ([[cs1 pop1] k1] & s2 & Hb & _ & _ & Hfin); [done..|].
    simpl in Hfin. rewrite Hfin. unfold randomize_cell in Hb.
    destruct (bits k1);
      [destruct (set2 cs1 r c _) as [cs'|] eqn:Hset
      |destruct (set2 cs1 r c 0) as [cs'|] eqn:Hset]; simplify_eq/=;
      [left|right]; apply (set2_get2 _ _ _ _ _ Hset); lia.
  - intros r c ???.
    by apply (for_cells_frame _ _ _ _ _ _ r c Hloc Hloop).
Qed.

Lemma randomize_consistent bits m m' :
  consistent m → randomize bits m = Some m' → consistent m'.
Proof.
  intros [Hlive _ _ Hhid] (cs & -> & _ & Hvis & Hframe)%randomize_Some;
    [|lia].
  rewrite hidden_dead_get2 in Hhid.
  assert (∀ r c v, 0 ≤ r → 0 ≤ c → get2 cs r c = Some v →
                   num_rows m ≤ r ∨ num_cols m ≤ c → v = 0) as Hhid'.
  { intros r c v ?? Hv ?. rewrite Hframe in Hv by (done || lia). eauto. }
  split; simpl.
  - done.
  - unfold cells_in_range. simpl. apply Forall_get2. intros r c v ?? Hv.
    destruct (decide (r < num_rows m ∧ c < num_cols m)) as [[??]|Hout].
    + destruct (Hvis r c) as [Hc|Hc]; [lia..| |];
        rewrite Hc in Hv; simplify_eq; lia.
    + rewrite (Hhid' r c v); [lia|done..|lia].
  - unfold population_ok. simpl. symmetry. apply live_cells_index.
    intros i j v Hv ?. rewrite <-get2_of_nat in Hv.
    assert (v = 0) as ->
      by (apply (Hhid' (Z.of_nat i) (Z.of_nat j)); [lia|lia|done|done]).
    lia.
  - by apply hidden_dead_get2.
Qed.

Lemma randomize_total bits m :
  shape_ok m → ∃ m', randomize bits m = Some m' ∧ shape_ok m'.
Proof.
  intros Hs.
  pose proof (randomize_local (live_state m) bits (num_rows m) (num_cols m))
    as Hloc.
  destruct (for_cells_is_Some _ _ _ _ (cell_states m, 0, 0%nat) Hloc)
    as [[[cs pop] k] Hcs].
  - intros r c [[cs1 pop1] k1] ?? Hd. simpl in Hd. unfold randomize_cell.
    assert (is_Some (get2 cs1 r c)) as Hget.
    { eapply get2_is_Some_dims; [done|]. by apply shape_ok_get2. }
    destruct (bits k1).
    + destruct (proj2 (set2_is_Some cs1 r c (live_state m)) Hget) as [? ->].
      by eexists.
    + destruct (proj2 (set2_is_Some cs1 r c 0) Hget) as [? ->]. by eexists.
  - exists (with_cells m cs pop). unfold randomize. rewrite Hcs.
    split; [done|]. apply shape_ok_with_cells; [done|].
    apply (for_cells_dims _ _ _ _ _ _ Hloc Hcs).
Qed.

(** *** [toggle_wrap] and [toggle_trace] *)

Lemma toggle_wrap_consistent m : consistent m → consistent (toggle_wrap m).
Proof. by intros []. Qed.

Lemma toggle_wrap_shape m : shape_ok m → shape_ok (toggle_wrap m).
Proof. done. Qed.

Lemma fade_local live rows cols : local_write id rows cols (fade_out live).
Proof.
  intros r c s s' ?? Hb. unfold fade_out in Hb.
  destruct (get2 s r c) as [v|]; simplify_eq/=.
  case_bool_decide; simplify_eq/=; [|done].
  apply (set2_local _ _ _ _ _ Hb); lia.
Qed.

Lemma toggle_trace_off m m' :
  trace m = true → toggle_trace m = Some m' →
  ∃ cs, m' = mkModel (num_rows m) (num_cols m) (live_state m) (wrap m) false
                     cs (population m) (total_cells m)
        ∧ dims cs = dims (cell_states m)
        ∧ (∀ r c, 0 ≤ r < num_rows m → 0 ≤ c < num_cols m →
                  ∃ u, get2 (cell_states m) r c = Some u
                       ∧ get2 cs r c = Some (collapse (live_state m) u))
        ∧ (∀ r c, 0 ≤ r → 0 ≤ c → ¬ (r < num_rows m ∧ c < num_cols m) →
                  get2 cs r c = get2 (cell_states m) r c).
Proof.
  unfold toggle_trace. intros -> Hrun. simpl in Hrun.
  destruct (for_cells _ _ _ _) as [cs|] eqn:Hloop; simplify_eq/=.
  pose proof (fade_local (live_state m) (num_rows m) (num_cols m)) as Hloc.
  exists cs. split_and!; [done|..].
  - apply (for_cells_dims id _ _ _ _ _ Hloc Hloop).
  - intros r c ??.
    destruct (for_cells_cell id _ _ _ _ _ r c Hloc Hloop)
      as (s1 & s2 & Hb & _ & Hpre & Hfin); [done..|].
    unfold id in *. rewrite Hfin, <-Hpre. unfold fade_out in Hb.
    destruct (get2 s1 r c) as [u|] eqn:Hu; simplify_eq/=.
    exists u. split; [done|]. unfold collapse. case_bool_decide.
    + apply (set2_get2 _ _ _ _ _ Hb); lia.
    + by simplify_eq.
  - intros r c ???.
    by apply (for_cells_frame id _ _ _ _ _ r c Hloc Hloop).
Qed.

Lemma toggle_trace_on m :
  trace m = false →
  toggle_trace m
  = Some (mkModel (num_rows m) (num_cols m) (live_state m) (wrap m) true
                  (cell_states m) (population m) (total_cells m)).
Proof. unfold toggle_trace. by intros ->. Qed.

Lemma is_live_collapse live u : live ≠ 0 → is_live live (collapse live u) = is_live live u.
Proof.
  intros. unfold collapse, is_live.
  repeat case_bool_decide; try done; lia.
Qed.

Lemma toggle_trace_consistent m m' :
  consistent m → toggle_trace m = Some m' → consistent m'.
Proof.
  intros [Hlive Hrange Hpop Hhid] Hrun.
  destruct (trace m) eqn:Htr; [|rewrite toggle_trace_on in Hrun by done;
                                 by simplify_eq].
  apply toggle_trace_off in Hrun as (cs & -> & _ & Hvis & Hframe); [|done].
  rewrite hidden_dead_get2 in Hhid. unfold cells_in_range in Hrange.
  rewrite Forall_get2 in Hrange.
  assert (∀ r c v, 0 ≤ r → 0 ≤ c → get2 cs r c = Some v →
                   num_rows m ≤ r ∨ num_cols m ≤ c → v = 0) as Hhid'.
  { intros r c v ?? Hv ?. rewrite Hframe in Hv by (done || lia). eauto. }
  split; simpl.
  - done.
  - unfold cells_in_range. simpl. apply Forall_get2. intros r c v ?? Hv.
    destruct (decide (r < num_rows m ∧ c < num_cols m)) as [[??]|Hout].
    + destruct (Hvis r c) as (u & Hu & Hc); [lia..|].
      rewrite Hc in Hv. simplify_eq.
      assert (0 ≤ u ≤ live_state m) by by apply (Hrange r c).
      unfold collapse. case_bool_decide; lia.
    + rewrite (Hhid' r c v); [lia|done..|lia].
  - unfold population_ok in *. simpl. rewrite Hpop.
    rewrite (live_cells_index _ (cell_states m) (num_rows m) (num_cols m)),
      (live_cells_index _ cs (num_rows m) (num_cols m)).
    + apply sumZ_ext. intros r [??]%elem_of_range. apply sumZ_ext.
      intros c [??]%elem_of_range.
      destruct (Hvis r c) as (u & Hu & Hc); [lia..|].
      rewrite (live_at_get2 _ _ _ _ _ Hu), (live_at_get2 _ _ _ _ _ Hc).
      symmetry. apply is_live_collapse. lia.
    + intros i j v Hv ?. rewrite <-get2_of_nat in Hv.
      assert (v = 0) as ->
        by (apply (Hhid' (Z.of_nat i) (Z.of_nat j)); [lia|lia|done|done]).
      lia.
    + intros i j v Hv ?. rewrite <-get2_of_nat in Hv.
      assert (v = 0) as ->
        by (apply (Hhid (Z.of_nat i) (Z.of_nat j)); [lia|lia|done|done]).
      lia.
  - by apply hidden_dead_get2.
Qed.

Lemma toggle_trace_total m :
  shape_ok m → ∃ m', toggle_trace m = Some m' ∧ shape_ok m'.
Proof.
  intros Hs. destruct (trace m) eqn:Htr;
    [|rewrite toggle_trace_on by done; by eexists].
  pose proof (fade_local (live_state m) (num_rows m) (num_cols m)) as Hloc.
  destruct (for_cells_is_Some id _ _ _ (cell_states m) Hloc) as [cs Hcs].
  - intros r c s ?? Hd. unfold id in Hd. unfold fade_out.
    assert (is_Some (get2 s r c)) as [u Hu].
    { eapply get2_is_Some_dims; [done|]. by apply shape_ok_get2. }
    rewrite Hu. simpl. case_bool_decide; [|done].
    apply set2_is_Some. by eexists.
  - unfold toggle_trace. rewrite Htr. simpl. rewrite Hcs. simpl.
    eexists; split; [done|]. destruct Hs as (? & ? & Hd).
    split_and!; [done..|]. simpl. rewrite <-Hd.
    apply (for_cells_dims id _ _ _ _ _ Hloc Hcs).
Qed.

(** *** The neighbor counter *)

Lemma resolve_bounds w n x y : 0 < n → resolve w n x = Some y → 0 ≤ y < n.
Proof.
  unfold resolve. intros ?. case_bool_decide; [by intros [= <-]|].
  destruct w; intros [= <-]. by apply Z.mod_pos_bound.
Qed.

Lemma count_neighbor_skip m row col acc :
  count_neighbor m row col 0 0 acc = Some acc.
Proof. done. Qed.

Lemma count_neighbor_spec m row col d_row d_col acc :
  shape_ok m → 0 < num_rows m → 0 < num_cols m →
  ¬ (d_row = 0 ∧ d_col = 0) →
  count_neighbor m row col d_row d_col acc
  = Some (acc + Z.b2z (neighbor_counts m row col (d_row, d_col))).
Proof.
  intros Hs ?? Hd. unfold count_neighbor, neighbor_counts, resolve, in_bounds.
  simpl.
  assert (bool_decide (d_row = 0) && bool_decide (d_col = 0) = false) as ->.
  { apply andb_false_iff. rewrite !bool_decide_eq_false.
    destruct (decide (d_row = 0)); [right|left]; naive_solver. }
  assert (∀ r c, 0 ≤ r < num_rows m → 0 ≤ c < num_cols m →
            get2 (cell_states m) r c ≫=
              (λ v, Some (if bool_decide (v = live_state m)
                          then acc + 1 else acc))
            = Some (acc + Z.b2z (bool_decide (get2 (cell_states m) r c
                                               = Some (live_state m)))))
    as Hread.
  { intros r c ??. destruct (shape_ok_get2 m r c) as [v ->]; [done..|].
    simpl. f_equal. repeat case_bool_decide; simplify_eq/=; try done; lia. }
  pose proof (Z.mod_pos_bound (row + d_row) (num_rows m)).
  pose proof (Z.mod_pos_bound (col + d_col) (num_cols m)).
  unfold Py.mod_. rewrite !(bool_decide_false (_ = 0)) by lia.
  destruct (decide (0 ≤ row + d_row < num_rows m)) as [Hr|Hr];
    [rewrite !(bool_decide_true _ Hr)|rewrite !(bool_decide_false _ Hr)];
    (destruct (decide (0 ≤ col + d_col < num_cols m)) as [Hc|Hc];
     [rewrite !(bool_decide_true _ Hc)|rewrite !(bool_decide_false _ Hc)]);
    destruct (wrap m); simpl; try (f_equal; lia); apply Hread; lia.
Qed.

Lemma count_live_neighbors_spec m row col :
  shape_ok m → 0 < num_rows m → 0 < num_cols m →
  count_live_neighbors m row col = Some (live_neighbor_count m row col).
Proof.
  intros Hs ??. unfold count_live_neighbors. cbn [Py.for_in].
  repeat (first [rewrite count_neighbor_skip
                |rewrite count_neighbor_spec by (done || lia)];
          cbn [mbind option_bind Py.for_in]).
  unfold live_neighbor_count, moore_offsets. cbn [sumZ foldr]. f_equal. lia.
Qed.

(** *** [step] *)

Lemma get2_dead_grid rows cols r c :
  0 ≤ r < rows → 0 ≤ c < cols → get2 (dead_grid rows cols) r c = Some 0.
Proof.
  intros ??.
  destruct (shape_get2 _ _ _ r c (dims_dead_grid rows cols)) as [_ Hsome];
    [lia..|].
  destruct Hsome as [v Hv]; [lia|].
  rewrite Hv. f_equal. rewrite get2_nonneg in Hv by lia.
  by eapply cell_dead_grid.
Qed.

Lemma step_local m rows cols : local_write fst rows cols (step_cell m).
Proof.
  intros r c [cs pop] s' ?? Hb. unfold step_cell in Hb.
  destruct (get2 (cell_states m) r c) as [u|]; simplify_eq/=.
  destruct (count_live_neighbors m r c) as [n|]; simplify_eq/=.
  destruct (alive_next _ _ _).
  - destruct (set2 cs r c _) as [cs'|] eqn:Hset; simplify_eq/=.
    apply (set2_local _ _ _ _ _ Hset); lia.
  - destruct (trace m && _).
    + destruct (set2 cs r c _) as [cs'|] eqn:Hset; simplify_eq/=.
      apply (set2_local _ _ _ _ _ Hset); lia.
    + by simplify_eq/=.
Qed.

(** One turn of the loops, on a buffer whose visited cell is still [0]. *)
Lemma step_cell_Some m r c cs pop cs' pop' :
  0 ≤ r → 0 ≤ c → get2 cs r c = Some 0 →
  step_cell m r c (cs, pop) = Some (cs', pop') →
  ∃ u n, get2 (cell_states m) r c = Some u
         ∧ count_live_neighbors m r c = Some n
         ∧ get2 cs' r c = Some (next_state m u n)
         ∧ pop' = pop + Z.b2z (alive_next (live_state m) u n).
Proof.
  intros ?? Hzero Hb. unfold step_cell in Hb.
  destruct (get2 (cell_states m) r c) as [u|]; simplify_eq/=.
  destruct (count_live_neighbors m r c) as [n|]; simplify_eq/=.
  exists u, n. split_and!; [done..| |]; unfold next_state;
    destruct (alive_next _ _ _).
  - destruct (set2 cs r c _) as [cs1|] eqn:Hset; simplify_eq/=.
    by apply (set2_get2 _ _ _ _ _ Hset).
  - destruct (trace m && _).
    + destruct (set2 cs r c _) as [cs1|] eqn:Hset; simplify_eq/=.
      by apply (set2_get2 _ _ _ _ _ Hset).
    + by simplify_eq/=.
  - destruct (set2 cs r c _) as [cs1|]; by simplify_eq/=.
  - destruct (trace m && _);
      [destruct (set2 cs r c _) as [cs1|]|]; simplify_eq/=; lia.
Qed.

Lemma step_Some m m' :
  step m = Some m' →
  ∃ cs pop,
    m' = with_cells m cs pop
    ∧ dims cs = replicate (Z.to_nat (num_rows m)) (Z.to_nat (num_cols m))
    ∧ ∀ r c, 0 ≤ r < num_rows m → 0 ≤ c < num_cols m →
        ∃ u n, get2 (cell_states m) r c = Some u
               ∧ count_live_neighbors m r c = Some n
               ∧ get2 cs r c = Some (next_state m u n).
Proof.
  unfold step. intros Hrun.
  destruct (for_cells _ _ _ _) as [[cs pop]|] eqn:Hloop; simplify_eq/=.
  pose proof (step_local m (num_rows m) (num_cols m)) as Hloc.
  exists cs, pop. split_and!; [done|..].
  - rewrite <-dims_dead_grid.
    apply (for_cells_dims fst _ _ _ _ _ Hloc Hloop).
  - intros r c ??.
    destruct (for_cells_cell fst _ _ _ _ _ r c Hloc Hloop)
      as ([cs1 pop1] & [cs2 pop2] & Hb & _ & Hpre & Hfin); [done..|].
    simpl in *. rewrite get2_dead_grid in Hpre by done.
    destruct (step_cell_Some m r c cs1 pop1 cs2 pop2)
      as (u & n & ? & ? & ? & _); [lia|lia|done|done|].
    exists u, n. by rewrite Hfin.
Qed.

Lemma next_state_range m u n :
  1 < live_state m → 0 ≤ u ≤ live_state m →
  0 ≤ next_state m u n ≤ live_state m.
Proof.
  intros ??. unfold next_state.
  destruct (alive_next _ _ _); [lia|].
  destruct (trace m); simpl; [|lia]. case_bool_decide; simpl; lia.
Qed.

(** The next value is [live_state] exactly when the rule says alive. *)
Lemma next_state_live m u n :
  1 < live_state m → 0 ≤ u ≤ live_state m →
  is_live (live_state m) (next_state m u n)
  = Z.b2z (alive_next (live_state m) u n).
Proof.
  intros ??. unfold next_state.
  destruct (alive_next _ _ _); simpl; [apply is_live_same|].
  apply is_live_other.
  destruct (trace m); simpl; [|lia]. case_bool_decide; simpl; lia.
Qed.

Lemma step_population m m' :
  1 < live_state m → cells_in_range m → step m = Some m' →
  population m'
  = sumZ (λ r, sumZ (live_at (live_state m) (cell_states m') r)
                    (Py.range (num_cols m)))
         (Py.range (num_rows m)).
Proof.
  unfold step. intros Hlive Hrange Hrun.
  destruct (for_cells _ _ _ _) as [[cs pop]|] eqn:Hloop; simplify_eq/=.
  pose proof (step_local m (num_rows m) (num_cols m)) as Hloc.
  pose proof (for_cells_count fst (live_state m) snd _ _ _
                (dead_grid (num_rows m) (num_cols m), 0) (cs, pop) Hloc)
    as Hcount.
  simpl in Hcount. rewrite Hcount; [done| |done].
  intros r c [cs1 pop1] [cs2 pop2] ?? Hpre Hb. simpl in *.
  rewrite get2_dead_grid in Hpre by done.
  destruct (step_cell_Some m r c cs1 pop1 cs2 pop2)
    as (u & n & Hu & _ & Hv & ->); [lia|lia|done|done|].
  rewrite (live_at_get2 _ _ _ _ _ Hv), next_state_live; [done..|].
  unfold cells_in_range in Hrange. rewrite Forall_get2 in Hrange.
  apply (Hrange r c); [lia..|done].
Qed.

Lemma step_consistent m m' : consistent m → step m = Some m' → consistent m'.
Proof.
  intros [Hlive Hrange Hpop Hhid] Hrun.
  pose proof (step_population _ _ Hlive Hrange Hrun) as Hpop'.
  apply step_Some in Hrun as (cs & pop & -> & Hd & Hvis). simpl in *.
  assert (∀ r c v, 0 ≤ r → 0 ≤ c → get2 cs r c = Some v →
                   r < num_rows m ∧ c < num_cols m) as Hin.
  { intros r c v ?? Hv.
    destruct (shape_get2 cs _ _ r c Hd) as [Hsome _]; [done..|].
    destruct Hsome; [by eexists|lia]. }
  unfold cells_in_range in Hrange. rewrite Forall_get2 in Hrange.
  split; simpl.
  - done.
  - unfold cells_in_range. simpl. apply Forall_get2. intros r c v ?? Hv.
    destruct (Hin r c v) as [??]; [done..|].
    destruct (Hvis r c) as (u & n & Hu & _ & Hc); [lia..|].
    rewrite Hc in Hv. simplify_eq. apply next_state_range; [done|].
    by apply (Hrange r c).
  - unfold population_ok. simpl. rewrite Hpop'. symmetry.
    apply live_cells_index. intros i j v Hv ?.
    rewrite <-get2_of_nat in Hv.
    destruct (Hin (Z.of_nat i) (Z.of_nat j) v); [lia..|done|lia].
  - apply hidden_dead_get2. intros r c v ?? Hv ?.
    destruct (Hin r c v); [done..|lia].
Qed.

Lemma step_total m : shape_ok m → ∃ m', step m = Some m' ∧ shape_ok m'.
Proof.
  intros Hs.
  pose proof (step_local m (num_rows m) (num_cols m)) as Hloc.
  destruct (for_cells_is_Some fst _ _ _
              (dead_grid (num_rows m) (num_cols m), 0) Hloc)
    as [[cs pop] Hcs].
  - intros r c [cs1 pop1] ?? Hd. simpl in Hd. unfold step_cell.
    destruct (shape_ok_get2 m r c) as [u ->]; [done..|]. simpl.
    rewrite count_live_neighbors_spec by (done || lia). simpl.
    assert (∀ v, is_Some (set2 cs1 r c v)) as Hset.
    { intros v. apply set2_is_Some.
      eapply get2_is_Some_dims; [done|].
      rewrite get2_dead_grid by done. by eexists. }
    destruct (alive_next _ _ _).
    + destruct (Hset (live_state m)) as [? ->]. by eexists.
    + destruct (trace m && _); [|by eexists].
      destruct (Hset (Z.max (u - 1) 1)) as [? ->]. by eexists.
  - exists (with_cells m cs pop). unfold step. rewrite Hcs. split; [done|].
    destruct Hs as (? & ? & ?). split_and!; [done..|]. simpl.
    rewrite <-dims_dead_grid.
    apply (for_cells_dims fst _ _ _ _ _ Hloc Hcs).
Qed.

(** *** [set_cells_state] *)

Lemma set_cell_Some state cell m m' :
  set_cell state cell m = Some m' →
  ∃ u, get2 (cell_states m) cell.1 cell.2 = Some u
       ∧ ((u = target state m ∧ m' = m)
          ∨ (u ≠ target state m
             ∧ ∃ cs, set2 (cell_states m) cell.1 cell.2 (target state m)
                     = Some cs
                     ∧ m' = with_cells m cs
                              (if state then population m + 1
                               else population m - is_live (live_state m) u))).
Proof.
  destruct cell as [r c]. unfold set_cell, target. simpl.
  destruct (get2 (cell_states m) r c) as [u|]; simpl; [|done].
  intros Hb. exists u. split; [done|]. unfold is_live.
  destruct state; simpl in Hb; case_bool_decide; simplify_eq/=;
    try (by left).
  - right. split; [done|].
    destruct (set2 _ _ _ _) as [cs|]; simplify_eq/=. by exists cs.
  - right. split; [done|].
    destruct (set2 _ _ _ _) as [cs|]; simplify_eq/=.
    exists cs. split; [done|]. f_equal.
    repeat case_bool_decide; simpl; lia.
Qed.

Lemma set_cell_consistent state cell m m' :
  consistent m → in_grid m cell → set_cell state cell m = Some m' →
  consistent m'.
Proof.
  intros Hm [??] (u & Hu & [[_ ->]|(Hne & cs & Hset & ->)])%set_cell_Some;
    [done|].
  destruct Hm as [Hlive Hrange Hpop Hhid].
  assert (0 ≤ target state m ≤ live_state m)
    by (unfold target; destruct state; lia).
  split; simpl.
  - done.
  - eapply set2_Forall; [done..|]. simpl. done.
  - unfold population_ok in *. simpl.
    destruct (live_cells_set2 (live_state m) _ _ _ _ _ Hset) as (u' & Hu' & ->).
    rewrite Hu in Hu'. simplify_eq. unfold target in *.
    destruct state.
    + rewrite is_live_same, is_live_other by done. lia.
    + rewrite (is_live_other _ 0) by lia. lia.
  - apply hidden_dead_get2. intros r c v ?? Hv ?.
    rewrite (get2_set2 _ _ _ _ _ _ _ Hset) in Hv by lia.
    case_decide; [lia|]. rewrite hidden_dead_get2 in Hhid. eauto.
Qed.

Lemma set_cell_fields state cell m m' :
  set_cell state cell m = Some m' →
  num_rows m' = num_rows m ∧ num_cols m' = num_cols m
  ∧ live_state m' = live_state m ∧ wrap m' = wrap m ∧ trace m' = trace m
  ∧ total_cells m' = total_cells m
  ∧ dims (cell_states m') = dims (cell_states m).
Proof.
  intros (u & Hu & [[_ ->]|(_ & cs & Hset & ->)])%set_cell_Some; [done|].
  simpl. split_and!; try done. by eapply set2_dims.
Qed.

Lemma set_cells_state_fields cells state m m' :
  set_cells_state cells state m = Some m' →
  num_rows m' = num_rows m ∧ num_cols m' = num_cols m
  ∧ live_state m' = live_state m ∧ wrap m' = wrap m ∧ trace m' = trace m
  ∧ total_cells m' = total_cells m
  ∧ dims (cell_states m') = dims (cell_states m).
Proof.
  unfold set_cells_state. revert m.
  induction cells as [|cell cells IH]; intros m Hrun; simplify_eq/=; [done|].
  destruct (set_cell state cell m) as [m1|] eqn:H1; simplify_eq/=.
  apply set_cell_fields in H1. apply IH in Hrun.
  destruct_and!. split_and!; congruence.
Qed.

Lemma set_cells_state_consistent cells state m m' :
  consistent m → Forall (in_grid m) cells →
  set_cells_state cells state m = Some m' → consistent m'.
Proof.
  unfold set_cells_state. revert m.
  induction cells as [|cell cells IH]; intros m Hm Hin Hrun; simplify_eq/=;
    [done|].
  destruct (set_cell state cell m) as [m1|] eqn:H1; simplify_eq/=.
  apply Forall_cons in Hin as [Hcell Hin].
  apply (IH m1); [by eapply set_cell_consistent| |done].
  apply set_cell_fields in H1 as (Hr & Hc & _).
  eapply Forall_impl; [done|]. intros [r c]. unfold in_grid.
  by rewrite Hr, Hc.
Qed.

Lemma set_cell_total state cell m :
  shape_ok m → in_grid m cell → is_Some (set_cell state cell m).
Proof.
  intros Hs [??]. destruct cell as [r c]. unfold set_cell.
  destruct (shape_ok_get2 m r c) as [u Hu]; [done..|]. rewrite Hu. simpl.
  assert (∀ v, is_Some (set2 (cell_states m) r c v)) as Hset
    by (intros v; apply set2_is_Some; by eexists).
  destruct (state && _).
  - destruct (Hset (live_state m)) as [? ->]. by eexists.
  - destruct (negb state && _); [|by eexists].
    destruct (Hset 0) as [? ->]. by eexists.
Qed.

Lemma shape_ok_fields m m' :
  num_rows m' = num_rows m → num_cols m' = num_cols m →
  dims (cell_states m') = dims (cell_states m) →
  shape_ok m → shape_ok m'.
Proof. unfold shape_ok. by intros -> -> ->. Qed.

Lemma set_cells_state_total cells state m :
  shape_ok m → Forall (in_grid m) cells →
  ∃ m', set_cells_state cells state m = Some m' ∧ shape_ok m'.
Proof.
  unfold set_cells_state. revert m.
  induction cells as [|cell cells IH]; intros m Hs Hin; simpl; [by eexists|].
  apply Forall_cons in Hin as [Hcell Hin].
  destruct (set_cell_total state cell m Hs Hcell) as [m1 H1]. rewrite H1.
  simpl. pose proof (set_cell_fields _ _ _ _ H1) as (Hr & Hc & _ & _ & _ & _ & Hd).
  apply IH.
  - by eapply shape_ok_fields.
  - eapply Forall_impl; [done|]. intros [r c]. unfold in_grid.
    by rewrite Hr, Hc.
Qed.

(** *** [adjust_grid_size] *)

Lemma elem_of_range_down k a b : k ∈ Py.range_down a b ↔ b < k ≤ a.
Proof.
  unfold Py.range_down. rewrite list_elem_of_fmap. split.
  - intros (i & -> & Hi%elem_of_seqZ). lia.
  - intros ?. exists (a - k). split; [lia|]. apply elem_of_seqZ. lia.
Qed.

Lemma sumZ_seqZ_shift (f : Z → Z) a n :
  sumZ f (seqZ a n) = sumZ (λ k, f (a + k)) (Py.range n).
Proof.
  unfold Py.range. replace a with (a + 0) at 1 by lia.
  by rewrite <-fmap_add_seqZ, sumZ_fmap.
Qed.

Lemma sumZ_range_down (f : Z → Z) a b :
  sumZ f (Py.range_down a b) = sumZ f (seqZ (b + 1) (a - b)).
Proof.
  unfold Py.range_down. destruct (decide (a - b ≤ 0)).
  { by rewrite !seqZ_nil by lia. }
  assert (∃ len : nat, a - b = Z.of_nat len) as [len Hlen]
    by (exists (Z.to_nat (a - b)); lia).
  rewrite Hlen. replace (b + 1) with (a - Z.of_nat len + 1) by lia.
  clear. induction len as [|n IH]; [done|].
  rewrite seqZ_S, fmap_app, sumZ_app, IH. simpl.
  rewrite (seqZ_cons (a - Z.of_nat (S n) + 1)) by lia. simpl.
  replace (Z.succ (a - Z.of_nat (S n) + 1)) with (a - Z.of_nat n + 1) by lia.
  replace (Z.pred (Z.of_nat (S n))) with (Z.of_nat n) by lia.
  replace (a - (0 + Z.of_nat n)) with (a - Z.of_nat (S n) + 1) by lia. lia.
Qed.

(** The scans of the cells about to be dropped: they read, and count
    down the population for each live cell read. *)
Lemma scan_cols live row xs (cs : grid) pop s' :
  Py.for_in xs (drop_scan live row) (cs, pop) = Some s' ↔
  (∀ c, c ∈ xs → is_Some (get2 cs row c))
  ∧ s' = (cs, pop - sumZ (live_at live cs row) xs).
Proof.
  revert pop. induction xs as [|c xs IH]; intros pop; simpl.
  { split; [intros [= <-]|intros [_ ->]].
    - split; [by intros ? ?%elem_of_nil|]. f_equal. lia.
    - f_equal. f_equal. lia. }
  unfold drop_scan at 1. unfold live_at at 1, is_live.
  destruct (get2 cs row c) as [v|] eqn:Hv; simpl.
  - rewrite IH. split; intros [Hall ->]; (split; [|f_equal; case_bool_decide; simpl; lia]).
    + intros c' [->|?]%elem_of_cons; [by eexists|auto].
    + intros c' ?. apply Hall. by right.
  - split; [done|]. intros [Hall _].
    destruct (Hall c) as [? Hc]; [by left|]. by rewrite Hv in Hc.
Qed.

Lemma scan_rows live cols rs (cs : grid) pop s' :
  Py.for_in rs (λ row, Py.for_in (Py.range cols) (drop_scan live row))
    (cs, pop) = Some s' ↔
  (∀ r c, r ∈ rs → 0 ≤ c < cols → is_Some (get2 cs r c))
  ∧ s' = (cs, pop - sumZ (λ r, sumZ (live_at live cs r) (Py.range cols)) rs).
Proof.
  revert pop. induction rs as [|r rs IH]; intros pop; simpl.
  { split; [intros [= <-]|intros [_ ->]].
    - split; [by intros ?? ?%elem_of_nil|]. f_equal. lia.
    - f_equal. f_equal. lia. }
  destruct (Py.for_in (Py.range cols) _ _) as [s1|] eqn:H1; simpl.
  - apply scan_cols in H1 as [Hall1 ->]. rewrite IH.
    split; intros [Hall ->]; (split; [|f_equal; lia]).
    + intros r' c [->|?]%elem_of_cons ?; [|by auto].
      by apply Hall1, elem_of_range.
    + intros r' c ??. apply Hall; [by right|done].
  - split; [done|]. intros [Hall _].
    assert (is_Some (Py.for_in (Py.range cols) (drop_scan live r) (cs, pop)))
      as [? Hs]; [|by rewrite H1 in Hs].
    eexists. apply scan_cols. split; [|done].
    intros c ?%elem_of_range. apply Hall; [by left|done].
Qed.

Lemma grow_rows {A} (xs : list A) (z : list Z) (cs : grid) (pop : Z) :
  Py.for_in xs (λ _ '(cs, pop), Some (cs ++ [z], pop)) (cs, pop)
  = Some (cs ++ replicate (length xs) z, pop).
Proof.
  revert cs. induction xs as [|x xs IH]; intros cs; simpl.
  - by rewrite app_nil_r.
  - rewrite IH. by rewrite <-app_assoc.
Qed.

Lemma adjust_rows_Some live old_rows old_cols new_rows (cs : grid) pop s' :
  adjust_rows live old_rows old_cols new_rows (cs, pop) = Some s' ↔
  (old_rows < new_rows
   ∧ s' = (cs ++ replicate (Z.to_nat (new_rows - old_rows))
                           (Py.times 0 old_cols), pop))
  ∨ (new_rows < old_rows
     ∧ (∀ r c, new_rows ≤ r < old_rows → 0 ≤ c < old_cols →
               is_Some (get2 cs r c))
     ∧ s' = (Py.slice_to cs new_rows,
             pop - sumZ (λ r, sumZ (live_at live cs r) (Py.range old_cols))
                        (seqZ new_rows (old_rows - new_rows))))
  ∨ (new_rows = old_rows ∧ s' = (cs, pop)).
Proof.
  unfold adjust_rows. repeat case_bool_decide.
  - rewrite grow_rows. unfold Py.range2. rewrite length_seqZ.
    split; [intros [= <-]; left; split; [lia|done]|].
    intros [[_ ->]|[[? _]|[? _]]]; [done|lia..].
  - destruct (Py.for_in _ _ _) as [[cs1 pop1]|] eqn:Hscan; simpl.
    + apply scan_rows in Hscan as [Hall [= -> ->]].
      rewrite sumZ_range_down.
      replace (new_rows - 1 + 1) with new_rows by lia.
      replace (old_rows - 1 - (new_rows - 1)) with (old_rows - new_rows) by lia.
      split; [intros [= <-]; right; left; split_and!; [lia| |done]|].
      * intros r c ??. apply Hall; [|done]. apply elem_of_range_down. lia.
      * intros [[? _]|[(_ & _ & ->)|[? _]]]; [lia|done|lia].
    + split; [done|]. intros [[? _]|[(_ & Hall & _)|[? _]]]; [lia| |lia].
      assert (is_Some (Py.for_in (Py.range_down (old_rows - 1) (new_rows - 1))
                (λ row, Py.for_in (Py.range old_cols) (drop_scan live row))
                (cs, pop))) as [? Hs]; [|by rewrite Hscan in Hs].
      eexists. apply scan_rows. split; [|done].
      intros r c ?%elem_of_range_down ?. apply Hall; lia.
  - split; [intros [= <-]; right; right; split; [lia|done]|].
    intros [[? _]|[[? _]|[_ ->]]]; [lia..|done].
Qed.

(** A loop [for row in range(n)] whose turn replaces row [row] by [f] of
    it, provided the row passes [ok], and lowers the counter by [d] of
    the row. *)
Section row_map.
Variables (f : list Z → list Z) (ok : list Z → Prop) (d : list Z → Z).
Variable body : Z → list (list Z) * Z → option (list (list Z) * Z).
Hypothesis body_spec : ∀ i cs pop s', 0 ≤ i →
  body i (cs, pop) = Some s' ↔
  ∃ row, cs !! Z.to_nat i = Some row ∧ ok row
         ∧ s' = (<[Z.to_nat i:=f row]> cs, pop - d row).

Lemma mapped_lookup k (cs : grid) :
  (k ≤ length cs)%nat → mapped f k cs !! k = cs !! k.
Proof.
  intros. unfold mapped.
  rewrite lookup_app_r; rewrite length_fmap, length_take; [|lia].
  rewrite lookup_drop. f_equal. lia.
Qed.

Lemma mapped_insert k (cs : grid) row :
  cs !! k = Some row → <[k:=f row]> (mapped f k cs) = mapped f (S k) cs.
Proof.
  intros Hk. assert (k < length cs)%nat by by eapply lookup_lt_Some.
  unfold mapped.
  rewrite insert_app_r_alt; rewrite length_fmap, length_take; [|lia].
  rewrite (drop_S _ _ _ Hk), (take_S_r _ _ _ Hk), fmap_app, <-app_assoc.
  by replace (k - k `min` length cs)%nat with 0%nat by lia.
Qed.

Lemma for_rows_Some (k : nat) (cs : grid) pop s' :
  Py.for_in (Py.range (Z.of_nat k)) body (cs, pop) = Some s' ↔
  (k ≤ length cs)%nat ∧ Forall ok (take k cs)
  ∧ s' = (mapped f k cs, pop - sumZ d (take k cs)).
Proof.
  revert s'. induction k as [|k IH]; intros s'.
  { simpl. unfold mapped. rewrite take_0, drop_0. simpl. split.
    - intros [= <-]. split_and!; [lia|done|]. f_equal. lia.
    - intros (_ & _ & ->). f_equal. f_equal. lia. }
  replace (Z.of_nat (S k)) with (Z.of_nat k + 1) by lia.
  rewrite range_snoc, for_in_app by lia.
  assert (∃ o, Py.for_in (Py.range (Z.of_nat k)) body (cs, pop) = o)
    as [[s1|] H1] by eauto; rewrite H1; simpl.
  - apply IH in H1 as (Hlen & Hok & ->).
    destruct (body (Z.of_nat k) _) as [s2|] eqn:H2; simpl.
    + apply body_spec in H2 as (row & Hrow & ? & ->); [|lia].
      rewrite Nat2Z.id in *. rewrite mapped_lookup in Hrow by done.
      rewrite mapped_insert by done.
      assert (S k ≤ length cs)%nat
        by (apply lookup_lt_Some in Hrow; lia).
      rewrite (take_S_r _ _ _ Hrow), sumZ_app. simpl.
      split.
      * intros [= <-]. split_and!; [done| |f_equal; lia].
        apply Forall_app. split; [done|]. by apply Forall_singleton.
      * intros (_ & _ & ->). f_equal. f_equal. lia.
    + split; [done|]. intros (Hlen' & Hok' & _).
      destruct (lookup_lt_is_Some_2 cs k) as [row Hrow]; [lia|].
      rewrite (take_S_r _ _ _ Hrow) in Hok'.
      apply Forall_app in Hok' as [_ Hrow']. rewrite Forall_singleton in Hrow'.
      assert (is_Some (body (Z.of_nat k)
                         (mapped f k cs, pop - sumZ d (take k cs))))
        as [? Hs]; [|by rewrite H2 in Hs].
      eexists. apply body_spec; [lia|]. exists row.
      rewrite Nat2Z.id, mapped_lookup by done. split_and!; done.
  - split; [done|]. intros (Hlen' & Hok' & _).
    assert (is_Some (Py.for_in (Py.range (Z.of_nat k)) body (cs, pop)))
      as [? Hs]; [|by rewrite H1 in Hs].
    eexists. apply IH. split_and!; [lia| |done].
    destruct (lookup_lt_is_Some_2 cs k) as [row Hrow]; [lia|].
    rewrite (take_S_r _ _ _ Hrow) in Hok'.
    by apply Forall_app in Hok' as [? _].
Qed.
End row_map.

Lemma extend_row_spec extra i (cs : grid) pop s' :
  0 ≤ i →
  extend_row extra i (cs, pop) = Some s' ↔
  ∃ row, cs !! Z.to_nat i = Some row ∧ True
         ∧ s' = (<[Z.to_nat i:=row ++ Py.times 0 extra]> cs, pop - 0).
Proof.
  intros. unfold extend_row. rewrite getitem_nonneg by done.
  destruct (cs !! Z.to_nat i) as [row|] eqn:Hrow; simpl.
  - rewrite setitem_nonneg; [|done|by eapply lookup_lt_Some]. simpl.
    replace (pop - 0) with pop by lia. split.
    + intros [= <-]. by exists row.
    + by intros (? & [= <-] & _ & ->).
  - split; [done|]. by intros (? & ? & _).
Qed.

Lemma shrink_row_spec live old_cols new_cols i (cs : grid) pop s' :
  0 ≤ i → 0 ≤ new_cols →
  shrink_row live old_cols new_cols i (cs, pop) = Some s' ↔
  ∃ row, cs !! Z.to_nat i = Some row
         ∧ (∀ c, new_cols ≤ c < old_cols → is_Some (row !! Z.to_nat c))
         ∧ s' = (<[Z.to_nat i:=take (Z.to_nat new_cols) row]> cs,
                 pop - dropped_in_row live old_cols new_cols row).
Proof.
  intros ??. unfold shrink_row.
  assert (∀ row, cs !! Z.to_nat i = Some row →
            sumZ (live_at live cs i) (Py.range_down (old_cols - 1) (new_cols - 1))
            = dropped_in_row live old_cols new_cols row) as Hsum.
  { intros row Hrow. rewrite sumZ_range_down. unfold dropped_in_row.
    replace (new_cols - 1 + 1) with new_cols by lia.
    replace (old_cols - 1 - (new_cols - 1)) with (old_cols - new_cols) by lia.
    apply sumZ_ext. intros c [??]%elem_of_seqZ. unfold live_at.
    rewrite get2_nonneg by lia. unfold cell. by rewrite Hrow. }
  destruct (Py.for_in _ _ _) as [[cs1 pop1]|] eqn:Hscan; simpl.
  - apply scan_cols in Hscan as [Hall [= -> ->]].
    rewrite getitem_nonneg by done.
    destruct (cs !! Z.to_nat i) as [row|] eqn:Hrow; simpl.
    + rewrite setitem_nonneg; [|done|by eapply lookup_lt_Some]. simpl.
      rewrite slice_to_nonneg, (Hsum row) by done. split.
      * intros [= <-]. exists row. split_and!; [done| |done].
        intros c ?. destruct (Hall c) as [v Hv].
        { apply elem_of_range_down. lia. }
        rewrite get2_nonneg in Hv by lia. unfold cell in Hv.
        rewrite Hrow in Hv. by eexists.
      * by intros (? & [= <-] & _ & ->).
    + split; [done|]. by intros (? & ? & _).
  - split; [done|]. intros (row & Hrow & Hall & _).
    assert (is_Some (Py.for_in (Py.range_down (old_cols - 1) (new_cols - 1))
              (drop_scan live i) (cs, pop))) as [? Hs];
      [|by rewrite Hscan in Hs].
    eexists. apply scan_cols. split; [|done].
    intros c ?%elem_of_range_down. rewrite get2_nonneg by lia.
    unfold cell. rewrite Hrow. simpl. apply Hall. lia.
Qed.

Lemma adjust_cols_Some live old_cols new_rows new_cols (cs : grid) pop s' :
  0 ≤ new_rows → 0 ≤ new_cols →
  adjust_cols live old_cols new_rows new_cols (cs, pop) = Some s' ↔
  (old_cols < new_cols
   ∧ (Z.to_nat new_rows ≤ length cs)%nat
   ∧ s' = (mapped (λ row, row ++ Py.times 0 (new_cols - old_cols))
             (Z.to_nat new_rows) cs, pop))
  ∨ (new_cols < old_cols
     ∧ (Z.to_nat new_rows ≤ length cs)%nat
     ∧ Forall (λ row, ∀ c, new_cols ≤ c < old_cols →
                           is_Some (row !! Z.to_nat c))
              (take (Z.to_nat new_rows) cs)
     ∧ s' = (mapped (take (Z.to_nat new_cols)) (Z.to_nat new_rows) cs,
             pop - sumZ (dropped_in_row live old_cols new_cols)
                        (take (Z.to_nat new_rows) cs)))
  ∨ (new_cols = old_cols ∧ s' = (cs, pop)).
Proof.
  intros ??. unfold adjust_cols.
  replace (Py.range new_rows) with (Py.range (Z.of_nat (Z.to_nat new_rows)))
    by (by rewrite Z2Nat.id).
  repeat case_bool_decide.
  - rewrite (for_rows_Some (λ row, row ++ Py.times 0 (new_cols - old_cols))
               (λ _, True) (λ _, 0) (extend_row (new_cols - old_cols))
               (extend_row_spec _)).
    rewrite sumZ_zero by done. replace (pop - 0) with pop by lia.
    split; [intros (? & _ & ->); left; split_and!; [lia|done..]|].
    intros [(_ & ? & ->)|[[? _]|[? _]]]; [|lia..].
    split_and!; [done| |done]. by apply Forall_true.
  - rewrite (for_rows_Some (take (Z.to_nat new_cols))
               (λ row, ∀ c, new_cols ≤ c < old_cols →
                            is_Some (row !! Z.to_nat c))
               (dropped_in_row live old_cols new_cols)
               (shrink_row live old_cols new_cols)
               (λ i cs pop s' Hi,
                  shrink_row_spec live old_cols new_cols i cs pop s' Hi
                    ltac:(done))).
    split; [intros (? & ? & ->); right; left; split_and!; [lia|done..]|].
    by intros [[? _]|[(_ & ? & ? & ->)|[? _]]]; [lia| |lia].
  - split; [intros [= <-]; right; right; split; [lia|done]|].
    intros [[? _]|[[? _]|[_ ->]]]; [lia..|done].
Qed.

Lemma sumZ_sub {A} (f g : A → Z) (l : list A) :
  sumZ (λ x, f x - g x) l = sumZ f l - sumZ g l.
Proof. induction l as [|x l IH]; simpl; lia. Qed.

Lemma cell_app (g1 g2 : grid) i j :
  cell (g1 ++ g2) i j
  = if decide (i < length g1)%nat then cell g1 i j
    else cell g2 (i - length g1) j.
Proof.
  unfold cell. case_decide.
  - by rewrite lookup_app_l.
  - by rewrite lookup_app_r by lia.
Qed.

Lemma cell_take n (g : grid) i j v :
  cell (take n g) i j = Some v → (i < n)%nat ∧ cell g i j = Some v.
Proof.
  unfold cell. intros Hv.
  destruct (take n g !! i) as [row|] eqn:Hi; simplify_eq/=.
  apply lookup_take_Some in Hi as [Hi ?]. by rewrite Hi.
Qed.

Lemma cell_drop n (g : grid) i j : cell (drop n g) i j = cell g (n + i) j.
Proof. unfold cell. by rewrite lookup_drop. Qed.

Lemma cell_replicate k (row : list Z) i j v :
  cell (replicate k row) i j = Some v → row !! j = Some v.
Proof.
  unfold cell. intros Hv.
  destruct (replicate k row !! i) as [row'|] eqn:Hi; simplify_eq/=.
  by apply lookup_replicate in Hi as [-> _].
Qed.

Lemma live_cells_dead_rows live k cols :
  live ≠ 0 → live_cells live (replicate k (Py.times 0 cols)) = 0.
Proof.
  intros. apply live_cells_none, Forall_replicate, Forall_replicate. lia.
Qed.

Lemma live_cells_dropped_rows live (cs : grid) old_rows cols new_rows :
  0 ≤ new_rows →
  (∀ i j v, cell cs i j = Some v →
            old_rows ≤ Z.of_nat i ∨ cols ≤ Z.of_nat j → v ≠ live) →
  live_cells live (drop (Z.to_nat new_rows) cs)
  = sumZ (λ r, sumZ (live_at live cs r) (Py.range cols))
         (seqZ new_rows (old_rows - new_rows)).
Proof.
  intros ? Hhid.
  rewrite (live_cells_index _ _ (old_rows - new_rows) cols).
  - rewrite sumZ_seqZ_shift. apply sumZ_ext. intros r [??]%elem_of_range.
    apply sumZ_ext. intros c [??]%elem_of_range. unfold live_at.
    rewrite !get2_nonneg by lia. rewrite cell_drop. do 2 f_equal. lia.
  - intros i j v Hv ?. rewrite cell_drop in Hv.
    apply (Hhid _ _ _ Hv). lia.
Qed.

Lemma adjust_rows_good live old_rows old_cols new_rows s s' :
  1 < live → 0 ≤ new_rows →
  good live old_rows old_cols s →
  adjust_rows live old_rows old_cols new_rows s = Some s' →
  good live new_rows old_cols s'.
Proof.
  destruct s as [cs pop]. intros ?? (Hrange & Hpop & Hhid) Hrun. simpl in *.
  apply adjust_rows_Some in Hrun
    as [[? ->]|[(? & _ & ->)|[-> ->]]]; [| |done].
  - split_and!; simpl.
    + apply Forall_app. split; [done|].
      apply Forall_replicate, Forall_replicate. lia.
    + rewrite live_cells_app, live_cells_dead_rows by lia. lia.
    + intros i j v Hv ?. rewrite cell_app in Hv. case_decide.
      * apply (Hhid _ _ _ Hv). lia.
      * apply cell_replicate in Hv.
        by apply lookup_replicate in Hv as [-> _].
  - rewrite slice_to_nonneg by done. split_and!; simpl.
    + by apply Forall_take.
    + rewrite <-(live_cells_dropped_rows live cs old_rows old_cols new_rows).
      2: done.
      2: { intros i j v Hv ?. rewrite (Hhid _ _ _ Hv); [lia|done]. }
      rewrite Hpop. rewrite <-(take_drop (Z.to_nat new_rows) cs) at 1.
      rewrite live_cells_app. lia.
    + intros i j v [? Hv]%cell_take ?. apply (Hhid _ _ _ Hv). lia.
Qed.

Section mapped_facts.
Variable f : list Z → list Z.

Lemma mapped_lookup_lt k (cs : grid) i :
  (i < k)%nat → (k ≤ length cs)%nat → mapped f k cs !! i = f <$> cs !! i.
Proof.
  intros. unfold mapped.
  rewrite lookup_app_l by (rewrite length_fmap, length_take; lia).
  rewrite list_lookup_fmap, lookup_take_lt by done. done.
Qed.

Lemma mapped_lookup_ge k (cs : grid) i :
  (k ≤ i)%nat → (k ≤ length cs)%nat → mapped f k cs !! i = cs !! i.
Proof.
  intros. unfold mapped.
  rewrite lookup_app_r; rewrite length_fmap, length_take; [|lia].
  rewrite lookup_drop. f_equal. lia.
Qed.

Lemma mapped_length k (cs : grid) :
  (k ≤ length cs)%nat → length (mapped f k cs) = length cs.
Proof.
  intros. unfold mapped.
  rewrite length_app, length_fmap, length_take, length_drop. lia.
Qed.

Lemma mapped_Forall (P : Z → Prop) k (cs : grid) :
  (∀ row, Forall P row → Forall P (f row)) →
  Forall (Forall P) cs → Forall (Forall P) (mapped f k cs).
Proof.
  intros Hf Hcs. unfold mapped. apply Forall_app. split.
  - apply Forall_fmap. eapply Forall_impl; [by apply Forall_take|]. done.
  - by apply Forall_drop.
Qed.

Lemma mapped_live_cells live (d : list Z → Z) k (cs : grid) :
  (∀ row, row ∈ take k cs →
          live_in_row live (f row) = live_in_row live row - d row) →
  live_cells live (mapped f k cs)
  = live_cells live cs - sumZ d (take k cs).
Proof.
  intros Hf. unfold mapped. rewrite <-(take_drop k cs) at 3.
  rewrite !live_cells_app, !live_cells_sum, sumZ_fmap.
  rewrite (sumZ_ext _ (λ row, live_in_row live row - d row)) by done.
  rewrite sumZ_sub. lia.
Qed.
End mapped_facts.

Lemma live_in_row_dropped live old_cols new_cols (row : list Z) :
  0 ≤ new_cols →
  (∀ j v, row !! j = Some v → old_cols ≤ Z.of_nat j → v ≠ live) →
  live_in_row live (drop (Z.to_nat new_cols) row)
  = dropped_in_row live old_cols new_cols row.
Proof.
  intros ? Hhid.
  rewrite (live_in_row_index _ (drop _ _) (old_cols - new_cols)).
  - unfold dropped_in_row. rewrite sumZ_seqZ_shift.
    apply sumZ_ext.
    intros c [??]%elem_of_range. rewrite lookup_drop. do 2 f_equal. lia.
  - intros j v Hv ?. rewrite lookup_drop in Hv.
    apply (Hhid _ _ Hv). lia.
Qed.

Lemma live_in_row_take live n (row : list Z) :
  live_in_row live (take n row)
  = live_in_row live row - live_in_row live (drop n row).
Proof.
  rewrite <-(take_drop n row) at 2. rewrite live_in_row_app. lia.
Qed.

Lemma adjust_cols_good live old_cols new_rows new_cols s s' :
  1 < live → 0 ≤ new_rows → 0 ≤ new_cols →
  good live new_rows old_cols s →
  adjust_cols live old_cols new_rows new_cols s = Some s' →
  good live new_rows new_cols s'.
Proof.
  destruct s as [cs pop]. intros ??? (Hrange & Hpop & Hhid) Hrun.
  simpl in *.
  apply adjust_cols_Some in Hrun
    as [(? & Hlen & ->)|[(? & Hlen & _ & ->)|[-> ->]]]; [| |done..].
  - split_and!; simpl.
    + apply mapped_Forall; [|done]. intros row Hrow.
      apply Forall_app. split; [done|]. apply Forall_replicate. lia.
    + rewrite (mapped_live_cells _ live (λ _, 0)).
      * rewrite sumZ_zero by done. lia.
      * intros row _. rewrite live_in_row_app.
        rewrite (live_in_row_none _ (Py.times _ _)); [lia|].
        apply Forall_replicate. lia.
    + intros i j v Hv Hout. unfold cell in Hv.
      destruct (decide (i < Z.to_nat new_rows)%nat).
      * rewrite mapped_lookup_lt in Hv by done.
        destruct (cs !! i) as [row|] eqn:Hi; simplify_eq/=.
        destruct (decide (j < length row)%nat).
        -- rewrite lookup_app_l in Hv by done.
           apply (Hhid i j). { unfold cell. by rewrite Hi. } lia.
        -- rewrite lookup_app_r in Hv by lia.
           by apply lookup_replicate in Hv as [-> _].
      * rewrite mapped_lookup_ge in Hv by lia.
        apply (Hhid i j); [done|lia].
  - split_and!; simpl.
    + apply mapped_Forall; [|done]. intros row. apply Forall_take.
    + rewrite (mapped_live_cells _ live (dropped_in_row live old_cols new_cols)).
      * lia.
      * intros row [i Hi]%list_elem_of_lookup.
        apply lookup_take_Some in Hi as [Hi ?].
        rewrite live_in_row_take, (live_in_row_dropped _ old_cols); [done..|].
        intros j v Hj ?. rewrite (Hhid i j v); [lia| |lia].
        unfold cell. by rewrite Hi.
    + intros i j v Hv Hout. unfold cell in Hv.
      destruct (decide (i < Z.to_nat new_rows)%nat).
      * rewrite mapped_lookup_lt in Hv by done.
        destruct (cs !! i) as [row|] eqn:Hi; simplify_eq/=.
        apply lookup_take_Some in Hv as [_ ?]. lia.
      * rewrite mapped_lookup_ge in Hv by lia.
        apply (Hhid i j); [done|lia].
Qed.

Lemma adjust_grid_size_phases new_rows new_cols m m' :
  adjust_grid_size new_rows new_cols m = Some m' ↔
  ∃ s1 cs pop,
    adjust_rows (live_state m) (num_rows m) (num_cols m) new_rows
      (cell_states m, population m) = Some s1
    ∧ adjust_cols (live_state m) (num_cols m) new_rows new_cols s1
      = Some (cs, pop)
    ∧ m' = mkModel new_rows new_cols (live_state m) (wrap m) (trace m)
                   cs pop (new_rows * new_cols).
Proof.
  unfold adjust_grid_size. split.
  - destruct (adjust_rows _ _ _ _ _) as [s1|]; simpl; [|done].
    destruct (adjust_cols _ _ _ _ _) as [[cs pop]|] eqn:H2; simpl; [|done].
    intros [= <-]. by exists s1, cs, pop.
  - intros (s1 & cs & pop & -> & H2 & ->). simpl. by rewrite H2.
Qed.

Lemma adjust_grid_size_consistent new_rows new_cols m m' :
  consistent m → 0 ≤ new_rows → 0 ≤ new_cols →
  adjust_grid_size new_rows new_cols m = Some m' → consistent m'.
Proof.
  intros [Hlive Hrange Hpop Hhid] ??
    (s1 & cs & pop & H1 & H2 & ->)%adjust_grid_size_phases.
  apply adjust_rows_good in H1; [|done..].
  apply adjust_cols_good in H2 as (? & ? & ?); [|done..].
  by split.
Qed.

(** Resizing a grid of the right shape does not raise, and gives a grid
    of the new shape. *)
Lemma dims_replicate (g : grid) n c :
  dims g = replicate n c ↔ length g = n ∧ Forall (λ row, length row = c) g.
Proof.
  unfold dims. split.
  - intros Hd. split.
    + by rewrite <-(length_fmap length g), Hd, length_replicate.
    + apply Forall_lookup. intros i row Hi.
      assert ((length <$> g) !! i = Some (length row)) as Hl
        by by rewrite list_lookup_fmap, Hi.
      rewrite Hd in Hl. by apply lookup_replicate in Hl as [-> _].
  - intros [<- Hall].
    rewrite (Forall_fmap_ext_1 length (λ _, c) g) by done.
    by apply const_fmap.
Qed.

Lemma adjust_grid_size_total new_rows new_cols m :
  shape_ok m → 0 ≤ new_rows → 0 ≤ new_cols →
  ∃ m', adjust_grid_size new_rows new_cols m = Some m' ∧ shape_ok m'.
Proof.
  intros Hs ??. pose proof Hs as (? & ? & [Hlen Hrows]%dims_replicate).
  assert (∃ cs1 pop1,
    adjust_rows (live_state m) (num_rows m) (num_cols m) new_rows
      (cell_states m, population m) = Some (cs1, pop1)
    ∧ length cs1 = Z.to_nat new_rows
    ∧ Forall (λ row, length row = Z.to_nat (num_cols m)) cs1)
    as (cs1 & pop1 & Hph1 & Hlen1 & Hrows1).
  { destruct (Z.lt_trichotomy (num_rows m) new_rows) as [?|[?|?]].
    - eexists _, _. split; [apply adjust_rows_Some; left; by split|].
      split.
      + rewrite length_app, length_replicate. lia.
      + apply Forall_app. split; [done|].
        apply Forall_replicate, length_times.
    - eexists _, _. split; [apply adjust_rows_Some; right; right; by split|].
      split; [lia|done].
    - eexists _, _. split.
      { apply adjust_rows_Some. right; left. split_and!; [done| |done].
        intros r c ??. apply shape_ok_get2; [done|lia..]. }
      rewrite slice_to_nonneg by done. split.
      + rewrite length_take. lia.
      + by apply Forall_take. }
  assert (∃ cs pop,
    adjust_cols (live_state m) (num_cols m) new_rows new_cols (cs1, pop1)
      = Some (cs, pop)
    ∧ length cs = Z.to_nat new_rows
    ∧ Forall (λ row, length row = Z.to_nat new_cols) cs)
    as (cs & pop & Hph2 & Hlen2 & Hrows2).
  { assert (take (Z.to_nat new_rows) cs1 = cs1) as Htake
      by (apply take_ge; lia).
    assert (drop (Z.to_nat new_rows) cs1 = []) as Hdrop
      by (apply drop_ge; lia).
    destruct (Z.lt_trichotomy (num_cols m) new_cols) as [?|[?|?]].
    - eexists _, _. split.
      { apply adjust_cols_Some; [done..|]. left. split_and!; [done|lia|done]. }
      unfold mapped. rewrite Htake, Hdrop, app_nil_r, length_fmap.
      split; [done|]. apply Forall_fmap.
      eapply Forall_impl; [done|]. simpl. intros row Hrow.
      rewrite length_app, length_times. lia.
    - eexists _, _. split.
      { apply adjust_cols_Some; [done..|]. right; right. by split. }
      split; [done|]. eapply Forall_impl; [done|]. simpl. intros; lia.
    - eexists _, _. split.
      { apply adjust_cols_Some; [done..|]. right; left.
        split_and!; [done|lia| |done].
        rewrite Htake. eapply Forall_impl; [done|]. simpl.
        intros row Hrow c ?. apply lookup_lt_is_Some_2. lia. }
      unfold mapped. rewrite Htake, Hdrop, app_nil_r, length_fmap.
      split; [done|]. apply Forall_fmap.
      eapply Forall_impl; [done|]. simpl. intros row Hrow.
      rewrite length_take. lia. }
  eexists. split.
  - apply adjust_grid_size_phases. by eexists _, _, _.
  - split_and!; simpl; [done..|]. by apply dims_replicate.
Qed.

(** Every cell of the resized grid holds what the old grid held at the
    same place, or [0] where the old grid had no cell. *)
Lemma adjust_rows_cell live old_rows old_cols new_rows (cs : grid) pop cs1 pop1 i row1 :
  0 ≤ new_rows →
  adjust_rows live old_rows old_cols new_rows (cs, pop) = Some (cs1, pop1) →
  cs1 !! i = Some row1 →
  cs !! i = Some row1 ∨ (cs !! i = None ∧ Forall (λ v, v = 0) row1).
Proof.
  intros ? [[? [= -> ->]]|[(? & _ & [= -> ->])|[-> [= -> ->]]]]%adjust_rows_Some
    Hi; [| |by left].
  - destruct (decide (i < length cs)%nat).
    + rewrite lookup_app_l in Hi by done. by left.
    + rewrite lookup_app_r in Hi by lia. right.
      split; [apply lookup_ge_None; lia|].
      apply lookup_replicate in Hi as [-> _]. by apply Forall_replicate.
  - rewrite slice_to_nonneg in Hi by done.
    apply lookup_take_Some in Hi as [? _]. by left.
Qed.

Lemma adjust_cols_cell live old_cols new_rows new_cols (cs1 : grid) pop1 cs pop i j v :
  0 ≤ new_rows → 0 ≤ new_cols →
  adjust_cols live old_cols new_rows new_cols (cs1, pop1) = Some (cs, pop) →
  cell cs i j = Some v →
  ∃ row1, cs1 !! i = Some row1
          ∧ (row1 !! j = Some v ∨ (row1 !! j = None ∧ v = 0)).
Proof.
  intros ?? Hrun Hv. unfold cell in Hv.
  apply adjust_cols_Some in Hrun
    as [(? & ? & [= -> ->])|[(? & ? & _ & [= -> ->])|[-> [= -> ->]]]];
    [| | |done..].
  - destruct (decide (i < Z.to_nat new_rows)%nat).
    + rewrite mapped_lookup_lt in Hv by done.
      destruct (cs1 !! i) as [row1|]; simplify_eq/=. exists row1.
      split; [done|]. destruct (decide (j < length row1)%nat).
      * rewrite lookup_app_l in Hv by done. by left.
      * rewrite lookup_app_r in Hv by lia. right.
        apply lookup_replicate in Hv as [-> _].
        split; [apply lookup_ge_None; lia|done].
    + rewrite mapped_lookup_ge in Hv by lia.
      destruct (cs1 !! i) as [row1|]; simplify_eq/=. eauto.
  - destruct (decide (i < Z.to_nat new_rows)%nat).
    + rewrite mapped_lookup_lt in Hv by done.
      destruct (cs1 !! i) as [row1|]; simplify_eq/=. exists row1.
      split; [done|]. apply lookup_take_Some in Hv as [? _]. by left.
    + rewrite mapped_lookup_ge in Hv by lia.
      destruct (cs1 !! i) as [row1|]; simplify_eq/=. eauto.
  - destruct (cs1 !! i) as [row1|]; simplify_eq/=. eauto.
Qed.

Lemma adjust_grid_size_cell new_rows new_cols m m' i j v :
  0 ≤ new_rows → 0 ≤ new_cols →
  adjust_grid_size new_rows new_cols m = Some m' →
  cell (cell_states m') i j = Some v →
  v = default 0 (cell (cell_states m) i j).
Proof.
  intros ?? (s1 & cs & pop & H1 & H2 & ->)%adjust_grid_size_phases Hv.
  destruct s1 as [cs1 pop1]. simpl in Hv.
  destruct (adjust_cols_cell (live_state m) (num_cols m) new_rows new_cols
              cs1 pop1 cs pop i j v) as (row1 & Hi & Hj); [done..|].
  destruct (adjust_rows_cell (live_state m) (num_rows m) (num_cols m)
              new_rows (cell_states m) (population m) cs1 pop1 i row1)
    as [Hi'|[Hi' Hzero]]; [done..| |]; unfold cell; rewrite Hi'; simpl.
  - by destruct Hj as [->|[-> ->]].
  - destruct Hj as [Hj|[_ ->]]; [|done].
    rewrite Forall_lookup in Hzero. eauto.
Qed.

Lemma adjust_rows_population live old_rows old_cols new_rows (cs : grid) pop cs1 pop1 :
  0 ≤ old_rows → 0 ≤ new_rows →
  length cs = Z.to_nat old_rows →
  Forall (λ row, length row = Z.to_nat old_cols) cs →
  adjust_rows live old_rows old_cols new_rows (cs, pop) = Some (cs1, pop1) →
  pop1 = pop - live_cells live (drop (Z.to_nat new_rows) cs)
  ∧ ∃ k, take (Z.to_nat new_rows) cs1
         = take (Z.to_nat new_rows) cs ++ replicate k (Py.times 0 old_cols).
Proof.
  intros ?? Hlen Hrows
    [[? [= -> ->]]|[(? & _ & [= -> ->])|[-> [= -> ->]]]]%adjust_rows_Some.
  - rewrite drop_ge by lia. split; [unfold live_cells; simpl; lia|].
    eexists. rewrite !take_ge; [done|lia|].
    rewrite length_app, length_replicate. lia.
  - split.
    + rewrite (live_cells_dropped_rows _ _ old_rows old_cols); [done..|].
      intros i j v Hv ?. exfalso. unfold cell in Hv.
      destruct (cs !! i) as [row|] eqn:Hi; simplify_eq/=.
      rewrite Forall_lookup in Hrows. specialize (Hrows _ _ Hi).
      apply lookup_lt_Some in Hi, Hv. lia.
    + exists 0%nat. rewrite slice_to_nonneg by done. simpl.
      by rewrite app_nil_r, take_take, Nat.min_id.
  - rewrite drop_ge by lia. split; [unfold live_cells; simpl; lia|].
    exists 0%nat. simpl. by rewrite app_nil_r.
Qed.

Lemma adjust_cols_population live old_cols new_rows new_cols (cs1 : grid) pop1 cs pop :
  0 ≤ new_rows → 0 ≤ new_cols →
  Forall (λ row, length row = Z.to_nat old_cols)
         (take (Z.to_nat new_rows) cs1) →
  adjust_cols live old_cols new_rows new_cols (cs1, pop1) = Some (cs, pop) →
  pop = pop1 - sumZ (λ row, live_in_row live (drop (Z.to_nat new_cols) row))
                    (take (Z.to_nat new_rows) cs1).
Proof.
  intros ?? Hrows Hrun.
  apply adjust_cols_Some in Hrun
    as [(? & ? & [= -> ->])|[(? & ? & _ & [= -> ->])|[-> [= -> ->]]]];
    [| | |done..].
  - rewrite sumZ_zero; [lia|]. intros row Hrow.
    rewrite Forall_forall in Hrows. rewrite drop_ge; [done|].
    rewrite (Hrows _ Hrow). lia.
  - f_equal. apply sumZ_ext. intros row Hrow. symmetry.
    apply live_in_row_dropped; [done|].
    intros j v Hv ?. exfalso. rewrite Forall_forall in Hrows.
    specialize (Hrows _ Hrow). apply lookup_lt_Some in Hv. lia.
  - rewrite sumZ_zero; [lia|]. intros row Hrow.
    rewrite Forall_forall in Hrows. rewrite drop_ge; [done|].
    rewrite (Hrows _ Hrow). lia.
Qed.

Lemma adjust_grid_size_population new_rows new_cols m m' :
  live_state m ≠ 0 → shape_ok m → 0 ≤ new_rows → 0 ≤ new_cols →
  adjust_grid_size new_rows new_cols m = Some m' →
  population m'
  = population m
    - live_cells (live_state m)
        (dropped_cells new_rows new_cols (cell_states m)).
Proof.
  intros ? (? & ? & [Hlen Hrows]%dims_replicate) ??
    (s1 & cs & pop & Hph1 & Hph2 & ->)%adjust_grid_size_phases.
  destruct s1 as [cs1 pop1]. simpl.
  apply adjust_rows_population in Hph1 as (-> & k & Htake); [|done..].
  apply adjust_cols_population in Hph2 as ->; [|done..|].
  - unfold dropped_cells. rewrite live_cells_app, Htake, sumZ_app.
    rewrite (live_cells_sum _ (_ <$> _)), sumZ_fmap.
    rewrite (sumZ_zero _ (replicate _ _)); [unfold compose; lia|].
    intros row [-> _]%elem_of_replicate. apply live_in_row_none.
    apply Forall_drop, Forall_replicate. lia.
  - rewrite Htake. apply Forall_app. split; [by apply Forall_take|].
    apply Forall_replicate, length_times.
Qed.

(** Two grids with the same row widths and the same cells are equal. *)
Lemma grid_ext (g g' : grid) :
  dims g = dims g' → (∀ i j, cell g i j = cell g' i j) → g = g'.
Proof.
  intros Hd Hcell. apply list_eq. intros i.
  destruct (g !! i) as [row|] eqn:Hi.
  - destruct (dims_lookup _ _ _ _ Hd Hi) as (row' & Hi' & Hlen).
    rewrite Hi'. f_equal. apply list_eq. intros j.
    specialize (Hcell i j). unfold cell in Hcell.
    by rewrite Hi, Hi' in Hcell.
  - symmetry. apply lookup_ge_None. apply lookup_ge_None in Hi.
    by rewrite <-(dims_length _ _ Hd).
Qed.

Lemma grid_ext_get2 (g g' : grid) :
  dims g = dims g' →
  (∀ r c, 0 ≤ r → 0 ≤ c → get2 g r c = get2 g' r c) → g = g'.
Proof.
  intros Hd Hcell. apply grid_ext; [done|]. intros i j.
  rewrite <-!get2_of_nat. apply Hcell; lia.
Qed.

(** ** Runs of operations *)

Lemma init_consistent rows cols live w t :
  1 < live → consistent (init rows cols live w t).
Proof.
  intros. assert (Forall (Forall (λ v, v = 0)) (dead_grid rows cols)) as Hdead.
  { apply Forall_cells. intros i j v. apply cell_dead_grid. }
  split; simpl.
  - done.
  - unfold cells_in_range. simpl. eapply Forall_cells_impl; [done|].
    simpl. lia.
  - unfold population_ok. simpl. symmetry. apply live_cells_none.
    eapply Forall_cells_impl; [done|]. simpl. lia.
  - intros i j v Hv _. by eapply cell_dead_grid.
Qed.

Lemma init_shape rows cols live w t :
  0 ≤ rows → 0 ≤ cols → shape_ok (init rows cols live w t).
Proof. intros. split_and!; [done..|]. apply dims_dead_grid. Qed.

Lemma exec_consistent o m m' :
  consistent m → permitted m o → exec o m = Some m' → consistent m'.
Proof.
  intros Hm Hp Hrun. destruct o; simpl in *.
  - by eapply step_consistent.
  - by eapply randomize_consistent.
  - by eapply clear_consistent.
  - by eapply set_cells_state_consistent.
  - simplify_eq. by apply toggle_wrap_consistent.
  - by eapply toggle_trace_consistent.
  - destruct Hp.
    by apply (adjust_grid_size_consistent new_num_rows new_num_cols m).
Qed.

Lemma exec_total o m :
  shape_ok m → permitted m o → ∃ m', exec o m = Some m' ∧ shape_ok m'.
Proof.
  intros Hm Hp. destruct o; simpl in *.
  - by apply step_total.
  - by apply randomize_total.
  - by apply clear_total.
  - by apply set_cells_state_total.
  - eexists. split; [done|]. by apply toggle_wrap_shape.
  - by apply toggle_trace_total.
  - destruct Hp. by apply adjust_grid_size_total.
Qed.

Lemma reachable_consistent m0 m :
  consistent m0 → reachable m0 m → consistent m.
Proof. induction 2; eauto using exec_consistent. Qed.

Lemma reachable_shape m0 m : shape_ok m0 → reachable m0 m → shape_ok m.
Proof.
  induction 2 as [|m o m' _ IH Hp Hrun]; [done|].
  destruct (exec_total o m IH Hp) as (m'' & Hrun' & ?). congruence.
Qed.

(** ** The properties of the specification *)

(** C1. Population invariant: from a model constructed with
    [live_state > 1], after every sequence of operations (coordinates in
    range, new dimensions not negative) [population] is the number of
    cells that hold [live_state] and every cell lies in [0, live_state];
    when the model was constructed with dimensions that are not negative,
    no operation of such a sequence raises. *)
Theorem population_invariant rows cols live w t m :
  1 < live →
  reachable (init rows cols live w t) m →
  (population m = live_cells (live_state m) (cell_states m)
   ∧ Forall (Forall (λ v, 0 ≤ v ≤ live_state m)) (cell_states m))
  ∧ (0 ≤ rows → 0 ≤ cols →
     ∀ o, permitted m o → is_Some (exec o m)).
Proof.
  intros Hlive Hreach. split.
  - destruct (reachable_consistent _ _ (init_consistent rows cols live w t Hlive)
                Hreach) as [_ ? ? _]. done.
  - intros ?? o Hp.
    destruct (exec_total o m) as (m' & -> & _); [|done..].
    eapply reachable_shape; [|done]. by apply init_shape.
Qed.

Lemma population_invariant_witness :
  let m := mkModel 3 3 4 true false [[0; 0; 0]; [0; 0; 0]; [0; 0; 0]] 0 9 in
  (population m = live_cells (live_state m) (cell_states m)
   ∧ Forall (Forall (λ v, 0 ≤ v ≤ live_state m)) (cell_states m))
  ∧ (0 ≤ 3 → 0 ≤ 3 → ∀ o, permitted m o → is_Some (exec o m)).
Proof.
  apply (population_invariant 3 3 4 true false); [lia|].
  apply (reach_op _ (mkModel 3 3 4 true false
                       [[0; 0; 0]; [0; 4; 0]; [0; 0; 0]] 1 9) Step).
  - apply (reach_op _ (init 3 3 4 true false) (SetCellsState [(1, 1)] true)).
    + apply reach_init.
    + simpl. repeat constructor; simpl; lia.
    + reflexivity.
  - exact I.
  - reflexivity.
Defined.

Lemma alive_next_rule live u n :
  alive_next live u n = true ↔
  (u = live ∧ (n = 2 ∨ n = 3)) ∨ (u < live ∧ n = 3).
Proof.
  unfold alive_next.
  rewrite orb_true_iff, !andb_true_iff, !bool_decide_eq_true. lia.
Qed.

(** C2. [step] computes every cell of the next generation from the grid
    as it was before the call (the value read at the cell and the
    neighbor count taken on that grid), and the cell becomes [live_state]
    exactly when it held [live_state] with 2 or 3 live neighbors, or held
    less with exactly 3. *)
Theorem step_rule m :
  1 < live_state m → cells_in_range m → shape_ok m →
  ∃ m', step m = Some m'
    ∧ ∀ row col, 0 ≤ row < num_rows m → 0 ≤ col < num_cols m →
        ∃ u n, get2 (cell_states m) row col = Some u
               ∧ count_live_neighbors m row col = Some n
               ∧ get2 (cell_states m') row col = Some (next_state m u n)
               ∧ (next_state m u n = live_state m ↔
                  (u = live_state m ∧ (n = 2 ∨ n = 3))
                  ∨ (u < live_state m ∧ n = 3)).
Proof.
  intros Hlive Hrange Hs.
  destruct (step_total m Hs) as (m' & Hrun & _). exists m'. split; [done|].
  apply step_Some in Hrun as (cs & pop & -> & _ & Hcells).
  intros row col ??. destruct (Hcells row col) as (u & n & Hu & Hn & Hv);
    [done..|].
  exists u, n. split_and!; [done..|].
  unfold cells_in_range in Hrange. rewrite Forall_get2 in Hrange.
  assert (0 ≤ u ≤ live_state m) by (apply (Hrange row col); [lia..|done]).
  rewrite <-alive_next_rule.
  pose proof (next_state_live m u n Hlive ltac:(done)) as Hl.
  unfold is_live in Hl. destruct (alive_next _ _ _); simpl in Hl.
  - split; [done|]. intros _.
    by case_bool_decide.
  - split; [|done]. intros ?. by case_bool_decide.
Qed.

Lemma step_rule_witness :
  let m := mkModel 3 3 4 false true [[0; 4; 0]; [0; 4; 3]; [0; 4; 0]] 3 9 in
  ∃ m', step m = Some m'
    ∧ ∀ row col, 0 ≤ row < num_rows m → 0 ≤ col < num_cols m →
        ∃ u n, get2 (cell_states m) row col = Some u
               ∧ count_live_neighbors m row col = Some n
               ∧ get2 (cell_states m') row col = Some (next_state m u n)
               ∧ (next_state m u n = live_state m ↔
                  (u = live_state m ∧ (n = 2 ∨ n = 3))
                  ∨ (u < live_state m ∧ n = 3)).
Proof.
  apply step_rule.
  - simpl. lia.
  - unfold cells_in_range. simpl. repeat constructor; lia.
  - split_and!; simpl; [lia..|reflexivity].
Defined.

(** Evaluating the neighbor counter on a grid written out cell by cell:
    each offset adds the liveness of the cell it resolves to. *)
Lemma neighbor_counts_eq m row col d nr nc v :
  resolve (wrap m) (num_rows m) (row + d.1) = Some nr →
  resolve (wrap m) (num_cols m) (col + d.2) = Some nc →
  get2 (cell_states m) nr nc = Some v →
  Z.b2z (neighbor_counts m row col d) = is_live (live_state m) v.
Proof.
  unfold neighbor_counts, is_live. intros -> -> ->. f_equal.
  apply bool_decide_ext. naive_solver.
Qed.

Lemma neighbor_counts_skip m row col d :
  resolve (wrap m) (num_rows m) (row + d.1) = None
  ∨ resolve (wrap m) (num_cols m) (col + d.2) = None →
  Z.b2z (neighbor_counts m row col d) = 0.
Proof.
  unfold neighbor_counts. intros [->| ->]; [done|].
  by destruct (resolve _ _ (row + d.1)).
Qed.

Ltac count_offsets :=
  unfold live_neighbor_count, moore_offsets; cbn [sumZ foldr];
  repeat first
    [ erewrite neighbor_counts_eq by reflexivity
    | rewrite neighbor_counts_skip by first [by left | by right] ].

(** The grid [step] returns, from the value each cell must take. *)
Lemma step_result m (g : grid) :
  consistent m → shape_ok m →
  dims g = replicate (Z.to_nat (num_rows m)) (Z.to_nat (num_cols m)) →
  (∀ r c u, 0 ≤ r < num_rows m → 0 ≤ c < num_cols m →
            get2 (cell_states m) r c = Some u →
            get2 g r c = Some (next_state m u (live_neighbor_count m r c))) →
  step m = Some (with_cells m g (live_cells (live_state m) g)).
Proof.
  intros Hm Hs Hd Hg. destruct (step_total m Hs) as (m' & Hrun & _).
  rewrite Hrun. f_equal.
  pose proof (step_consistent _ _ Hm Hrun) as [_ _ Hpop _].
  apply step_Some in Hrun as (cs & pop & -> & Hd' & Hcells).
  unfold population_ok in Hpop. simpl in Hpop. subst pop.
  assert (cs = g) as ->; [|done].
  apply grid_ext_get2; [congruence|]. intros r c ??.
  destruct (decide (r < num_rows m ∧ c < num_cols m)) as [[??]|Hout].
  - destruct (Hcells r c) as (u & n & Hu & Hn & ->); [lia..|].
    rewrite count_live_neighbors_spec in Hn by (done || lia).
    simplify_eq. symmetry. apply Hg; [lia..|done].
  - assert (∀ g0 : grid,
              dims g0 = replicate (Z.to_nat (num_rows m))
                                  (Z.to_nat (num_cols m)) →
              get2 g0 r c = None) as Hnone.
    { intros g0 Hg0. apply eq_None_not_Some. intros Hsome.
      apply (shape_get2 _ _ _ r c Hg0) in Hsome; [lia|done..]. }
    by rewrite !Hnone.
Qed.

Ltac decide_tests :=
  repeat match goal with
    | |- context [bool_decide ?P] =>
        first [ rewrite (bool_decide_true P) by lia
              | rewrite (bool_decide_false P) by lia ]
    end.

Ltac each_cell r c :=
  let Hr := fresh in let Hc := fresh in
  assert (r = 0 ∨ r = 1 ∨ r = 2) as Hr by lia;
  assert (c = 0 ∨ c = 1 ∨ c = 2) as Hc by lia;
  destruct Hr as [->|[->| ->]]; destruct Hc as [->|[->| ->]].

Lemma full_grid_consistent live trace pop :
  1 < live → pop = 9 →
  consistent (mkModel 3 3 live true trace (full_grid live) pop 9).
Proof.
  intros ? ->. split; simpl.
  - done.
  - unfold cells_in_range. simpl. repeat constructor; lia.
  - unfold population_ok. simpl.
    rewrite live_cells_sum. cbn [sumZ foldr full_grid].
    rewrite !live_in_row_sum. cbn [sumZ foldr].
    rewrite !is_live_same. done.
  - intros i j v Hv Hout.
    destruct i as [|[|[|i]]]; destruct j as [|[|[|j]]];
      simpl in *; simplify_eq; lia.
Qed.

Lemma blinker_consistent live row trace :
  1 < live → 0 ≤ row < 3 → consistent (blinker live row trace).
Proof.
  intros ??. assert (row = 0 ∨ row = 1 ∨ row = 2) as [->|[->| ->]] by lia.
  all: unfold blinker, blinker_row; decide_tests.
  all: split; simpl;
    [ done
    | unfold cells_in_range; simpl; repeat constructor; lia
    | unfold population_ok; simpl;
      rewrite live_cells_sum; cbn [sumZ foldr];
      rewrite !live_in_row_sum; cbn [sumZ foldr];
      rewrite !is_live_same, !(is_live_other live 0) by lia; done
    | intros i j v Hv Hout;
      destruct i as [|[|[|i]]]; destruct j as [|[|[|j]]];
      simpl in *; simplify_eq; lia ].
Qed.

Lemma blinker_shape live row tr : shape_ok (blinker live row tr).
Proof.
  split_and!; simpl; [lia..|].
  unfold blinker_row. by repeat case_bool_decide.
Qed.

Lemma live_cells_full_grid live : live_cells live (full_grid live) = 9.
Proof.
  rewrite live_cells_sum. cbn [sumZ foldr full_grid].
  rewrite !live_in_row_sum. cbn [sumZ foldr].
  by rewrite !is_live_same.
Qed.

Lemma live_cells_full_grid_other live v :
  v ≠ live → live_cells live (full_grid v) = 0.
Proof.
  intros. apply live_cells_none. unfold full_grid. by repeat constructor.
Qed.

Ltac eval_cell :=
  count_offsets; cbn [live_state trace];
  rewrite ?is_live_same, ?(is_live_other _ 0) by lia;
  unfold next_state, alive_next; cbn [live_state trace];
  decide_tests.

Lemma blinker_first_step live row tr :
  1 < live → 0 ≤ row < 3 →
  step (blinker live row tr)
  = Some (mkModel 3 3 live true tr (full_grid live) 9 9).
Proof.
  intros ??.
  rewrite (step_result _ (full_grid live));
    [|by apply blinker_consistent|apply blinker_shape|done|].
  - unfold with_cells. simpl. by rewrite live_cells_full_grid.
  - assert (row = 0 ∨ row = 1 ∨ row = 2) as [->|[->| ->]] by lia.
    all: intros r c u ?? Hu; simpl in *; each_cell r c.
    all: unfold blinker, blinker_row in *.
    all: vm_compute in Hu; injection Hu as <-.
    all: eval_cell; reflexivity.
Qed.

Lemma blinker_second_step live tr :
  1 < live →
  step (mkModel 3 3 live true tr (full_grid live) 9 9)
  = Some (mkModel 3 3 live true tr
            (full_grid (if tr then live - 1 else 0)) 0 9).
Proof.
  intros ?.
  rewrite (step_result _ (full_grid (if tr then live - 1 else 0)));
    [|by apply full_grid_consistent|by split_and!|done|].
  - unfold with_cells. simpl.
    rewrite live_cells_full_grid_other; [done|]. destruct tr; lia.
  - intros r c u ?? Hu; simpl in *; each_cell r c.
    all: vm_compute in Hu; injection Hu as <-.
    all: eval_cell; destruct tr; simpl; decide_tests; simpl;
      rewrite ?Z.max_l by lia; reflexivity.
Qed.

(** C3, as the specification states it, fails: the blinker on the wrapped
    3 by 3 grid is not back after two steps. *)
Lemma blinker_counterexample :
  let m0 := mkModel 3 3 4 true false [[0; 0; 0]; [4; 4; 4]; [0; 0; 0]] 3 9 in
  set_cells_state [(1, 0); (1, 1); (1, 2)] true (init 3 3 4 true false)
  = Some m0
  ∧ ¬ ∃ m1 m2, step m0 = Some m1 ∧ step m1 = Some m2
               ∧ cell_states m2 = cell_states m0.
Proof.
  split; [reflexivity|]. intros (m1 & m2 & H1 & H2 & H3).
  vm_compute in H1. injection H1 as <-.
  vm_compute in H2. injection H2 as <-. discriminate H3.
Qed.

(** C3, amended. On the wrapped 3 by 3 grid every cell is a neighbor of
    every other: from three live cells in one row the first [step] makes
    all nine cells alive, and the second leaves none alive (every cell is
    [0] without trace and [live_state - 1] with it, [population] is 0):
    the grid is not back to the blinker. *)
Theorem blinker_two_steps live row tr :
  1 < live → 0 ≤ row < 3 →
  ∃ m1 m2,
    step (blinker live row tr) = Some m1 ∧ step m1 = Some m2
    ∧ cell_states m1 = full_grid live ∧ population m1 = 9
    ∧ cell_states m2 = full_grid (if tr then live - 1 else 0)
    ∧ population m2 = 0
    ∧ cell_states m2 ≠ cell_states (blinker live row tr).
Proof.
  intros ??. eexists _, _. split; [by apply blinker_first_step|].
  split; [by apply blinker_second_step|]. split_and!; simpl; [done..|].
  assert (row = 0 ∨ row = 1 ∨ row = 2) as [->|[->| ->]] by lia.
  all: unfold blinker_row, full_grid; decide_tests.
  all: intros [=]; destruct tr; lia.
Qed.

Lemma blinker_two_steps_witness :
  ∃ m1 m2,
    step (blinker 4 1 false) = Some m1 ∧ step m1 = Some m2
    ∧ cell_states m1 = full_grid 4 ∧ population m1 = 9
    ∧ cell_states m2 = full_grid 0
    ∧ population m2 = 0
    ∧ cell_states m2 ≠ cell_states (blinker 4 1 false).
Proof. apply (blinker_two_steps 4 1 false); lia. Defined.

Lemma resolve_Some w n x y : resolve w n x = Some y ↔ resolved w n x y.
Proof.
  unfold resolve, resolved. case_bool_decide.
  - split; [intros [= <-]; by left|]. by intros [[_ ->]|[? _]].
  - destruct w.
    + split; [intros [= <-]; by right|]. by intros [[? _]|(_ & _ & ->)].
    + split; [done|]. by intros [[? _]|(_ & ? & _)].
Qed.

Ltac eval_resolve :=
  repeat match goal with
    | |- context [resolve ?w ?n ?x] =>
        let v := eval vm_compute in (resolve w n x) in
        change (resolve w n x) with v
    end.

(** The count at [(0, 0)] of a 5 by 5 grid whose live cells are exactly
    [(0, 0)] and [(4, 4)]. *)
Lemma corner_count m :
  shape_ok m → num_rows m = 5 → num_cols m = 5 →
  (∀ r c, 0 ≤ r < 5 → 0 ≤ c < 5 →
          get2 (cell_states m) r c = Some (live_state m) ↔
          (r = 0 ∧ c = 0) ∨ (r = 4 ∧ c = 4)) →
  count_live_neighbors m 0 0 = Some (if wrap m then 1 else 0).
Proof.
  intros Hs Hr Hc Hlive.
  rewrite count_live_neighbors_spec by (done || lia). f_equal.
  unfold live_neighbor_count, moore_offsets, neighbor_counts.
  cbn [sumZ foldr fst snd]. rewrite Hr, Hc.
  destruct (wrap m); eval_resolve; cbn iota beta.
  all: repeat match goal with
    | |- context [bool_decide (get2 _ ?r ?c = _)] =>
        rewrite (bool_decide_ext _ _ (Hlive r c ltac:(lia) ltac:(lia)))
    end.
  all: by decide_tests.
Qed.

(** C4. The neighbor counter returns the number of Moore offsets whose
    neighbor counts; the row and the column of a neighbor are resolved
    independently (in bounds: kept; out of bounds: the neighbor is skipped
    without wrap, the coordinate is reduced modulo the dimension, into
    [0, dimension), with wrap), and a resolved neighbor counts exactly
    when its cell holds [live_state], whatever else the other cells
    hold.  On a 5 by 5 grid whose live cells are exactly [(0, 0)] and
    [(4, 4)], the count at [(0, 0)] is 1 with wrap and 0 without. *)
Theorem neighbor_counter m row col m5 :
  shape_ok m → 0 ≤ row < num_rows m → 0 ≤ col < num_cols m →
  shape_ok m5 → num_rows m5 = 5 → num_cols m5 = 5 →
  (∀ r c, 0 ≤ r < 5 → 0 ≤ c < 5 →
          get2 (cell_states m5) r c = Some (live_state m5) ↔
          (r = 0 ∧ c = 0) ∨ (r = 4 ∧ c = 4)) →
  count_live_neighbors m row col
  = Some (sumZ (λ d, Z.b2z (neighbor_counts m row col d)) moore_offsets)
  ∧ (∀ d, neighbor_counts m row col d = true ↔
          ∃ nr nc, resolved (wrap m) (num_rows m) (row + d.1) nr
                   ∧ resolved (wrap m) (num_cols m) (col + d.2) nc
                   ∧ get2 (cell_states m) nr nc = Some (live_state m))
  ∧ (∀ x nr, resolved (wrap m) (num_rows m) x nr → 0 ≤ nr < num_rows m)
  ∧ (∀ x nc, resolved (wrap m) (num_cols m) x nc → 0 ≤ nc < num_cols m)
  ∧ count_live_neighbors m5 0 0 = Some (if wrap m5 then 1 else 0).
Proof.
  intros Hs ?? Hs5 Hr5 Hc5 Hlive5. split_and!.
  - apply count_live_neighbors_spec; [done|lia..].
  - intros d. unfold neighbor_counts. split.
    + destruct (resolve _ _ (row + d.1)) as [nr|] eqn:Hr; [|done].
      destruct (resolve _ _ (col + d.2)) as [nc|] eqn:Hc; [|done].
      intros ?%bool_decide_eq_true. exists nr, nc.
      by rewrite <-!resolve_Some.
    + intros (nr & nc & Hr%resolve_Some & Hc%resolve_Some & ?).
      rewrite Hr, Hc. by apply bool_decide_eq_true.
  - intros x nr Hr%resolve_Some. eapply resolve_bounds; [|done]. lia.
  - intros x nc Hc%resolve_Some. eapply resolve_bounds; [|done]. lia.
  - by apply corner_count.
Qed.

Lemma corner_pair_live w t r c :
  0 ≤ r < 5 → 0 ≤ c < 5 →
  get2 (cell_states (corner_pair 4 w t)) r c
  = Some (live_state (corner_pair 4 w t)) ↔
  (r = 0 ∧ c = 0) ∨ (r = 4 ∧ c = 4).
Proof.
  intros ??.
  assert (r = 0 ∨ r = 1 ∨ r = 2 ∨ r = 3 ∨ r = 4)
    as [->|[->|[->|[->| ->]]]] by lia;
    assert (c = 0 ∨ c = 1 ∨ c = 2 ∨ c = 3 ∨ c = 4)
      as [->|[->|[->|[->| ->]]]] by lia;
    vm_compute; split; first [done|lia|intros; exfalso; lia].
Qed.

Lemma neighbor_counter_witness :
  let m := corner_pair 4 true false in
  count_live_neighbors m 0 0
  = Some (sumZ (λ d, Z.b2z (neighbor_counts m 0 0 d)) moore_offsets)
  ∧ (∀ d, neighbor_counts m 0 0 d = true ↔
          ∃ nr nc, resolved (wrap m) (num_rows m) (0 + d.1) nr
                   ∧ resolved (wrap m) (num_cols m) (0 + d.2) nc
                   ∧ get2 (cell_states m) nr nc = Some (live_state m))
  ∧ (∀ x nr, resolved (wrap m) (num_rows m) x nr → 0 ≤ nr < num_rows m)
  ∧ (∀ x nc, resolved (wrap m) (num_cols m) x nc → 0 ≤ nc < num_cols m)
  ∧ count_live_neighbors (corner_pair 4 false false) 0 0
    = Some (if wrap (corner_pair 4 false false) then 1 else 0).
Proof.
  apply (neighbor_counter (corner_pair 4 true false) 0 0
           (corner_pair 4 false false)).
  - split_and!; simpl; [lia..|reflexivity].
  - simpl; lia.
  - simpl; lia.
  - split_and!; simpl; [lia..|reflexivity].
  - reflexivity.
  - reflexivity.
  - intros r c. apply corner_pair_live.
Defined.

(** C5. A cell that the rule does not make alive and that is not [0]
    gets [max (value - 1) 1] when trace is on, which is never [0], and [0]
    when trace is off.  With [live_state = 4] a lone dying cell holds
    4, 3, 2, 1, 1, 1 over the generations. *)
Theorem fade_rule m :
  shape_ok m →
  ∃ m', step m = Some m'
    ∧ (∀ row col u n,
         0 ≤ row < num_rows m → 0 ≤ col < num_cols m →
         get2 (cell_states m) row col = Some u →
         count_live_neighbors m row col = Some n →
         alive_next (live_state m) u n = false → u ≠ 0 →
         get2 (cell_states m') row col
         = Some (if trace m then Z.max (u - 1) 1 else 0)
         ∧ 1 ≤ Z.max (u - 1) 1)
    ∧ (λ k, m ← steps k lone_cell; get2 (cell_states m) 1 1)
        <$> [0; 1; 2; 3; 4; 5]%nat
      = [Some 4; Some 3; Some 2; Some 1; Some 1; Some 1].
Proof.
  intros Hs. destruct (step_total m Hs) as (m' & Hrun & _). exists m'.
  split; [done|]. split; [|by vm_compute].
  apply step_Some in Hrun as (cs & pop & -> & _ & Hcells).
  intros row col u n ?? Hu Hn Hdead Hnz. split; [|lia].
  destruct (Hcells row col) as (u' & n' & Hu' & Hn' & Hv); [done..|].
  simpl. rewrite Hv. simplify_eq/=. unfold next_state. rewrite Hdead.
  rewrite bool_decide_false by done. by destruct (trace m).
Qed.

Lemma fade_rule_witness :
  ∃ m', step lone_cell = Some m'
    ∧ (∀ row col u n,
         0 ≤ row < num_rows lone_cell → 0 ≤ col < num_cols lone_cell →
         get2 (cell_states lone_cell) row col = Some u →
         count_live_neighbors lone_cell row col = Some n →
         alive_next (live_state lone_cell) u n = false → u ≠ 0 →
         get2 (cell_states m') row col
         = Some (if trace lone_cell then Z.max (u - 1) 1 else 0)
         ∧ 1 ≤ Z.max (u - 1) 1)
    ∧ (λ k, m ← steps k lone_cell; get2 (cell_states m) 1 1)
        <$> [0; 1; 2; 3; 4; 5]%nat
      = [Some 4; Some 3; Some 2; Some 1; Some 1; Some 1].
Proof.
  apply (fade_rule lone_cell).
  split_and!; simpl; [lia..|reflexivity].
Defined.

(** C7. Disabling the trace clears the fading cells and nothing else:
    [trace] becomes false, a cell strictly between [0] and [live_state]
    becomes [0], a cell at [live_state] or at [0] keeps its value, and
    [population] is unchanged; a cell holding the fade value [1] is [0]
    afterwards. *)
Theorem toggle_trace_collapse m :
  shape_ok m → trace m = true →
  ∃ m', toggle_trace m = Some m'
    ∧ trace m' = false
    ∧ population m' = population m
    ∧ (∀ row col, 0 ≤ row < num_rows m → 0 ≤ col < num_cols m →
         ∃ u, get2 (cell_states m) row col = Some u
              ∧ (0 < u < live_state m →
                 get2 (cell_states m') row col = Some 0)
              ∧ (u = live_state m ∨ u = 0 →
                 get2 (cell_states m') row col = Some u))
    ∧ toggle_trace
        (mkModel 3 3 4 false true [[0; 0; 0]; [0; 1; 0]; [0; 0; 0]] 0 9)
      = Some (mkModel 3 3 4 false false
                      [[0; 0; 0]; [0; 0; 0]; [0; 0; 0]] 0 9).
Proof.
  intros Hs Htr. destruct (toggle_trace_total m Hs) as (m' & Hrun & _).
  exists m'. split; [done|].
  apply toggle_trace_off in Hrun as (cs & -> & _ & Hvis & _); [|done].
  simpl. split_and!; [done..| |reflexivity].
  intros row col ??. destruct (Hvis row col) as (u & Hu & ->); [done..|].
  exists u. split; [done|]. unfold collapse.
  split; intros ?; f_equal; case_bool_decide; lia.
Qed.

Lemma toggle_trace_collapse_witness :
  let m := mkModel 3 3 4 false true [[0; 0; 0]; [0; 1; 0]; [0; 0; 0]] 0 9 in
  ∃ m', toggle_trace m = Some m'
    ∧ trace m' = false
    ∧ population m' = population m
    ∧ (∀ row col, 0 ≤ row < num_rows m → 0 ≤ col < num_cols m →
         ∃ u, get2 (cell_states m) row col = Some u
              ∧ (0 < u < live_state m →
                 get2 (cell_states m') row col = Some 0)
              ∧ (u = live_state m ∨ u = 0 →
                 get2 (cell_states m') row col = Some u))
    ∧ toggle_trace
        (mkModel 3 3 4 false true [[0; 0; 0]; [0; 1; 0]; [0; 0; 0]] 0 9)
      = Some (mkModel 3 3 4 false false
                      [[0; 0; 0]; [0; 0; 0]; [0; 0; 0]] 0 9).
Proof.
  apply toggle_trace_collapse.
  - split_and!; simpl; [lia..|reflexivity].
  - reflexivity.
Defined.

(** What a resize returns on a consistent grid of the right shape. *)
Lemma adjust_grid_size_spec new_rows new_cols m :
  consistent m → shape_ok m → 0 ≤ new_rows → 0 ≤ new_cols →
  ∃ cs,
    adjust_grid_size new_rows new_cols m
    = Some (mkModel new_rows new_cols (live_state m) (wrap m) (trace m) cs
                    (live_cells (live_state m) cs) (new_rows * new_cols))
    ∧ dims cs = replicate (Z.to_nat new_rows) (Z.to_nat new_cols)
    ∧ ∀ row col, 0 ≤ row < new_rows → 0 ≤ col < new_cols →
        get2 cs row col
        = if bool_decide (row < num_rows m ∧ col < num_cols m)
          then get2 (cell_states m) row col else Some 0.
Proof.
  intros Hm Hs ??.
  destruct (adjust_grid_size_total new_rows new_cols m)
    as (m' & Hrun & Hs'); [done..|].
  assert (consistent m') as [_ _ Hpop _]
    by by apply (adjust_grid_size_consistent new_rows new_cols m).
  assert (∀ i j v, cell (cell_states m') i j = Some v →
                   v = default 0 (cell (cell_states m) i j)) as Hcell
    by (intros i j v; by apply (adjust_grid_size_cell new_rows new_cols)).
  pose proof Hrun as (s1 & cs & pop & _ & _ & ->)%adjust_grid_size_phases.
  unfold population_ok in Hpop. simpl in *. subst pop.
  exists cs. split; [done|]. destruct Hs' as (_ & _ & Hd). simpl in Hd.
  split; [done|]. intros row col ??.
  destruct (shape_get2 cs _ _ row col Hd) as [_ [v Hv]]; [lia..|].
  rewrite Hv. rewrite get2_nonneg in Hv by lia. apply Hcell in Hv.
  rewrite <-get2_nonneg in Hv by lia. subst v.
  case_bool_decide as Hin.
  - destruct (shape_ok_get2 m row col) as [u ->]; [done|lia..|done].
  - destruct (get2 (cell_states m) row col) as [u|] eqn:Hu; [|done].
    apply shape_ok_visible in Hu; [lia|done|lia..].
Qed.

Lemma corner_cell_consistent live w t :
  1 < live → consistent (corner_cell live w t).
Proof.
  intros. split; simpl.
  - done.
  - unfold cells_in_range. simpl. repeat constructor; lia.
  - unfold population_ok. simpl.
    rewrite live_cells_sum. cbn [sumZ foldr].
    rewrite !live_in_row_sum. cbn [sumZ foldr].
    rewrite !is_live_same, !(is_live_other live 0) by lia. done.
  - intros i j v Hv Hout.
    destruct i as [|[|[|[|i]]]]; destruct j as [|[|[|[|j]]]];
      simpl in *; simplify_eq; lia.
Qed.

Lemma shape_get2_None (g : grid) (rows cols : nat) r c :
  dims g = replicate rows cols → 0 ≤ r → 0 ≤ c →
  ¬ (r < Z.of_nat rows ∧ c < Z.of_nat cols) → get2 g r c = None.
Proof.
  intros Hd ???. apply eq_None_not_Some. intros Hsome.
  by apply (shape_get2 _ _ _ r c Hd) in Hsome.
Qed.

Lemma resize_example live w t :
  1 < live →
  adjust_grid_size 2 2 (corner_cell live w t) = Some (init 2 2 live w t)
  ∧ adjust_grid_size 4 4 (init 2 2 live w t) = Some (init 4 4 live w t).
Proof.
  intros. split.
  - destruct (adjust_grid_size_spec 2 2 (corner_cell live w t))
      as (cs & -> & Hd & Hcells); [by apply corner_cell_consistent| |lia..|].
    { split_and!; simpl; [lia..|reflexivity]. }
    assert (cs = dead_grid 2 2) as ->.
    { apply grid_ext_get2; [by rewrite dims_dead_grid|]. intros r c ??.
      destruct (decide (r < 2 ∧ c < 2)) as [[??]|].
      - rewrite Hcells, get2_dead_grid by lia.
        assert (r = 0 ∨ r = 1) as [->| ->] by lia;
          assert (c = 0 ∨ c = 1) as [->| ->] by lia; reflexivity.
      - rewrite (shape_get2_None cs _ _ r c Hd) by (done || lia).
        symmetry. apply (shape_get2_None _ _ _ r c (dims_dead_grid _ _));
          (done || lia). }
    unfold init. simpl. do 2 f_equal. apply live_cells_none.
    repeat constructor; lia.
  - destruct (adjust_grid_size_spec 4 4 (init 2 2 live w t))
      as (cs & -> & Hd & Hcells);
      [by apply init_consistent|by apply init_shape|lia..|].
    assert (cs = dead_grid 4 4) as ->.
    { apply grid_ext_get2; [by rewrite dims_dead_grid|]. intros r c ??.
      destruct (decide (r < 4 ∧ c < 4)) as [[??]|].
      - rewrite Hcells, get2_dead_grid by lia. simpl.
        case_bool_decide; [|done]. by rewrite get2_dead_grid by lia.
      - rewrite (shape_get2_None cs _ _ r c Hd) by (done || lia).
        symmetry. apply (shape_get2_None _ _ _ r c (dims_dead_grid _ _));
          (done || lia). }
    unfold init. simpl. do 2 f_equal. apply live_cells_none.
    repeat constructor; lia.
Qed.

(** C6. A resize to dimensions that are not negative keeps every cell
    whose coordinates are valid before and after, gives [0] to every new
    cell, lowers [population] by the number of live cells among the
    dropped ones, so that [population] still counts the live cells, and
    sets [total_cells] to the product of the new dimensions.  On the
    4 by 4 grid with only [(3, 3)] alive, shrinking to 2 by 2 gives the
    all-dead 2 by 2 grid with [population] 0, and growing back gives the
    all-dead 4 by 4 grid. *)
Theorem resize_preserves new_rows new_cols m live w t :
  consistent m → shape_ok m → 0 ≤ new_rows → 0 ≤ new_cols → 1 < live →
  (∃ m', adjust_grid_size new_rows new_cols m = Some m'
     ∧ num_rows m' = new_rows ∧ num_cols m' = new_cols
     ∧ total_cells m' = new_rows * new_cols
     ∧ dims (cell_states m')
       = replicate (Z.to_nat new_rows) (Z.to_nat new_cols)
     ∧ (∀ row col, 0 ≤ row < new_rows → 0 ≤ col < new_cols →
          get2 (cell_states m') row col
          = if bool_decide (row < num_rows m ∧ col < num_cols m)
            then get2 (cell_states m) row col else Some 0)
     ∧ population m'
       = population m
         - live_cells (live_state m)
             (dropped_cells new_rows new_cols (cell_states m))
     ∧ population m' = live_cells (live_state m') (cell_states m'))
  ∧ population (corner_cell live w t) = 1
  ∧ adjust_grid_size 2 2 (corner_cell live w t)
    = Some (mkModel 2 2 live w t [[0; 0]; [0; 0]] 0 4)
  ∧ adjust_grid_size 4 4 (mkModel 2 2 live w t [[0; 0]; [0; 0]] 0 4)
    = Some (mkModel 4 4 live w t
              [[0; 0; 0; 0]; [0; 0; 0; 0]; [0; 0; 0; 0]; [0; 0; 0; 0]] 0 16).
Proof.
  intros Hm Hs ???. split; [|split; [done|by apply resize_example]].
  destruct (adjust_grid_size_spec new_rows new_cols m)
    as (cs & Hrun & Hd & Hcells); [done..|].
  eexists. split; [exact Hrun|]. split_and!; [done..| |done].
  apply (adjust_grid_size_population new_rows new_cols m);
    [destruct Hm; lia|done..].
Qed.

Lemma resize_preserves_witness :
  (∃ m', adjust_grid_size 2 2 (corner_cell 4 true false) = Some m'
     ∧ num_rows m' = 2 ∧ num_cols m' = 2
     ∧ total_cells m' = 2 * 2
     ∧ dims (cell_states m') = replicate (Z.to_nat 2) (Z.to_nat 2)
     ∧ (∀ row col, 0 ≤ row < 2 → 0 ≤ col < 2 →
          get2 (cell_states m') row col
          = if bool_decide (row < num_rows (corner_cell 4 true false)
                            ∧ col < num_cols (corner_cell 4 true false))
            then get2 (cell_states (corner_cell 4 true false)) row col
            else Some 0)
     ∧ population m'
       = population (corner_cell 4 true false)
         - live_cells (live_state (corner_cell 4 true false))
             (dropped_cells 2 2 (cell_states (corner_cell 4 true false)))
     ∧ population m' = live_cells (live_state m') (cell_states m'))
  ∧ population (corner_cell 4 true false) = 1
  ∧ adjust_grid_size 2 2 (corner_cell 4 true false)
    = Some (mkModel 2 2 4 true false [[0; 0]; [0; 0]] 0 4)
  ∧ adjust_grid_size 4 4 (mkModel 2 2 4 true false [[0; 0]; [0; 0]] 0 4)
    = Some (mkModel 4 4 4 true false
              [[0; 0; 0; 0]; [0; 0; 0; 0]; [0; 0; 0; 0]; [0; 0; 0; 0]] 0 16).
Proof.
  apply (resize_preserves 2 2 (corner_cell 4 true false) 4 true false).
  - apply corner_cell_consistent. lia.
  - split_and!; simpl; [lia..|reflexivity].
  - lia.
  - lia.
  - lia.
Defined.

(** Writing a cell, at any valid subscripts: the written cell holds the
    value, and so does every cell that held it already. *)
Lemma set2_written (g : grid) r c v g' :
  set2 g r c v = Some g' →
  get2 g' r c = Some v
  ∧ ∀ r' c', get2 g r' c' = Some v → get2 g' r' c' = Some v.
Proof.
  intros (i & j & row & u & Hr & Hi & Hc & Hu & ->)%set2_Some.
  assert (i < length g)%nat by by eapply lookup_lt_Some.
  assert (j < length row)%nat by by eapply lookup_lt_Some.
  split.
  - apply get2_Some. exists i, j, (<[j:=v]> row). split_and!.
    + rewrite <-Hr. apply index_length. by rewrite length_insert.
    + by apply list_lookup_insert_eq.
    + rewrite <-Hc. apply index_length. by rewrite length_insert.
    + by apply list_lookup_insert_eq.
  - intros r' c' (i' & j' & row' & Hr' & Hi' & Hc' & Hu')%get2_Some.
    apply get2_Some. destruct (decide (i' = i)) as [->|].
    + simplify_eq. exists i, j', (<[j:=v]> row). split_and!.
      * rewrite <-Hr'. apply index_length. by rewrite length_insert.
      * by apply list_lookup_insert_eq.
      * rewrite <-Hc'. apply index_length. by rewrite length_insert.
      * destruct (decide (j' = j)) as [->|].
        -- by apply list_lookup_insert_eq.
        -- by rewrite list_lookup_insert_ne.
    + exists i', j', row'. split_and!; [|by rewrite list_lookup_insert_ne|done..].
      rewrite <-Hr'. apply index_length. by rewrite length_insert.
Qed.

Lemma set_cell_written state cell m m' :
  set_cell state cell m = Some m' →
  target state m' = target state m
  ∧ get2 (cell_states m') cell.1 cell.2 = Some (target state m)
  ∧ ∀ r c, get2 (cell_states m) r c = Some (target state m) →
           get2 (cell_states m') r c = Some (target state m).
Proof.
  intros (u & Hu & [[-> ->]|(_ & cs & Hset & ->)])%set_cell_Some; [done|].
  simpl. split; [done|]. by apply set2_written.
Qed.

Lemma set_cell_same state cell m :
  get2 (cell_states m) cell.1 cell.2 = Some (target state m) →
  set_cell state cell m = Some m.
Proof.
  destruct cell as [r c]. unfold set_cell, target. simpl. intros ->. simpl.
  destruct state; simpl; by rewrite ?bool_decide_true by done.
Qed.

Lemma set_cells_state_written cells state m m' :
  set_cells_state cells state m = Some m' →
  target state m' = target state m
  ∧ (∀ cell, cell ∈ cells →
             get2 (cell_states m') cell.1 cell.2 = Some (target state m))
  ∧ ∀ r c, get2 (cell_states m) r c = Some (target state m) →
           get2 (cell_states m') r c = Some (target state m).
Proof.
  unfold set_cells_state. revert m.
  induction cells as [|cell cells IH]; intros m Hrun; simplify_eq/=.
  { split_and!; [done| |done]. by intros ? ?%elem_of_nil. }
  destruct (set_cell state cell m) as [m1|] eqn:H1; simplify_eq/=.
  apply set_cell_written in H1 as (Ht & Hcell & Hkeep).
  apply IH in Hrun as (Ht' & Hcells & Hkeep'). rewrite Ht in *.
  split_and!; [done| |by auto].
  intros cell' [->|?]%elem_of_cons; auto.
Qed.

Lemma set_cells_state_same cells state m :
  (∀ cell, cell ∈ cells →
           get2 (cell_states m) cell.1 cell.2 = Some (target state m)) →
  set_cells_state cells state m = Some m.
Proof.
  unfold set_cells_state. induction cells as [|cell cells IH]; intros Hall;
    simpl; [done|].
  rewrite set_cell_same by (apply Hall; left). simpl.
  apply IH. intros; apply Hall. by right.
Qed.

(** C8. [set_cells_state] is idempotent: on coordinates in range the call
    returns, and the same call on the state it returned returns that
    state again, grid and population included. *)
Theorem set_cells_state_idempotent cells state m :
  shape_ok m → Forall (in_grid m) cells →
  ∃ m1, set_cells_state cells state m = Some m1
        ∧ set_cells_state cells state m1 = Some m1.
Proof.
  intros Hs Hin.
  destruct (set_cells_state_total cells state m Hs Hin) as (m1 & Hrun & _).
  exists m1. split; [done|].
  apply set_cells_state_written in Hrun as (Ht & Hcells & _).
  apply set_cells_state_same. intros cell ?. rewrite Ht. auto.
Qed.

Lemma set_cells_state_idempotent_witness :
  ∃ m1, set_cells_state [(1, 1); (0, 2); (1, 1)] true (init 3 3 4 true false)
        = Some m1
        ∧ set_cells_state [(1, 1); (0, 2); (1, 1)] true m1 = Some m1.
Proof.
  apply set_cells_state_idempotent.
  - apply init_shape; lia.
  - repeat constructor; simpl; lia.
Defined.

(** C9. Resizing a consistent grid to 0 by 0 returns the empty grid with
    [rows = cols = total_cells = population = 0]; on it [step], [clear]
    and [randomize] return, leaving it as it is: nothing raises, so no
    division or modulo by zero takes place. *)
Theorem resize_to_empty m :
  consistent m → shape_ok m →
  let empty :=
    mkModel 0 0 (live_state m) (wrap m) (trace m) [] 0 0 in
  adjust_grid_size 0 0 m = Some empty
  ∧ step empty = Some empty
  ∧ clear empty = Some empty
  ∧ ∀ bits, randomize bits empty = Some empty.
Proof.
  intros Hm Hs. split; [|done].
  destruct (adjust_grid_size_spec 0 0 m) as (cs & -> & Hd & _); [done..|].
  by destruct cs.
Qed.

Lemma resize_to_empty_witness :
  let empty := mkModel 0 0 4 true false [] 0 0 in
  adjust_grid_size 0 0 (corner_cell 4 true false) = Some empty
  ∧ step empty = Some empty
  ∧ clear empty = Some empty
  ∧ ∀ bits, randomize bits empty = Some empty.
Proof.
  apply (resize_to_empty (corner_cell 4 true false)).
  - apply corner_cell_consistent. lia.
  - split_and!; simpl; [lia..|reflexivity].
Defined.

(** C10. With wrap the eight offsets are resolved one by one, so on a
    dimension smaller than 3 the offsets [-1] and [+1] resolve to the same
    coordinate, and on a 1 by 1 grid every offset resolves to the single
    cell: a live cell is counted eight times as its own neighbor. *)
Theorem self_neighbor live t pop total :
  (∀ n x, 0 < n < 3 → 0 ≤ x < n →
          resolve true n (x + -1) = resolve true n (x + 1))
  ∧ (∀ d, d ∈ moore_offsets →
          resolve true 1 (0 + d.1) = Some 0 ∧ resolve true 1 (0 + d.2) = Some 0)
  ∧ count_live_neighbors (mkModel 1 1 live true t [[live]] pop total) 0 0
    = Some 8.
Proof.
  split_and!.
  - intros n x ??.
    assert (n = 1 ∧ x = 0 ∨ n = 2 ∧ x = 0 ∨ n = 2 ∧ x = 1)
      as [[-> ->]|[[-> ->]|[-> ->]]] by lia; reflexivity.
  - intros d Hd. unfold moore_offsets in Hd.
    repeat (apply elem_of_cons in Hd as [->|Hd]; [done|]).
    by apply elem_of_nil in Hd.
  - rewrite count_live_neighbors_spec; [|by split_and!|done..].
    f_equal. count_offsets. cbn [live_state].
    by rewrite !is_live_same.
Qed.

(** ** Further properties of the model *)

Lemma sample_consistent : consistent sample.
Proof.
  split.
  - simpl. lia.
  - repeat constructor; simpl; lia.
  - reflexivity.
  - intros i j v Hv Hout.
    destruct i as [|[|i]]; [| |done];
      (destruct j as [|[|[|j]]]; [| | |done]); simpl in *; lia.
Qed.

Lemma sample_shape : shape_ok sample.
Proof. split_and!; [simpl; lia..|reflexivity]. Qed.

(** *** No trace value while the trace is off *)

Lemma step_no_fading m m' :
  trace m = false → step m = Some m' → no_fading m'.
Proof.
  intros Ht (cs & pop & -> & Hdims & Hcells)%step_Some.
  apply Forall_get2. simpl. intros r c v ?? Hv.
  assert (is_Some (get2 cs r c)) as Hin by eauto.
  apply (shape_get2 _ _ _ _ _ Hdims) in Hin; [|done..].
  destruct (Hcells r c) as (u & n & _ & _ & Hnew); [lia..|].
  rewrite Hnew in Hv. simplify_eq. unfold next_state. rewrite Ht. simpl.
  destruct (alive_next _ _ _); auto.
Qed.

Lemma randomize_no_fading bits m m' :
  consistent m → randomize bits m = Some m' → no_fading m'.
Proof.
  intros [Hlive _ _ Hhid] Hrun.
  destruct (randomize_Some bits m m') as (cs & -> & _ & Hin & Hout);
    [lia|done|].
  apply Forall_get2. simpl. intros r c v ?? Hv.
  destruct (decide (r < num_rows m ∧ c < num_cols m)) as [?|Hno].
  - destruct (Hin r c) as [Hc|Hc]; [lia..| |]; rewrite Hc in Hv;
      simplify_eq; auto.
  - rewrite Hout in Hv by done. left.
    apply (proj1 (hidden_dead_get2 _ _ _) Hhid r c v); [done..|lia].
Qed.

Lemma clear_no_fading m m' : consistent m → clear m = Some m' → no_fading m'.
Proof.
  intros [_ _ _ Hhid] Hrun. unfold no_fading.
  eapply Forall_cells_impl; [by eapply clear_all_dead|]. simpl. auto.
Qed.

Lemma set_cells_state_Forall (P : Z → Prop) cells state m m' :
  P (target state m) → Forall (Forall P) (cell_states m) →
  set_cells_state cells state m = Some m' → Forall (Forall P) (cell_states m').
Proof.
  unfold set_cells_state. revert m.
  induction cells as [|cell cells IH]; intros m Ht Hm Hrun; simpl in Hrun.
  { by simplify_eq. }
  destruct (set_cell state cell m) as [m1|] eqn:H1; [|done]. simpl in Hrun.
  destruct (set_cell_written _ _ _ _ H1) as (Ht1 & _).
  apply (IH m1); [by rewrite Ht1| |done].
  apply set_cell_Some in H1 as (u & _ & [[_ ->]|(_ & cs & Hset & ->)]); [done|].
  simpl. by eapply set2_Forall.
Qed.

Lemma set_cells_state_no_fading cells state m m' :
  no_fading m → set_cells_state cells state m = Some m' → no_fading m'.
Proof.
  intros Hm Hrun. unfold no_fading.
  destruct (set_cells_state_fields _ _ _ _ Hrun) as (_ & _ & -> & _).
  eapply set_cells_state_Forall; [|done..].
  destruct state; simpl; auto.
Qed.

Lemma toggle_trace_no_fading m m' :
  consistent m → toggle_trace m = Some m' → trace m' = false → no_fading m'.
Proof.
  intros [Hlive Hrange _ Hhid] Hrun Ht'.
  destruct (trace m) eqn:Ht.
  - destruct (toggle_trace_off m m' Ht Hrun) as (cs & -> & _ & Hin & Hout).
    apply Forall_get2. simpl. intros r c v ?? Hv.
    destruct (decide (r < num_rows m ∧ c < num_cols m)) as [?|Hno].
    + destruct (Hin r c) as (u & Hu & Hnew); [lia..|].
      rewrite Hnew in Hv. simplify_eq.
      pose proof (proj1 (Forall_get2 _ _) Hrange r c u) as Hr. simpl in Hr.
      specialize (Hr H H0 Hu). unfold collapse. case_bool_decide; [auto|]. right. lia.
    + rewrite Hout in Hv by done. left.
      apply (proj1 (hidden_dead_get2 _ _ _) Hhid r c v); [done..|lia].
  - rewrite (toggle_trace_on m Ht) in Hrun. by simplify_eq.
Qed.

Lemma adjust_grid_size_fields new_rows new_cols m m' :
  adjust_grid_size new_rows new_cols m = Some m' →
  num_rows m' = new_rows ∧ num_cols m' = new_cols
  ∧ live_state m' = live_state m ∧ wrap m' = wrap m ∧ trace m' = trace m
  ∧ total_cells m' = new_rows * new_cols.
Proof.
  intros (s1 & cs & pop & _ & _ & ->)%adjust_grid_size_phases. done.
Qed.

Lemma adjust_grid_size_no_fading new_rows new_cols m m' :
  0 ≤ new_rows → 0 ≤ new_cols → no_fading m →
  adjust_grid_size new_rows new_cols m = Some m' → no_fading m'.
Proof.
  intros ?? Hm Hrun. unfold no_fading.
  destruct (adjust_grid_size_fields _ _ _ _ Hrun) as (_ & _ & -> & _).
  apply Forall_cells. intros i j v Hv.
  rewrite (adjust_grid_size_cell _ _ _ _ _ _ _ H H0 Hrun Hv).
  destruct (cell (cell_states m) i j) as [u|] eqn:Hu; simpl; [|auto].
  by apply (proj1 (Forall_cells _ _) Hm i j u).
Qed.

Lemma exec_trace_off o m m' :
  consistent m → permitted m o → exec o m = Some m' →
  (trace m = false → no_fading m) → trace m' = false → no_fading m'.
Proof.
  intros Hm Hp Hrun Hold Ht'. destruct o; simpl in *.
  - eapply step_no_fading; [|done].
    apply step_Some in Hrun as (? & ? & -> & _). done.
  - by eapply randomize_no_fading.
  - by eapply clear_no_fading.
  - destruct (set_cells_state_fields _ _ _ _ Hrun) as (_ & _ & _ & _ & Ht & _).
    eapply set_cells_state_no_fading; [|done]. apply Hold. congruence.
  - simplify_eq. by apply Hold.
  - by eapply toggle_trace_no_fading.
  - destruct Hp.
    destruct (adjust_grid_size_fields _ _ _ _ Hrun) as (_ & _ & _ & _ & Ht & _).
    apply (adjust_grid_size_no_fading new_num_rows new_num_cols m);
      [done|done| |done].
    apply Hold. congruence.
Qed.

(** X1. While the trace is off no cell holds a trace value: in every state
    a model constructed with [live_state > 1] reaches through permitted
    operations, [trace = False] implies that each cell of the nested list
    is [0] or [live_state]. *)
Theorem trace_off_no_fading rows cols live w t m :
  1 < live → reachable (init rows cols live w t) m →
  trace m = false → no_fading m.
Proof.
  intros Hlive Hreach.
  pose proof (init_consistent rows cols live w t Hlive) as H0.
  induction Hreach as [|m o m' Hreach IH Hp Hrun].
  - intros _. unfold no_fading. simpl.
    apply Forall_cells. intros i j v Hv. left. by eapply cell_dead_grid.
  - eapply exec_trace_off; [|done..]. by eapply reachable_consistent.
Qed.

Lemma trace_off_no_fading_witness :
  no_fading (mkModel 3 3 4 false false [[4; 4; 0]; [4; 0; 4]; [0; 4; 0]] 5 9).
Proof.
  apply (trace_off_no_fading 3 3 4 false true); [lia| |reflexivity].
  apply (reach_op _ (mkModel 3 3 4 false true
                       [[4; 4; 0]; [4; 3; 4]; [0; 4; 3]] 5 9) ToggleTrace).
  - apply (reach_op _ (mkModel 3 3 4 false true
                         [[4; 4; 0]; [4; 4; 0]; [0; 0; 4]] 5 9) Step).
    + apply (reach_op _ (init 3 3 4 false true)
               (SetCellsState [(0, 0); (0, 1); (1, 0); (1, 1); (2, 2)] true)).
      * apply reach_init.
      * simpl. repeat constructor; simpl; lia.
      * reflexivity.
    + exact I.
    + reflexivity.
  - exact I.
  - reflexivity.
Defined.

(** *** The bounds of the population *)

Lemma live_in_row_le live row : live_in_row live row ≤ Z.of_nat (length row).
Proof. unfold live_in_row. pose proof (length_filter (λ v, v = live) row). lia. Qed.

Lemma live_cells_le live (g : grid) rows cols :
  dims g = replicate rows cols →
  live_cells live g ≤ Z.of_nat rows * Z.of_nat cols.
Proof.
  revert rows. induction g as [|row g IH]; intros rows Hd.
  - unfold live_cells. simpl. lia.
  - destruct rows as [|rows]; [done|]. simpl in Hd.
    injection Hd as Hrow Hg. rewrite live_cells_cons.
    specialize (IH rows Hg). pose proof (live_in_row_le live row). lia.
Qed.

Lemma live_cells_nonneg live (g : grid) : 0 ≤ live_cells live g.
Proof. unfold live_cells. lia. Qed.

Lemma exec_fields o m m' :
  exec o m = Some m' →
  live_state m' = live_state m
  ∧ total_cells m' - num_rows m' * num_cols m'
    = match o with
      | AdjustGridSize _ _ => 0
      | _ => total_cells m - num_rows m * num_cols m
      end.
Proof.
  intros Hrun. destruct o; simpl in *.
  - apply step_Some in Hrun as (? & ? & -> & _). done.
  - unfold randomize in Hrun.
    destruct (for_cells _ _ _ _) as [[[cs pop] k]|]; simplify_eq/=. done.
  - unfold clear in Hrun.
    destruct (for_cells _ _ _ _) as [cs|]; simplify_eq/=. done.
  - destruct (set_cells_state_fields _ _ _ _ Hrun)
      as (-> & -> & -> & _ & _ & -> & _). done.
  - by simplify_eq.
  - unfold toggle_trace in Hrun.
    destruct (if negb (negb (trace m)) then _ else _) as [cs|];
      simplify_eq/=. done.
  - destruct (adjust_grid_size_fields _ _ _ _ Hrun)
      as (-> & -> & -> & _ & _ & ->). lia.
Qed.

(** X2. [total_cells] and the bounds of [population]: in every state a
    model constructed with [live_state > 1] and dimensions that are not
    negative reaches through permitted operations, [total_cells] is
    [num_rows * num_cols], the constructor's [live_state] is still the
    model's, and [0 <= population <= total_cells]. *)
Theorem population_bounds rows cols live w t m :
  1 < live → 0 ≤ rows → 0 ≤ cols →
  reachable (init rows cols live w t) m →
  total_cells m = num_rows m * num_cols m
  ∧ live_state m = live
  ∧ 0 ≤ population m ≤ total_cells m.
Proof.
  intros Hlive ?? Hreach.
  assert (total_cells m = num_rows m * num_cols m ∧ live_state m = live)
    as [Htot Hls].
  { induction Hreach as [|m o m' Hreach IH Hp Hrun]; [done|].
    destruct IH as [IH1 IH2].
    destruct (exec_fields _ _ _ Hrun) as [-> Hf]. split; [|done].
    destruct o; lia. }
  split_and!; [done..| |].
  - destruct (reachable_consistent _ _
                (init_consistent rows cols live w t Hlive) Hreach)
      as [_ _ -> _].
    apply live_cells_nonneg.
  - destruct (reachable_consistent _ _
                (init_consistent rows cols live w t Hlive) Hreach)
      as [_ _ -> _].
    destruct (reachable_shape _ _ (init_shape rows cols live w t H H0) Hreach)
      as (? & ? & Hd).
    rewrite Htot. pose proof (live_cells_le (live_state m) _ _ _ Hd). lia.
Qed.

Lemma population_bounds_witness :
  let m := mkModel 2 3 4 false true [[4; 4; 0]; [4; 3; 4]] 4 6 in
  total_cells m = num_rows m * num_cols m
  ∧ live_state m = 4
  ∧ 0 ≤ population m ≤ total_cells m.
Proof.
  apply (population_bounds 3 3 4 false true); [lia..|].
  apply (reach_op _ (mkModel 3 3 4 false true
                       [[4; 4; 0]; [4; 3; 4]; [0; 4; 3]] 5 9)
           (AdjustGridSize 2 3)).
  - apply (reach_op _ (mkModel 3 3 4 false true
                         [[4; 4; 0]; [4; 4; 0]; [0; 0; 4]] 5 9) Step).
    + apply (reach_op _ (init 3 3 4 false true)
               (SetCellsState [(0, 0); (0, 1); (1, 0); (1, 1); (2, 2)] true)).
      * apply reach_init.
      * simpl. repeat constructor; simpl; lia.
      * reflexivity.
    + exact I.
    + reflexivity.
  - simpl. lia.
  - reflexivity.
Defined.

(** *** [clear] and the constructor *)

(** X3. [clear] gives the grid of the constructor: on a model whose nested
    list is [num_rows] rows of [num_cols] cells it returns, the grid is
    the one [Model(num_rows, num_cols, ...)] builds, [population] is [0]
    and the other fields are kept; with [total_cells = num_rows * num_cols]
    the state is the freshly constructed one. *)
Theorem clear_is_init m :
  shape_ok m →
  clear m = Some (with_cells m (dead_grid (num_rows m) (num_cols m)) 0)
  ∧ (total_cells m = num_rows m * num_cols m →
     clear m = Some (init (num_rows m) (num_cols m) (live_state m)
                          (wrap m) (trace m))).
Proof.
  intros Hm.
  assert (clear m = Some (with_cells m (dead_grid (num_rows m) (num_cols m)) 0))
    as Hclear.
  { destruct (clear_total m Hm) as (m' & Hrun & _). rewrite Hrun.
    destruct (clear_Some _ _ Hrun) as (cs & -> & Hd & Hin & Hout).
    do 2 f_equal. destruct Hm as (? & ? & Hshape).
    apply grid_ext_get2.
    { by rewrite Hd, Hshape, dims_dead_grid. }
    intros r c ??.
    destruct (decide (r < num_rows m ∧ c < num_cols m)) as [?|Hno].
    - rewrite Hin, get2_dead_grid by lia. done.
    - rewrite Hout by done.
      rewrite (shape_get2_None _ _ _ r c Hshape),
        (shape_get2_None _ _ _ r c (dims_dead_grid _ _)); [done|lia..]. }
  split; [done|]. intros Htot. rewrite Hclear. unfold with_cells, init.
  by rewrite Htot.
Qed.

Lemma clear_is_init_witness :
  clear sample
  = Some (with_cells sample
            (dead_grid (num_rows sample) (num_cols sample)) 0)
  ∧ (total_cells sample = num_rows sample * num_cols sample →
     clear sample
     = Some (init (num_rows sample) (num_cols sample) (live_state sample)
                  (wrap sample) (trace sample))).
Proof. apply (clear_is_init sample). apply sample_shape. Defined.

(** *** [randomize] and the random source *)

Lemma heads_S bits k : heads bits (S k) = heads bits k + Z.b2z (bits k).
Proof. unfold heads. rewrite seq_S, sumZ_app. simpl. lia. Qed.

(** X4. [randomize] draws one bit per cell in row-major order: on a model
    whose nested list is [num_rows] rows of [num_cols] cells it returns,
    the cell [(row, col)] holds [live_state] when the draw number
    [row * num_cols + col] is [1] and [0] otherwise, whatever it held
    before, and [population] is the number of [1]s among the first
    [num_rows * num_cols] draws. *)
Theorem randomize_bits bits m :
  shape_ok m →
  ∃ m', randomize bits m = Some m'
    ∧ (∀ row col, 0 ≤ row < num_rows m → 0 ≤ col < num_cols m →
         get2 (cell_states m') row col
         = Some (if bits (Z.to_nat (row * num_cols m + col))
                 then live_state m else 0))
    ∧ population m' = heads bits (Z.to_nat (num_rows m * num_cols m)).
Proof.
  intros Hm. destruct (randomize_total bits m Hm) as (m' & Hrun & _).
  exists m'. split; [done|]. destruct Hm as (? & ? & _).
  unfold randomize in Hrun.
  destruct (for_cells _ _ _ _) as [[[cs pop] k]|] eqn:Hloop; simplify_eq/=.
  pose (I := λ (r c : Z) (s : grid * Z * nat),
    Z.of_nat s.2 = r * num_cols m + c
    ∧ s.1.2 = heads bits s.2
    ∧ ∀ r1 c1, 0 ≤ r1 < num_rows m → 0 ≤ c1 < num_cols m →
        before r c r1 c1 →
        get2 s.1.1 r1 c1
        = Some (if bits (Z.to_nat (r1 * num_cols m + c1))
                then live_state m else 0)).
  assert (I (Z.max 0 (num_rows m)) 0 (cs, pop, k)) as (Hk & Hpop & Hcells).
  { eapply (for_cells_rule I); [| | |exact Hloop].
    - split_and!; simpl; [lia|done|]. unfold before. lia.
    - intros r c [[cs1 pop1] k1] [[cs2 pop2] k2] ?? (Hk1 & Hp1 & Hc1) Hbody.
      simpl in *.
      assert (∃ v, set2 cs1 r c v = Some cs2
                   ∧ v = (if bits k1 then live_state m else 0)
                   ∧ pop2 = pop1 + Z.b2z (bits k1) ∧ k2 = S k1)
        as (v & Hset & Hv & -> & ->).
      { destruct (bits k1); simpl in Hbody;
          destruct (set2 cs1 r c _) as [cs'|] eqn:Hset; simplify_eq/=;
          eexists; split_and!; try done; lia. }
      split_and!; simpl; [lia|by rewrite heads_S, Hp1|].
      intros r1 c1 ?? Hb.
      rewrite (get2_set2 _ _ _ _ _ r1 c1 Hset) by lia.
      case_decide as Heq.
      + destruct Heq as [-> ->]. rewrite Hv.
        by replace (Z.to_nat (r * num_cols m + c)) with k1 by lia.
      + apply Hc1; [done..|]. unfold before in *. lia.
    - intros r [[cs1 pop1] k1] ? (Hk1 & Hp1 & Hc1). simpl in *.
      split_and!; simpl; [lia|done|].
      intros r1 c1 ?? Hb. apply Hc1; [done..|]. unfold before in *. lia. }
  simpl in *. split.
  - intros row col ??. apply Hcells; [done..|]. unfold before. lia.
  - rewrite Hpop. f_equal. lia.
Qed.

Lemma randomize_bits_witness :
  ∃ m', randomize Nat.even sample = Some m'
    ∧ (∀ row col, 0 ≤ row < num_rows sample → 0 ≤ col < num_cols sample →
         get2 (cell_states m') row col
         = Some (if Nat.even (Z.to_nat (row * num_cols sample + col))
                 then live_state sample else 0))
    ∧ population m'
      = heads Nat.even (Z.to_nat (num_rows sample * num_cols sample)).
Proof. apply (randomize_bits Nat.even sample). apply sample_shape. Defined.

(** *** The trace does not influence which cells live *)

Lemma live_neighbor_count_same m1 m2 r c :
  num_rows m1 = num_rows m2 → num_cols m1 = num_cols m2 →
  wrap m1 = wrap m2 → 0 < num_rows m1 → 0 < num_cols m1 →
  same_live m1 m2 →
  live_neighbor_count m1 r c = live_neighbor_count m2 r c.
Proof.
  intros Hr Hc Hw ?? Hsame. unfold live_neighbor_count.
  apply sumZ_ext. intros d _. f_equal. unfold neighbor_counts.
  rewrite <- Hr, <- Hc, <- Hw.
  destruct (resolve _ _ (r + d.1)) as [nr|] eqn:Hnr; [|done].
  destruct (resolve _ _ (c + d.2)) as [nc|] eqn:Hnc; [|done].
  apply resolve_bounds in Hnr; [|done]. apply resolve_bounds in Hnc; [|done].
  apply bool_decide_ext. by apply Hsame.
Qed.

Lemma alive_next_same live1 live2 u1 u2 n :
  0 ≤ u1 ≤ live1 → 0 ≤ u2 ≤ live2 → (u1 = live1 ↔ u2 = live2) →
  alive_next live1 u1 n = alive_next live2 u2 n.
Proof.
  intros ?? Hlive. unfold alive_next.
  rewrite (bool_decide_ext _ _ Hlive).
  assert (u1 < live1 ↔ u2 < live2) as Hlt by lia.
  by rewrite (bool_decide_ext _ _ Hlt).
Qed.

Lemma is_live_iff live1 live2 v1 v2 :
  is_live live1 v1 = is_live live2 v2 ↔ (v1 = live1 ↔ v2 = live2).
Proof. unfold is_live. do 2 case_bool_decide; simpl; naive_solver. Qed.

Lemma step_same_live m1 m2 m1' m2' :
  1 < live_state m1 → 1 < live_state m2 →
  cells_in_range m1 → cells_in_range m2 → shape_ok m1 → shape_ok m2 →
  num_rows m1 = num_rows m2 → num_cols m1 = num_cols m2 →
  wrap m1 = wrap m2 → same_live m1 m2 →
  step m1 = Some m1' → step m2 = Some m2' →
  ∀ r c, 0 ≤ r < num_rows m1 → 0 ≤ c < num_cols m1 →
    ∃ v1 v2, get2 (cell_states m1') r c = Some v1
             ∧ get2 (cell_states m2') r c = Some v2
             ∧ is_live (live_state m1) v1 = is_live (live_state m2) v2.
Proof.
  intros Hl1 Hl2 Hrg1 Hrg2 Hs1 Hs2 Hr Hc Hw Hsame Hrun1 Hrun2 r c ??.
  pose proof Hrun1 as (cs1 & pop1 & -> & _ & Hc1)%step_Some.
  pose proof Hrun2 as (cs2 & pop2 & -> & _ & Hc2)%step_Some.
  simpl in *.
  destruct (Hc1 r c) as (u1 & n1 & Hu1 & Hn1 & ->); [done..|].
  destruct (Hc2 r c) as (u2 & n2 & Hu2 & Hn2 & ->); [lia..|].
  rewrite count_live_neighbors_spec in Hn1 by (done || lia).
  rewrite count_live_neighbors_spec in Hn2 by (done || lia).
  rewrite <- (live_neighbor_count_same m1 m2) in Hn2 by (done || lia).
  simplify_eq. eexists _, _. split_and!; [done..|].
  pose proof (proj1 (Forall_get2 _ _) Hrg1 r c u1) as Hb1.
  pose proof (proj1 (Forall_get2 _ _) Hrg2 r c u2) as Hb2.
  simpl in Hb1, Hb2.
  specialize (Hb1 ltac:(lia) ltac:(lia) Hu1).
  specialize (Hb2 ltac:(lia) ltac:(lia) Hu2).
  rewrite !next_state_live by done. f_equal.
  apply alive_next_same; [done..|].
  specialize (Hsame r c ltac:(done) ltac:(done)).
  rewrite Hu1, Hu2 in Hsame. naive_solver.
Qed.

(** X5. The trace is cosmetic: two models of the same dimensions and wrap
    mode, with [live_state > 1] and cell values in [[0, live_state]], that
    have the same cells alive have the same cells alive after [step], and
    the same [population], whatever their trace flags, their trace values
    and their [live_state]s are. *)
Theorem trace_is_cosmetic m1 m2 :
  1 < live_state m1 → 1 < live_state m2 →
  cells_in_range m1 → cells_in_range m2 → shape_ok m1 → shape_ok m2 →
  num_rows m1 = num_rows m2 → num_cols m1 = num_cols m2 →
  wrap m1 = wrap m2 → same_live m1 m2 →
  ∃ m1' m2', step m1 = Some m1' ∧ step m2 = Some m2'
    ∧ same_live m1' m2' ∧ population m1' = population m2'.
Proof.
  intros Hl1 Hl2 Hrg1 Hrg2 Hs1 Hs2 Hr Hc Hw Hsame.
  destruct (step_total m1 Hs1) as (m1' & Hrun1 & _).
  destruct (step_total m2 Hs2) as (m2' & Hrun2 & _).
  pose proof (step_same_live m1 m2 m1' m2' Hl1 Hl2 Hrg1 Hrg2 Hs1 Hs2 Hr Hc Hw
                Hsame Hrun1 Hrun2) as Hcells.
  assert (live_state m1' = live_state m1 ∧ live_state m2' = live_state m2
          ∧ num_rows m1' = num_rows m1 ∧ num_cols m1' = num_cols m1)
    as (Hl1' & Hl2' & Hr' & Hc').
  { apply step_Some in Hrun1 as (? & ? & -> & _).
    apply step_Some in Hrun2 as (? & ? & -> & _). done. }
  exists m1', m2'. split_and!; [done..| |].
  - intros r c ??. rewrite Hl1', Hl2'.
    destruct (Hcells r c) as (v1 & v2 & -> & -> & Hv); [lia..|].
    apply is_live_iff in Hv. naive_solver.
  - rewrite (step_population m1 m1'), (step_population m2 m2') by done.
    rewrite <- Hr, <- Hc.
    apply sumZ_ext. intros r Hin%elem_of_range.
    apply sumZ_ext. intros c Hin'%elem_of_range.
    destruct (Hcells r c) as (v1 & v2 & Hv1 & Hv2 & Hv); [lia..|].
    unfold live_at. by rewrite Hv1, Hv2.
Qed.

Lemma same_live_example r c :
  0 ≤ r < 3 → 0 ≤ c < 3 →
  get2 [[0; 4; 0]; [3; 4; 1]; [0; 4; 0]] r c = Some 4
  ↔ get2 [[0; 2; 0]; [0; 2; 0]; [0; 2; 0]] r c = Some 2.
Proof. intros ??. each_cell r c; vm_compute; naive_solver. Qed.

Lemma trace_is_cosmetic_witness :
  let m1 := mkModel 3 3 4 false true [[0; 4; 0]; [3; 4; 1]; [0; 4; 0]] 3 9 in
  let m2 := mkModel 3 3 2 false false [[0; 2; 0]; [0; 2; 0]; [0; 2; 0]] 3 9 in
  ∃ m1' m2', step m1 = Some m1' ∧ step m2 = Some m2'
    ∧ same_live m1' m2' ∧ population m1' = population m2'.
Proof.
  apply (trace_is_cosmetic
           (mkModel 3 3 4 false true [[0; 4; 0]; [3; 4; 1]; [0; 4; 0]] 3 9)
           (mkModel 3 3 2 false false [[0; 2; 0]; [0; 2; 0]; [0; 2; 0]] 3 9)).
  - simpl. lia.
  - simpl. lia.
  - repeat constructor; simpl; lia.
  - repeat constructor; simpl; lia.
  - split_and!; [simpl; lia..|reflexivity].
  - split_and!; [simpl; lia..|reflexivity].
  - reflexivity.
  - reflexivity.
  - reflexivity.
  - intros r c. apply same_live_example.
Defined.

(** *** Resizing there and back *)

(** X6. Growing and shrinking back is the identity: on a consistent model
    whose nested list is [num_rows] rows of [num_cols] cells and whose
    [total_cells] is their product, a resize to dimensions that are not
    smaller (the same dimensions included) followed by a resize to the
    old dimensions returns the state it started from. *)
Theorem resize_round_trip new_rows new_cols m :
  consistent m → shape_ok m → total_cells m = num_rows m * num_cols m →
  num_rows m ≤ new_rows → num_cols m ≤ new_cols →
  ∃ m1, adjust_grid_size new_rows new_cols m = Some m1
        ∧ adjust_grid_size (num_rows m) (num_cols m) m1 = Some m.
Proof.
  intros Hm Hs Htot ??. pose proof Hs as (? & ? & Hd).
  destruct (adjust_grid_size_spec new_rows new_cols m)
    as (cs1 & Hrun1 & Hd1 & Hcell1); [done|done|lia..|].
  eexists. split; [done|].
  assert (0 ≤ new_rows) as Hr0 by lia. assert (0 ≤ new_cols) as Hc0 by lia.
  pose proof (adjust_grid_size_consistent _ _ _ _ Hm Hr0 Hc0 Hrun1) as Hm1.
  match type of Hrun1 with _ = Some ?x => set (m1 := x) in * end.
  assert (shape_ok m1) as Hs1 by (split_and!; simpl; [lia..|done]).
  destruct (adjust_grid_size_spec (num_rows m) (num_cols m) m1)
    as (cs2 & -> & Hd2 & Hcell2); [done..|].
  simpl in Hcell2. f_equal.
  assert (cs2 = cell_states m) as ->.
  { apply grid_ext_get2; [congruence|]. intros r c ??.
    destruct (decide (r < num_rows m ∧ c < num_cols m)) as [?|Hno].
    - rewrite Hcell2 by lia. rewrite bool_decide_true by lia.
      rewrite Hcell1 by lia. by rewrite bool_decide_true by lia.
    - rewrite (shape_get2_None _ _ _ r c Hd2),
        (shape_get2_None _ _ _ r c Hd); [done|lia..]. }
  destruct Hm as [_ _ Hpop _]. unfold population_ok in Hpop.
  destruct m; simpl in *. congruence.
Qed.

Lemma resize_round_trip_witness :
  ∃ m1, adjust_grid_size 5 3 sample = Some m1
        ∧ adjust_grid_size (num_rows sample) (num_cols sample) m1
          = Some sample.
Proof.
  apply (resize_round_trip 5 3 sample).
  - apply sample_consistent.
  - apply sample_shape.
  - reflexivity.
  - simpl. lia.
  - simpl. lia.
Defined.

(** *** [set_cells_state] and the set of its coordinates *)

Lemma set_cell_get2 state cell m m' r c :
  0 ≤ cell.1 → 0 ≤ cell.2 → 0 ≤ r → 0 ≤ c →
  set_cell state cell m = Some m' →
  get2 (cell_states m') r c
  = if decide ((r, c) = cell) then Some (target state m)
    else get2 (cell_states m) r c.
Proof.
  intros ???? (u & Hu & [[-> ->]|(_ & cs & Hset & ->)])%set_cell_Some.
  - case_decide as Heq; [|done]. by rewrite <- Heq in Hu.
  - simpl. rewrite (get2_set2 _ _ _ _ _ r c Hset) by done.
    destruct cell as [r0 c0]. simpl.
    repeat case_decide; naive_solver.
Qed.

Lemma set_cells_state_get2 cells state m m' r c :
  Forall (λ cell, 0 ≤ cell.1 ∧ 0 ≤ cell.2) cells → 0 ≤ r → 0 ≤ c →
  set_cells_state cells state m = Some m' →
  get2 (cell_states m') r c
  = if decide ((r, c) ∈ cells) then Some (target state m)
    else get2 (cell_states m) r c.
Proof.
  unfold set_cells_state. intros Hcells Hr Hc. revert m.
  induction Hcells as [|cell cells [Hc1 Hc2] _ IH]; intros m Hrun;
    simpl in Hrun.
  { simplify_eq. case_decide as Hin; [|done]. by apply elem_of_nil in Hin. }
  destruct (set_cell state cell m) as [m1|] eqn:Hset; [|done]. simpl in Hrun.
  rewrite (IH m1 Hrun).
  destruct (set_cell_written _ _ _ _ Hset) as (-> & _).
  rewrite (set_cell_get2 _ _ _ _ r c Hc1 Hc2 Hr Hc Hset).
  repeat case_decide; try done.
  all: match goal with H : ¬ _ ∈ _ :: _ |- _ => rewrite elem_of_cons in H
       | H : _ ∈ _ :: _ |- _ => rewrite elem_of_cons in H end; naive_solver.
Qed.

Lemma model_eq m1 m2 :
  num_rows m1 = num_rows m2 → num_cols m1 = num_cols m2 →
  live_state m1 = live_state m2 → wrap m1 = wrap m2 → trace m1 = trace m2 →
  cell_states m1 = cell_states m2 → population m1 = population m2 →
  total_cells m1 = total_cells m2 → m1 = m2.
Proof. destruct m1, m2. simpl. by intros -> -> -> -> -> -> -> ->. Qed.

(** X7. [set_cells_state] depends on the set of its coordinates only: on a
    consistent model, two lists of coordinates inside the grid that have
    the same elements, in any order and with any repetitions, leave the
    same state (the same grid and the same [population]). *)
Theorem set_cells_state_unordered cells1 cells2 state m :
  consistent m → shape_ok m → Forall (in_grid m) cells1 →
  (∀ cell, cell ∈ cells1 ↔ cell ∈ cells2) →
  ∃ m', set_cells_state cells1 state m = Some m'
        ∧ set_cells_state cells2 state m = Some m'.
Proof.
  intros Hm Hs Hin1 Hsame.
  assert (Forall (in_grid m) cells2) as Hin2.
  { apply Forall_forall. intros cell Hc%Hsame.
    by apply (proj1 (Forall_forall _ _) Hin1). }
  destruct (set_cells_state_total cells1 state m Hs Hin1) as (m1 & Hrun1 & _).
  destruct (set_cells_state_total cells2 state m Hs Hin2) as (m2 & Hrun2 & _).
  exists m1. split; [done|]. rewrite Hrun2. f_equal.
  destruct (set_cells_state_fields _ _ _ _ Hrun1)
    as (Hr1 & Hc1 & Hl1 & Hw1 & Ht1 & Htot1 & Hd1).
  destruct (set_cells_state_fields _ _ _ _ Hrun2)
    as (Hr2 & Hc2 & Hl2 & Hw2 & Ht2 & Htot2 & Hd2).
  assert (cell_states m2 = cell_states m1) as Hcs.
  { apply grid_ext_get2; [congruence|]. intros r c ??.
    rewrite (set_cells_state_get2 cells1 state m m1),
      (set_cells_state_get2 cells2 state m m2); [|try done..].
    - repeat case_decide; naive_solver.
    - eapply Forall_impl; [exact Hin2|]. unfold in_grid. simpl. lia.
    - eapply Forall_impl; [exact Hin1|]. unfold in_grid. simpl. lia. }
  apply model_eq; [congruence..| |congruence].
  destruct (set_cells_state_consistent _ _ _ _ Hm Hin1 Hrun1) as [_ _ -> _].
  destruct (set_cells_state_consistent _ _ _ _ Hm Hin2 Hrun2) as [_ _ -> _].
  congruence.
Qed.

Lemma set_cells_state_unordered_witness :
  ∃ m', set_cells_state [(1, 1); (0, 2); (1, 1)] true sample = Some m'
        ∧ set_cells_state [(0, 2); (1, 1)] true sample = Some m'.
Proof.
  apply (set_cells_state_unordered [(1, 1); (0, 2); (1, 1)] [(0, 2); (1, 1)]
           true sample).
  - apply sample_consistent.
  - apply sample_shape.
  - repeat constructor; simpl; lia.
  - intros cell. rewrite !elem_of_cons, !elem_of_nil. naive_solver.
Defined.

(** *** The bounds of the neighbor count *)

Lemma sumZ_mono {A} (f g : A → Z) (l : list A) :
  (∀ x, x ∈ l → f x ≤ g x) → sumZ f l ≤ sumZ g l.
Proof.
  induction l as [|x l IH]; intros Hfg; simpl; [done|].
  assert (f x ≤ g x) by (apply Hfg; by left).
  assert (sumZ f l ≤ sumZ g l).
  { apply IH. intros y ?. apply Hfg. by right. }
  lia.
Qed.

Lemma neighbor_counts_range m row col d :
  0 ≤ Z.b2z (neighbor_counts m row col d) ≤ 1.
Proof. destruct (neighbor_counts m row col d); simpl; lia. Qed.

Lemma neighbor_counts_in_bounds m row col d :
  wrap m = false →
  Z.b2z (neighbor_counts m row col d)
  ≤ Z.b2z (in_bounds (row + d.1) (num_rows m)
           && in_bounds (col + d.2) (num_cols m)).
Proof.
  unfold neighbor_counts, resolve, in_bounds. intros ->.
  repeat case_bool_decide; simpl; lia.
Qed.

(** X8. The bounds of the neighbor count: on a grid that is not empty the
    counter returns a number between 0 and 8; without wrap the count of
    a cell of the grid is at most the number of its neighbors inside the
    grid, which is 3 in a corner, 5 on an edge and 0 on a grid of one
    cell. *)
Theorem neighbor_count_bounds m row col :
  shape_ok m → 0 < num_rows m → 0 < num_cols m →
  ∃ n, count_live_neighbors m row col = Some n
       ∧ 0 ≤ n ≤ 8
       ∧ (wrap m = false →
          0 ≤ row < num_rows m → 0 ≤ col < num_cols m →
          n ≤ span (num_rows m) row * span (num_cols m) col - 1).
Proof.
  intros Hs ??. rewrite count_live_neighbors_spec by done.
  eexists. split; [done|].
  split.
  - unfold live_neighbor_count, moore_offsets. cbn [sumZ foldr].
    repeat match goal with
      | |- context [Z.b2z (neighbor_counts m row col ?d)] =>
          pose proof (neighbor_counts_range m row col d);
          generalize dependent (Z.b2z (neighbor_counts m row col d))
      end.
    intros. lia.
  - intros Hw ??. unfold live_neighbor_count.
    etrans; [apply sumZ_mono; intros d _;
             by apply neighbor_counts_in_bounds|].
    assert (span (num_rows m) row = 1 ∨ span (num_rows m) row = 2
            ∨ span (num_rows m) row = 3) as Hr by (unfold span; lia).
    assert (span (num_cols m) col = 1 ∨ span (num_cols m) col = 2
            ∨ span (num_cols m) col = 3) as Hc by (unfold span; lia).
    unfold moore_offsets, in_bounds. cbn [sumZ foldr fst snd].
    unfold span in *.
    destruct Hr as [Hr|[Hr|Hr]]; destruct Hc as [Hc|[Hc|Hc]];
      rewrite Hr, Hc; repeat case_bool_decide; simpl; lia.
Qed.

Lemma neighbor_count_bounds_witness :
  ∃ n, count_live_neighbors sample 0 0 = Some n
       ∧ 0 ≤ n ≤ 8
       ∧ (wrap sample = false →
          0 ≤ 0 < num_rows sample → 0 ≤ 0 < num_cols sample →
          n ≤ span (num_rows sample) 0 * span (num_cols sample) 0 - 1).
Proof.
  apply (neighbor_count_bounds sample 0 0);
    [apply sample_shape|simpl; lia..].
Defined.

(** *** A grid without live cells *)

Lemma live_cells_zero live (g : grid) :
  live_cells live g = 0 → Forall (Forall (λ v, v ≠ live)) g.
Proof.
  induction g as [|row g IH]; [constructor|].
  rewrite live_cells_cons. intros Hsum.
  pose proof (live_in_row_nonneg live row).
  pose proof (live_cells_nonneg live g).
  constructor; [|apply IH; lia].
  assert (live_in_row live row = 0) as Hrow by lia. clear -Hrow.
  induction row as [|v row IH]; [constructor|].
  rewrite live_in_row_cons in Hrow.
  pose proof (live_in_row_nonneg live row).
  unfold is_live in Hrow. case_bool_decide; simpl in Hrow; [lia|].
  constructor; [done|]. apply IH. lia.
Qed.

Lemma live_neighbor_count_zero m r c :
  Forall (Forall (λ v, v ≠ live_state m)) (cell_states m) →
  live_neighbor_count m r c = 0.
Proof.
  intros Hdead. unfold live_neighbor_count. apply sumZ_zero. intros d _.
  unfold neighbor_counts.
  destruct (resolve _ _ (r + d.1)) as [nr|]; [|done].
  destruct (resolve _ _ (c + d.2)) as [nc|]; [|done].
  rewrite bool_decide_false; [done|]. intros Hv.
  apply get2_Some in Hv as (i & j & row & _ & Hrow & _ & Hj).
  apply (proj1 (Forall_cells _ _) Hdead i j (live_state m)); [|done].
  unfold cell. by rewrite Hrow.
Qed.

(** X9. No life from nothing: on a consistent model whose nested list is
    [num_rows] rows of [num_cols] cells and whose [population] is [0],
    [step] returns, [population] is still [0] and no cell holds
    [live_state]; a cell that held a trace value [u] holds
    [max(u - 1, 1)] with the trace on and [0] with the trace off. *)
Theorem step_extinct m :
  consistent m → shape_ok m → population m = 0 →
  ∃ m', step m = Some m'
    ∧ population m' = 0
    ∧ ∀ row col, 0 ≤ row < num_rows m → 0 ≤ col < num_cols m →
        ∃ u, get2 (cell_states m) row col = Some u
             ∧ u ≠ live_state m
             ∧ get2 (cell_states m') row col
               = Some (if trace m && negb (bool_decide (u = 0))
                       then Z.max (u - 1) 1 else 0)
             ∧ get2 (cell_states m') row col ≠ Some (live_state m').
Proof.
  intros Hm Hs Hpop. destruct (step_total m Hs) as (m' & Hrun & _).
  exists m'. pose proof (step_consistent _ _ Hm Hrun) as [_ _ Hpop' _].
  destruct Hm as [Hlive Hrange Hpop0 _].
  rewrite Hpop0 in Hpop. apply live_cells_zero in Hpop.
  assert (∀ row col, 0 ≤ row < num_rows m → 0 ≤ col < num_cols m →
            ∃ u, get2 (cell_states m) row col = Some u
                 ∧ 0 ≤ u < live_state m
                 ∧ get2 (cell_states m') row col
                   = Some (if trace m && negb (bool_decide (u = 0))
                           then Z.max (u - 1) 1 else 0)) as Hcells.
  { apply step_Some in Hrun as (cs & pop & -> & _ & Hcells).
    intros r c ??. destruct (Hcells r c) as (u & n & Hu & Hn & Hnew); [done..|].
    rewrite count_live_neighbors_spec in Hn by (done || lia).
    rewrite live_neighbor_count_zero in Hn by done. simplify_eq.
    pose proof (proj1 (Forall_get2 _ _) Hrange r c u) as Hb. simpl in Hb.
    pose proof (proj1 (Forall_get2 _ _) Hpop r c u) as Hd. simpl in Hd.
    assert (0 ≤ r) as Hr0 by lia. assert (0 ≤ c) as Hc0 by lia.
    specialize (Hb Hr0 Hc0 Hu). specialize (Hd Hr0 Hc0 Hu).
    exists u. split_and!; [done|lia|lia|]. simpl. rewrite Hnew. f_equal.
    unfold next_state, alive_next.
    rewrite (bool_decide_false (u = live_state m)) by lia.
    rewrite (bool_decide_false (0 = 3)) by lia.
    simpl. by rewrite andb_false_r. }
  assert (live_state m' = live_state m) as Hl'.
  { apply step_Some in Hrun as (cs & pop & -> & _). done. }
  split_and!; [done| |].
  - rewrite (step_population m m') by done.
    apply sumZ_zero. intros r Hr%elem_of_range.
    apply sumZ_zero. intros c Hc%elem_of_range.
    destruct (Hcells r c) as (u & _ & ? & Hnew); [done..|].
    unfold live_at. rewrite Hnew. simpl. apply is_live_other.
    destruct (trace m && negb (bool_decide (u = 0))); lia.
  - intros r c ??. destruct (Hcells r c) as (u & Hu & ? & Hnew); [done..|].
    exists u. split_and!; [done|lia|done|]. rewrite Hnew, Hl'.
    intros [= Heq]. destruct (trace m && negb (bool_decide (u = 0))); lia.
Qed.

Lemma step_extinct_witness :
  let m := mkModel 2 2 4 true true [[0; 3]; [1; 0]] 0 4 in
  ∃ m', step m = Some m'
    ∧ population m' = 0
    ∧ ∀ row col, 0 ≤ row < num_rows m → 0 ≤ col < num_cols m →
        ∃ u, get2 (cell_states m) row col = Some u
             ∧ u ≠ live_state m
             ∧ get2 (cell_states m') row col
               = Some (if trace m && negb (bool_decide (u = 0))
                       then Z.max (u - 1) 1 else 0)
             ∧ get2 (cell_states m') row col ≠ Some (live_state m').
Proof.
  apply (step_extinct (mkModel 2 2 4 true true [[0; 3]; [1; 0]] 0 4)).
  - split.
    + simpl. lia.
    + repeat constructor; simpl; lia.
    + reflexivity.
    + intros i j v Hv Hout.
      destruct i as [|[|i]]; [| |done];
        (destruct j as [|[|j]]; [| |done]); simpl in *; lia.
  - split_and!; [simpl; lia..|reflexivity].
  - reflexivity.
Defined.

(** *** The block and the blinker *)

Lemma rect_neighbor_counts m r1 r2 c1 c2 r c d :
  1 < live_state m → wrap m = false →
  0 ≤ r1 → r2 < num_rows m → 0 ≤ c1 → c2 < num_cols m →
  rect_alive m r1 r2 c1 c2 →
  neighbor_counts m r c d
  = bool_decide (r1 ≤ r + d.1 ≤ r2) && bool_decide (c1 ≤ c + d.2 ≤ c2).
Proof.
  intros ? Hw ???? Hcells. unfold neighbor_counts, resolve. rewrite Hw.
  case_bool_decide as Hr; [|by rewrite (bool_decide_false (_ ≤ _ ≤ _)) by lia].
  case_bool_decide as Hc;
    [|rewrite (bool_decide_false (c1 ≤ _ ≤ _)) by lia; by rewrite andb_false_r].
  rewrite Hcells by done. unfold in_rect.
  rewrite <- bool_decide_and. apply bool_decide_ext.
  case_bool_decide; split; intros; simplify_eq; try done; lia.
Qed.

(** The neighbors of [(r, c)] on a grid whose live cells are a rectangle:
    the three rows and the three columns around the cell are tried
    against the rectangle, and the tests of the goal are decided. *)
Ltac rect_cases r1 r2 c1 c2 r c :=
  let Ha1 := fresh in let Ha2 := fresh in let Ha3 := fresh in
  let Hb1 := fresh in let Hb2 := fresh in let Hb3 := fresh in
  destruct (bool_decide (r1 ≤ r + -1 ≤ r2)) eqn:Ha1;
  destruct (bool_decide (r1 ≤ r ≤ r2)) eqn:Ha2;
  destruct (bool_decide (r1 ≤ r + 1 ≤ r2)) eqn:Ha3;
  first [apply bool_decide_eq_true in Ha1|apply bool_decide_eq_false in Ha1];
  first [apply bool_decide_eq_true in Ha2|apply bool_decide_eq_false in Ha2];
  first [apply bool_decide_eq_true in Ha3|apply bool_decide_eq_false in Ha3];
  try (exfalso; lia);
  destruct (bool_decide (c1 ≤ c + -1 ≤ c2)) eqn:Hb1;
  destruct (bool_decide (c1 ≤ c ≤ c2)) eqn:Hb2;
  destruct (bool_decide (c1 ≤ c + 1 ≤ c2)) eqn:Hb3;
  first [apply bool_decide_eq_true in Hb1|apply bool_decide_eq_false in Hb1];
  first [apply bool_decide_eq_true in Hb2|apply bool_decide_eq_false in Hb2];
  first [apply bool_decide_eq_true in Hb3|apply bool_decide_eq_false in Hb3];
  try (exfalso; lia);
  cbn [andb orb Z.b2z Z.add]; decide_tests; cbn [andb orb negb]; try done.

(** X10. The block is a still life: on a consistent model without wrap
    whose live cells are the four cells of a 2 by 2 block inside the grid,
    every other cell being dead, [step] returns the state it was given,
    wherever the block lies and whatever the trace flag is. *)
Theorem block_still_life m r0 c0 :
  consistent m → shape_ok m → wrap m = false →
  0 ≤ r0 → r0 + 1 < num_rows m → 0 ≤ c0 → c0 + 1 < num_cols m →
  rect_alive m r0 (r0 + 1) c0 (c0 + 1) →
  step m = Some m.
Proof.
  intros Hm Hs Hw ???? Hcells.
  rewrite (step_result m (cell_states m) Hm Hs).
  - destruct Hm as [_ _ Hpop _]. unfold population_ok in Hpop.
    rewrite <- Hpop. by destruct m.
  - by destruct Hs as (_ & _ & ?).
  - destruct Hm as [Hlive _ _ _]. intros r c u ?? Hu.
    rewrite Hcells in Hu by done. rewrite Hcells by done. simplify_eq. f_equal.
    unfold live_neighbor_count, moore_offsets. cbn [sumZ foldr].
    rewrite !(rect_neighbor_counts m r0 (r0 + 1) c0 (c0 + 1)) by (done || lia).
    cbn [fst snd]. unfold in_rect, next_state, alive_next.
    rewrite !Z.add_0_r.
    rect_cases r0 (r0 + 1) c0 (c0 + 1) r c.
    all: by rewrite andb_false_r.
Qed.

Lemma corner_block_consistent : consistent corner_block.
Proof.
  split.
  - simpl. lia.
  - repeat constructor; simpl; lia.
  - reflexivity.
  - intros i j v Hv Hout.
    destruct i as [|[|[|i]]]; [| | |done];
      (destruct j as [|[|[|j]]]; [| | |done]); simpl in *; lia.
Qed.

Lemma corner_block_cells : rect_alive corner_block 0 (0 + 1) 0 (0 + 1).
Proof. intros row col. simpl. intros ??. by each_cell row col. Qed.

Lemma block_still_life_witness : step corner_block = Some corner_block.
Proof.
  apply (block_still_life corner_block 0 0).
  - apply corner_block_consistent.
  - split_and!; [simpl; lia..|reflexivity].
  - reflexivity.
  - lia.
  - simpl. lia.
  - lia.
  - simpl. lia.
  - apply corner_block_cells.
Defined.

Lemma step_rect m r1 r2 c1 c2 (next : Z → Z → bool) :
  consistent m → shape_ok m → wrap m = false → trace m = false →
  0 ≤ r1 → r2 < num_rows m → 0 ≤ c1 → c2 < num_cols m →
  rect_alive m r1 r2 c1 c2 →
  (∀ r c, 0 ≤ r < num_rows m → 0 ≤ c < num_cols m →
     alive_next (live_state m)
       (if in_rect r1 r2 c1 c2 r c then live_state m else 0)
       (sumZ (λ d, Z.b2z (bool_decide (r1 ≤ r + d.1 ≤ r2)
                          && bool_decide (c1 ≤ c + d.2 ≤ c2)))
             moore_offsets)
     = next r c) →
  ∃ m', step m = Some m' ∧ consistent m' ∧ shape_ok m'
    ∧ num_rows m' = num_rows m ∧ num_cols m' = num_cols m
    ∧ live_state m' = live_state m ∧ wrap m' = wrap m ∧ trace m' = trace m
    ∧ total_cells m' = total_cells m
    ∧ ∀ r c, 0 ≤ r < num_rows m → 0 ≤ c < num_cols m →
        get2 (cell_states m') r c
        = Some (if next r c then live_state m else 0).
Proof.
  intros Hm Hs Hw Ht ???? Hcells Hnext.
  destruct (step_total m Hs) as (m' & Hrun & Hs'). exists m'.
  split; [done|]. split; [by eapply step_consistent|]. split; [done|].
  destruct Hm as [Hlive _ _ _].
  apply step_Some in Hrun as (cs & pop & -> & _ & Hnew). simpl.
  split_and!; [done..|]. intros r c ??.
  destruct (Hnew r c) as (u & n & Hu & Hn & ->); [done..|].
  rewrite count_live_neighbors_spec in Hn by (done || lia).
  rewrite Hcells in Hu by done. simplify_eq. f_equal.
  unfold next_state. rewrite Ht. simpl. rewrite <- (Hnext r c) by done.
  unfold live_neighbor_count.
  erewrite (sumZ_ext (λ d, Z.b2z (neighbor_counts m r c d))); [done|].
  intros d _. simpl. by rewrite (rect_neighbor_counts m r1 r2 c1 c2).
Qed.

(** X20. The blinker has period 2: on a consistent model without wrap and
    without trace whose live cells are three cells in a row, away from
    the border of the grid, every other cell being dead, [step] leaves
    the three cells of the column through the middle one alive and every
    other cell dead, and a second [step] returns the state it started
    from. *)
Theorem blinker_period_2 m r0 c0 :
  consistent m → shape_ok m → wrap m = false → trace m = false →
  1 ≤ r0 → r0 + 1 < num_rows m → 1 ≤ c0 → c0 + 1 < num_cols m →
  rect_alive m r0 r0 (c0 - 1) (c0 + 1) →
  ∃ m1, step m = Some m1
    ∧ rect_alive m1 (r0 - 1) (r0 + 1) c0 c0
    ∧ step m1 = Some m.
Proof.
  intros Hm Hs Hw Ht ???? Hcells. pose proof Hm as [Hlive _ Hpop _].
  destruct (step_rect m r0 r0 (c0 - 1) (c0 + 1)
              (in_rect (r0 - 1) (r0 + 1) c0 c0))
    as (m1 & Hrun1 & Hm1 & Hs1 & Hr1 & Hc1 & Hl1 & Hw1 & Ht1 & Htot1 & Hcells1);
    [done|done|done|done|lia|lia|lia|lia|done| |].
  { intros r c ??. unfold moore_offsets. cbn [sumZ foldr fst snd].
    unfold in_rect, alive_next. rewrite !Z.add_0_r.
    rect_cases r0 r0 (c0 - 1) (c0 + 1) r c. }
  assert (rect_alive m1 (r0 - 1) (r0 + 1) c0 c0) as Hrect1.
  { intros r c ??. rewrite Hl1. apply Hcells1; lia. }
  destruct (step_rect m1 (r0 - 1) (r0 + 1) c0 c0
              (in_rect r0 r0 (c0 - 1) (c0 + 1)))
    as (m2 & Hrun2 & Hm2 & Hs2 & Hr2 & Hc2 & Hl2 & Hw2 & Ht2 & Htot2 & Hcells2);
    [done|done|congruence|congruence|lia|lia|lia|lia|done| |].
  { intros r c ??. unfold moore_offsets. cbn [sumZ foldr fst snd].
    unfold in_rect, alive_next. rewrite !Z.add_0_r.
    rect_cases (r0 - 1) (r0 + 1) c0 c0 r c. }
  assert (cell_states m2 = cell_states m) as Hcs.
  { destruct Hs as (_ & _ & Hd). destruct Hs2 as (_ & _ & Hd2).
    apply grid_ext_get2; [congruence|]. intros r c ??.
    destruct (decide (r < num_rows m ∧ c < num_cols m)) as [?|Hno].
    - rewrite Hcells2, Hcells by lia. by rewrite Hl1.
    - rewrite (shape_get2_None _ _ _ r c Hd2),
        (shape_get2_None _ _ _ r c Hd); [done|lia..]. }
  assert (m2 = m) as ->.
  { apply model_eq; try congruence.
    destruct Hm2 as [_ _ -> _]. rewrite Hpop. congruence. }
  by exists m1.
Qed.

Lemma middle_blinker_consistent : consistent middle_blinker.
Proof.
  split.
  - simpl. lia.
  - repeat constructor; simpl; lia.
  - reflexivity.
  - intros i j v Hv Hout.
    destruct i as [|[|[|i]]]; [| | |done];
      (destruct j as [|[|[|j]]]; [| | |done]); simpl in *; lia.
Qed.

Lemma middle_blinker_cells : rect_alive middle_blinker 1 1 (1 - 1) (1 + 1).
Proof. intros row col. simpl. intros ??. by each_cell row col. Qed.

Lemma blinker_period_2_witness :
  ∃ m1, step middle_blinker = Some m1
    ∧ rect_alive m1 (1 - 1) (1 + 1) 1 1
    ∧ step m1 = Some middle_blinker.
Proof.
  apply (blinker_period_2 middle_blinker 1 1).
  - apply middle_blinker_consistent.
  - split_and!; [simpl; lia..|reflexivity].
  - reflexivity.
  - reflexivity.
  - lia.
  - simpl. lia.
  - lia.
  - simpl. lia.
  - apply middle_blinker_cells.
Defined.

(** ** The drawing tool *)

Lemma affected_pixel_spec rows cols w row col d acc :
  0 < rows → 0 < cols →
  affected_pixel rows cols w row col d acc
  = Some (acc ++ option_list (placed rows cols w row col d)).
Proof.
  intros ??. destruct d as [d_row d_col].
  unfold affected_pixel, placed, resolve, in_bounds, Py.mod_. simpl.
  rewrite !(bool_decide_false (_ = 0)) by lia.
  do 2 case_bool_decide; destruct w; simpl; rewrite ?app_nil_r; try done.
  - by rewrite (Z.mod_small (row + d_row)) by lia.
  - by rewrite (Z.mod_small (col + d_col)) by lia.
Qed.

Lemma get_affected_pixels_omap rows cols w row col figure :
  0 < rows → 0 < cols →
  get_affected_pixels rows cols w row col figure
  = Some (omap (placed rows cols w row col) figure).
Proof.
  intros ??. unfold get_affected_pixels.
  assert (∀ acc, Py.for_in figure (affected_pixel rows cols w row col) acc
                 = Some (acc ++ omap (placed rows cols w row col) figure))
    as Hloop; [|by rewrite Hloop].
  induction figure as [|d figure IH]; intros acc; simpl.
  { by rewrite app_nil_r. }
  rewrite affected_pixel_spec by done. simpl. rewrite IH, <- app_assoc.
  by destruct (placed rows cols w row col d).
Qed.

Lemma placed_in_range rows cols w row col d p :
  0 < rows → 0 < cols → placed rows cols w row col d = Some p →
  0 ≤ p.1 < rows ∧ 0 ≤ p.2 < cols.
Proof.
  intros ?? Hp. unfold placed in Hp.
  destruct (resolve w rows _) as [r|] eqn:Hr; [|done].
  destruct (resolve w cols _) as [c|] eqn:Hc; [|done].
  simplify_eq/=. split; by eapply resolve_bounds.
Qed.

Lemma affected_in_range rows cols w row col figure :
  0 < rows → 0 < cols →
  Forall (λ p, 0 ≤ p.1 < rows ∧ 0 ≤ p.2 < cols)
         (omap (placed rows cols w row col) figure).
Proof.
  intros ??. apply Forall_forall. intros p (d & _ & Hd)%list_elem_of_omap.
  by eapply placed_in_range.
Qed.

Lemma placed_wrap rows cols row col d :
  placed rows cols true row col d
  = Some ((row + d.1) `mod` rows, (col + d.2) `mod` cols).
Proof.
  unfold placed, resolve. do 2 case_bool_decide; simpl;
    by rewrite ?(Z.mod_small (row + d.1)), ?(Z.mod_small (col + d.2)) by lia.
Qed.

Lemma placed_no_wrap rows cols row col d :
  placed rows cols false row col d
  = if decide (0 ≤ row + d.1 < rows ∧ 0 ≤ col + d.2 < cols)
    then Some (row + d.1, col + d.2) else None.
Proof.
  unfold placed, resolve.
  do 2 case_bool_decide; simpl; case_decide; try done; lia.
Qed.

(** X11. The pixels of a figure: on a grid that is not empty
    [_get_affected_pixels] returns, in the order of the figure, the place
    of each pixel with each axis resolved as the neighbor counter resolves
    it (kept in bounds, reduced modulo the dimension with wrap), a pixel
    with an axis out of bounds being left out without wrap; every
    coordinate pair it returns lies inside the grid, and with wrap there
    is one pair for each pixel of the figure. *)
Theorem affected_pixels_placed rows cols w row col figure :
  0 < rows → 0 < cols →
  ∃ cells,
    get_affected_pixels rows cols w row col figure = Some cells
    ∧ cells = omap (placed rows cols w row col) figure
    ∧ Forall (λ p, 0 ≤ p.1 < rows ∧ 0 ≤ p.2 < cols) cells
    ∧ (length cells ≤ length figure)%nat
    ∧ (w = true →
       cells = (λ d, ((row + d.1) `mod` rows, (col + d.2) `mod` cols))
                 <$> figure)
    ∧ (w = false →
       cells = filter (λ p, 0 ≤ p.1 < rows ∧ 0 ≤ p.2 < cols)
                 ((λ d, (row + d.1, col + d.2)) <$> figure)).
Proof.
  intros ??. eexists. split; [by apply get_affected_pixels_omap|].
  split_and!; [done|by apply affected_in_range| | |].
  - induction figure as [|d figure IH]; csimpl; [done|].
    destruct (placed _ _ _ _ _ d); simpl; lia.
  - intros ->. induction figure as [|d figure IH]; csimpl; [done|].
    by rewrite <- IH, placed_wrap.
  - intros ->. induction figure as [|d figure IH]; csimpl; [done|].
    rewrite filter_cons, <- IH, placed_no_wrap. simpl.
    by repeat case_decide.
Qed.

Lemma affected_pixels_placed_witness :
  ∃ cells,
    get_affected_pixels 3 4 true 2 3 [(2, 0); (2, 1); (2, 2); (1, 2); (0, 1)]
    = Some cells
    ∧ cells = omap (placed 3 4 true 2 3)
                [(2, 0); (2, 1); (2, 2); (1, 2); (0, 1)]
    ∧ Forall (λ p, 0 ≤ p.1 < 3 ∧ 0 ≤ p.2 < 4) cells
    ∧ (length cells
       ≤ length [(2, 0); (2, 1); (2, 2); (1, 2); (0, 1)])%nat
    ∧ (true = true →
       cells = (λ d, ((2 + d.1) `mod` 3, (3 + d.2) `mod` 4))
                 <$> [(2, 0); (2, 1); (2, 2); (1, 2); (0, 1)])
    ∧ (true = false →
       cells = filter (λ p, 0 ≤ p.1 < 3 ∧ 0 ≤ p.2 < 4)
                 ((λ d, (2 + d.1, 3 + d.2))
                    <$> [(2, 0); (2, 1); (2, 2); (1, 2); (0, 1)])).
Proof.
  apply (affected_pixels_placed 3 4 true 2 3
           [(2, 0); (2, 1); (2, 2); (1, 2); (0, 1)]); lia.
Defined.

(** X12. Drawing never leaves the grid: on a consistent model that is not
    empty, the coordinates [_get_affected_pixels] computes from the
    model's dimensions and wrap mode, for any figure at any position, are
    accepted by [set_cells_state]: it returns, the state stays
    consistent, and each of these cells is alive (dead, for [state =
    False]) afterwards. *)
Theorem draw_figure m row col figure state :
  consistent m → shape_ok m → 0 < num_rows m → 0 < num_cols m →
  ∃ cells m',
    get_affected_pixels (num_rows m) (num_cols m) (wrap m) row col figure
    = Some cells
    ∧ set_cells_state cells state m = Some m'
    ∧ consistent m' ∧ shape_ok m'
    ∧ ∀ cell, cell ∈ cells →
        get2 (cell_states m') cell.1 cell.2 = Some (target state m).
Proof.
  intros Hm Hs ??. eexists.
  assert (Forall (in_grid m)
            (omap (placed (num_rows m) (num_cols m) (wrap m) row col) figure))
    as Hin by by apply affected_in_range.
  destruct (set_cells_state_total _ state m Hs Hin) as (m' & Hrun & Hs').
  exists m'. split_and!; [by apply get_affected_pixels_omap|done| |done|].
  - by eapply set_cells_state_consistent.
  - by destruct (set_cells_state_written _ _ _ _ Hrun) as (_ & ? & _).
Qed.

Lemma draw_figure_witness :
  ∃ cells m',
    get_affected_pixels (num_rows sample) (num_cols sample) (wrap sample)
      1 2 [(2, 0); (2, 1); (2, 2); (1, 2); (0, 1)]
    = Some cells
    ∧ set_cells_state cells true sample = Some m'
    ∧ consistent m' ∧ shape_ok m'
    ∧ ∀ cell, cell ∈ cells →
        get2 (cell_states m') cell.1 cell.2 = Some (target true sample).
Proof.
  apply (draw_figure sample 1 2 [(2, 0); (2, 1); (2, 2); (1, 2); (0, 1)] true).
  - apply sample_consistent.
  - apply sample_shape.
  - simpl. lia.
  - simpl. lia.
Defined.

(** X13. The drawing tool on an empty grid: when a dimension is [0],
    [_get_affected_pixels] returns the empty list without wrap, and with
    wrap it raises [ZeroDivisionError] at the first pixel of the figure;
    the test [0 <= row < num_rows and 0 <= col < num_cols] of its callers
    is what keeps them from calling it then. *)
Theorem affected_pixels_empty_grid rows cols w row col figure :
  rows = 0 ∨ cols = 0 →
  get_affected_pixels rows cols w row col figure
  = (if w then match figure with [] => Some [] | _ => None end else Some [])
  ∧ in_bounds row rows && in_bounds col cols = false.
Proof.
  intros Hzero. split.
  - unfold get_affected_pixels.
    assert (∀ d acc, affected_pixel rows cols w row col d acc
                     = if w then None else Some acc) as Hbody.
    { intros [d_row d_col] acc. unfold affected_pixel, in_bounds, Py.mod_.
      destruct Hzero as [-> | ->].
      - rewrite (bool_decide_false (0 ≤ _ < 0)) by lia. simpl.
        by destruct w.
      - rewrite (bool_decide_false (0 ≤ _ < 0)) by lia.
        rewrite andb_false_r. destruct w; [|done].
        by destruct (if bool_decide (rows = 0) then _ else _). }
    destruct w.
    + destruct figure as [|d figure]; [done|]. simpl. by rewrite Hbody.
    + induction figure as [|d figure IH]; [done|]. simpl. by rewrite Hbody.
  - unfold in_bounds. destruct Hzero as [-> | ->].
    + by rewrite (bool_decide_false (0 ≤ _ < 0)) by lia.
    + rewrite (bool_decide_false (0 ≤ col < 0)) by lia. apply andb_false_r.
Qed.

Lemma affected_pixels_empty_grid_witness :
  get_affected_pixels 0 5 true 0 0 [(0, 0)]
  = (if true then match [(0, 0)] with [] => Some [] | _ => None end
     else Some [])
  ∧ in_bounds 0 0 && in_bounds 0 5 = false.
Proof. apply (affected_pixels_empty_grid 0 5 true 0 0 [(0, 0)]). by left. Defined.

(** ** The controller *)




Lemma list_index_Some l x :
  x ∈ l →
  ∃ i, list_index l x = Some i ∧ 0 ≤ i < Z.of_nat (length l)
       ∧ l !! Z.to_nat i = Some x.
Proof.
  induction l as [|y l IH]; [by intros ?%elem_of_nil|].
  intros Hin. simpl. case_decide as Heq.
  { exists 0. subst. split; [done|]. split; [lia|done]. }
  apply elem_of_cons in Hin as [->|Hin]; [done|].
  destruct (IH Hin) as (i & -> & ? & Hi). exists (Z.succ i).
  split; [done|]. split; [lia|]. by rewrite Z2Nat.inj_succ by lia.
Qed.

Lemma list_index_lookup l i x :
  NoDup l → l !! i = Some x → list_index l x = Some (Z.of_nat i).
Proof.
  intros Hnd. revert i. induction Hnd as [|y l Hy Hnd IH]; intros i Hi.
  { done. }
  simpl. destruct i as [|i]; simpl in Hi.
  - simplify_eq. by rewrite decide_True.
  - rewrite decide_False.
    + rewrite (IH i Hi). simpl. f_equal. lia.
    + intros ->. apply Hy. by eapply list_elem_of_lookup_2.
Qed.










(** *** Cycling through the shapes *)

Lemma next_shape_step d c i :
  NoDup (dict_keys (Controller.shapes c)) →
  0 ≤ i < Z.of_nat (length (Controller.shapes c)) →
  dict_keys (Controller.shapes c) !! Z.to_nat i = Some (Controller.shape c) →
  ∃ s, Controller.next_shape d c = Some s
       ∧ dict_keys (Controller.shapes c)
         !! Z.to_nat ((i + (if bool_decide (d > 0) then 1 else -1))
                      `mod` Z.of_nat (length (Controller.shapes c)))
         = Some s.
Proof.
  intros Hnd Hi Hlook. unfold Controller.next_shape.
  rewrite (list_index_lookup _ _ _ Hnd Hlook), Z2Nat.id by lia. simpl.
  unfold Py.mod_. rewrite bool_decide_false by lia. simpl.
  set (n := Z.of_nat (length (Controller.shapes c))) in *.
  set (j := (i + (if bool_decide (d > 0) then 1 else -1)) `mod` n).
  assert (0 ≤ j < n) as Hj by (apply Z.mod_pos_bound; lia).
  assert (length (dict_keys (Controller.shapes c))
          = length (Controller.shapes c)) as Hlen.
  { unfold dict_keys. by rewrite length_fmap. }
  rewrite getitem_nonneg by lia.
  destruct (lookup_lt_is_Some_2 (dict_keys (Controller.shapes c))
              (Z.to_nat j)) as [s Hs]; [lia|].
  by exists s.
Qed.

(** X15. Scrolling there and back: when the key of the current shape is
    among the keys of [shapes], the shape a wheel event moves to is one of
    the keys, and a wheel event in the other direction moves back to the
    shape it started from, the first and the last key being neighbors. *)
Theorem cycle_shapes_round_trip c d1 d2 :
  NoDup (dict_keys (Controller.shapes c)) →
  Controller.shape c ∈ dict_keys (Controller.shapes c) →
  (d1 > 0 ↔ ¬ d2 > 0) →
  ∃ s, Controller.next_shape d1 c = Some s
       ∧ s ∈ dict_keys (Controller.shapes c)
       ∧ Controller.next_shape d2 (Controller.with_shape c s)
         = Some (Controller.shape c).
Proof.
  intros Hnd Hshape Hd.
  destruct (list_index_Some _ _ Hshape) as (i & _ & Hi & Hlook).
  assert (length (dict_keys (Controller.shapes c))
          = length (Controller.shapes c)) as Hlen.
  { unfold dict_keys. by rewrite length_fmap. }
  rewrite Hlen in Hi.
  destruct (next_shape_step d1 c i Hnd Hi Hlook) as (s & Hs & Hlook').
  exists s. split; [done|]. split; [by eapply list_elem_of_lookup_2|].
  set (n := Z.of_nat (length (Controller.shapes c))) in *.
  set (e1 := if bool_decide (d1 > 0) then 1 else -1) in *.
  assert (0 ≤ (i + e1) `mod` n < n) as Hj by (apply Z.mod_pos_bound; lia).
  destruct (next_shape_step d2 (Controller.with_shape c s) ((i + e1) `mod` n))
    as (s' & -> & Hback); [done..|].
  simpl in Hback. fold n in Hback. rewrite Z.add_mod_idemp_l in Hback by lia.
  replace (i + e1 + (if bool_decide (d2 > 0) then 1 else -1)) with i
    in Hback.
  - rewrite Z.mod_small in Hback by lia. congruence.
  - unfold e1. do 2 case_bool_decide; lia || tauto.
Qed.

Lemma cycle_shapes_round_trip_witness :
  ∃ s, Controller.next_shape (-120) Controller.init = Some s
       ∧ s ∈ dict_keys (Controller.shapes Controller.init)
       ∧ Controller.next_shape 120 (Controller.with_shape Controller.init s)
         = Some (Controller.shape Controller.init).
Proof.
  apply (cycle_shapes_round_trip Controller.init (-120) 120).
  - unfold dict_keys. simpl. repeat constructor.
    all: rewrite ?elem_of_cons, elem_of_nil; intros ?; naive_solver.
  - unfold dict_keys. simpl. rewrite elem_of_cons. by left.
  - lia.
Defined.

(** ** Subscripts out of the grid *)

(** X16. What [set_cells_state] writes and what it keeps: given
    coordinates inside the grid it returns, the widths of the rows are
    kept, each listed cell holds [live_state] (or [0], for [state =
    False]) and every other cell of the grid holds what it held, a trace
    value included. *)
Theorem set_cells_state_cells cells state m :
  shape_ok m → Forall (in_grid m) cells →
  ∃ m', set_cells_state cells state m = Some m'
    ∧ dims (cell_states m') = dims (cell_states m)
    ∧ ∀ row col, 0 ≤ row < num_rows m → 0 ≤ col < num_cols m →
        get2 (cell_states m') row col
        = if decide ((row, col) ∈ cells) then Some (target state m)
          else get2 (cell_states m) row col.
Proof.
  intros Hs Hin.
  destruct (set_cells_state_total cells state m Hs Hin) as (m' & Hrun & _).
  exists m'. split; [done|]. split.
  - by destruct (set_cells_state_fields _ _ _ _ Hrun) as (_ & _ & _ & _ & _ & _ & ?).
  - intros row col ??. apply set_cells_state_get2; [|lia|lia|done].
    eapply Forall_impl; [exact Hin|]. unfold in_grid. simpl. lia.
Qed.

Lemma set_cells_state_cells_witness :
  ∃ m', set_cells_state [(0, 2); (1, 0)] false sample = Some m'
    ∧ dims (cell_states m') = dims (cell_states sample)
    ∧ ∀ row col, 0 ≤ row < num_rows sample → 0 ≤ col < num_cols sample →
        get2 (cell_states m') row col
        = if decide ((row, col) ∈ [(0, 2); (1, 0)])
          then Some (target false sample)
          else get2 (cell_states sample) row col.
Proof.
  apply (set_cells_state_cells [(0, 2); (1, 0)] false sample).
  - apply sample_shape.
  - repeat constructor; simpl; lia.
Defined.

Lemma count_neighbor_empty m row col d_row d_col acc :
  num_rows m = 0 ∨ num_cols m = 0 → ¬ (d_row = 0 ∧ d_col = 0) →
  count_neighbor m row col d_row d_col acc
  = if wrap m then None else Some acc.
Proof.
  intros Hzero Hd. unfold count_neighbor, in_bounds, Py.mod_.
  rewrite (proj2 (andb_false_iff (bool_decide (d_row = 0))
                    (bool_decide (d_col = 0)))).
  2:{ destruct (decide (d_row = 0)); [right|left];
        apply bool_decide_eq_false; lia. }
  destruct Hzero as [Hr|Hc].
  - rewrite Hr. rewrite (bool_decide_false (0 ≤ _ < 0)) by lia. simpl.
    by destruct (wrap m).
  - rewrite Hc. rewrite (bool_decide_false (0 ≤ col + d_col < 0)) by lia.
    destruct (wrap m); simpl.
    + rewrite andb_false_r.
      by destruct (if bool_decide (0 ≤ row + d_row < num_rows m)
                   then _ else _).
    + rewrite andb_true_r.
      by destruct (bool_decide (0 ≤ row + d_row < num_rows m)).
Qed.

(** X17. The neighbor counter on an empty grid: when a dimension is [0]
    the counter returns [0] without wrap and raises [ZeroDivisionError]
    with wrap, at any position; [step] on such a grid returns all the
    same, its loops visiting no cell. *)
Theorem count_live_neighbors_empty m row col :
  shape_ok m → num_rows m = 0 ∨ num_cols m = 0 →
  count_live_neighbors m row col = (if wrap m then None else Some 0)
  ∧ is_Some (step m).
Proof.
  intros Hs Hzero. split.
  - unfold count_live_neighbors. cbn [Py.for_in].
    destruct (wrap m) eqn:Hw.
    + rewrite (count_neighbor_empty m row col (-1) (-1)) by (done || lia).
      by rewrite Hw.
    + repeat first
        [ rewrite count_neighbor_skip
        | rewrite count_neighbor_empty by (done || lia); rewrite Hw
        | progress cbn [mbind option_bind] ].
      done.
  - destruct (step_total m Hs) as (m' & -> & _). by eexists.
Qed.

Lemma count_live_neighbors_empty_witness :
  let m := mkModel 0 3 4 true false [] 0 0 in
  count_live_neighbors m 0 0 = (if wrap m then None else Some 0)
  ∧ is_Some (step m).
Proof.
  apply (count_live_neighbors_empty (mkModel 0 3 4 true false [] 0 0) 0 0).
  - split_and!; [simpl; lia..|reflexivity].
  - by left.
Defined.

Lemma index_negative {A} (l : list A) i :
  0 ≤ i < Z.of_nat (length l) →
  Py.index l (i - Z.of_nat (length l)) = Py.index l i.
Proof.
  intros ?. unfold Py.index. simpl.
  rewrite (bool_decide_false (0 ≤ i - _ < _)) by lia.
  rewrite (bool_decide_true (- _ ≤ i - _ < 0)) by lia.
  rewrite (bool_decide_true (0 ≤ i < _)) by lia. f_equal. lia.
Qed.

Lemma index_outside {A} (l : list A) i :
  ¬ (- Z.of_nat (length l) ≤ i < Z.of_nat (length l)) → Py.index l i = None.
Proof.
  intros ?. unfold Py.index. simpl.
  rewrite (bool_decide_false (0 ≤ i < _)) by lia.
  by rewrite (bool_decide_false (- _ ≤ i < 0)) by lia.
Qed.

Lemma get2_outside m row col :
  shape_ok m →
  ¬ (- num_rows m ≤ row < num_rows m ∧ - num_cols m ≤ col < num_cols m) →
  get2 (cell_states m) row col = None.
Proof.
  intros (? & ? & Hd) Hout. apply eq_None_not_Some. intros [v Hv].
  apply get2_Some in Hv as (i & j & r & Hi & Hr & Hj & _).
  apply dims_replicate in Hd as [Hlen Hrows].
  assert (length r = Z.to_nat (num_cols m)) as Hlen'.
  { apply (proj1 (Forall_forall _ _) Hrows r).
    by eapply list_elem_of_lookup_2. }
  destruct (decide (- num_rows m ≤ row < num_rows m)).
  - rewrite index_outside in Hj; [done|]. lia.
  - rewrite index_outside in Hi; [done|]. lia.
Qed.

Lemma get2_negative m row col :
  shape_ok m → 0 ≤ row < num_rows m → 0 ≤ col < num_cols m →
  get2 (cell_states m) (row - num_rows m) (col - num_cols m)
  = get2 (cell_states m) row col
  ∧ ∀ v, set2 (cell_states m) (row - num_rows m) (col - num_cols m) v
         = set2 (cell_states m) row col v.
Proof.
  intros (? & ? & Hd) ??.
  apply dims_replicate in Hd as [Hlen Hrows].
  assert (Py.index (cell_states m) (row - num_rows m)
          = Py.index (cell_states m) row) as Hi.
  { rewrite <- (index_negative _ row) by lia. f_equal. lia. }
  assert (∀ r, Py.getitem (cell_states m) row = Some r →
               Py.index r (col - num_cols m) = Py.index r col) as Hj.
  { intros r (k & _ & Hk)%getitem_Some.
    assert (length r = Z.to_nat (num_cols m)) as Hlen'.
    { apply (proj1 (Forall_forall _ _) Hrows r).
      by eapply list_elem_of_lookup_2. }
    rewrite <- (index_negative _ col) by lia. f_equal. lia. }
  unfold get2, set2, Py.getitem, Py.setitem in *. rewrite Hi.
  destruct (Py.index (cell_states m) row ≫= _) as [r|] eqn:Hr; [|done].
  simpl. rewrite (Hj r eq_refl). done.
Qed.

(** X18. A subscript out of the grid: a coordinate pair with a row
    outside [[-num_rows, num_rows)] or a column outside
    [[-num_cols, num_cols)] makes [set_cells_state] raise [IndexError],
    whatever cells inside the grid are listed before it and whatever is
    listed after it. *)
Theorem set_cells_state_index_error m row col state before_it after_it :
  shape_ok m → Forall (in_grid m) before_it →
  ¬ (- num_rows m ≤ row < num_rows m ∧ - num_cols m ≤ col < num_cols m) →
  set_cells_state (before_it ++ (row, col) :: after_it) state m = None.
Proof.
  intros Hs Hin Hout. unfold set_cells_state. rewrite for_in_app.
  destruct (set_cells_state_total before_it state m Hs Hin)
    as (m1 & Hrun & Hs1).
  unfold set_cells_state in Hrun. rewrite Hrun. simpl.
  destruct (set_cells_state_fields _ _ _ _ Hrun) as (Hr & Hc & _).
  rewrite (get2_outside m1 row col Hs1); [done|]. by rewrite Hr, Hc.
Qed.

Lemma set_cells_state_index_error_witness :
  set_cells_state ([(0, 2)] ++ (2, 0) :: [(1, 1)]) true sample = None.
Proof.
  apply (set_cells_state_index_error sample 2 0 true [(0, 2)] [(1, 1)]).
  - apply sample_shape.
  - repeat constructor; simpl; lia.
  - simpl. lia.
Defined.

(** X19. Negative subscripts are not refused: for a cell [(row, col)] of
    the grid, [set_cells_state] given [(row - num_rows, col - num_cols)]
    does what it does given [(row, col)]: the subscripts count from the
    far edges, as Python subscripts do. *)
Theorem set_cells_state_negative m row col state :
  shape_ok m → 0 ≤ row < num_rows m → 0 ≤ col < num_cols m →
  set_cells_state [(row - num_rows m, col - num_cols m)] state m
  = set_cells_state [(row, col)] state m.
Proof.
  intros Hs ??. unfold set_cells_state. simpl.
  destruct (get2_negative m row col Hs) as [-> Hset]; [done..|].
  by rewrite !Hset.
Qed.

Lemma set_cells_state_negative_witness :
  set_cells_state [(0 - num_rows sample, 2 - num_cols sample)] true sample
  = set_cells_state [(0, 2)] true sample.
Proof.
  apply (set_cells_state_negative sample 0 2 true).
  - apply sample_shape.
  - simpl. lia.
  - simpl. lia.
Defined.
